(** * memorydb: an embeddable in-memory document store

    A shallow embedding of the store's index layer ([indexes.ts]), cursor
    ([cursor.ts]), collection facade ([datastore.ts]) and task executor
    ([executor.ts]), together with the properties of their rollback,
    projection, sorting and expiry logic.

    Conventions.
    - JavaScript values are the inductive [value]; heap-allocated values
      (dates, arrays, objects) carry their address, so that [===] on them is
      address comparison while the total order of the model is structural.
    - Numbers are restricted to integers ([Z]); nothing below depends on
      fractional values or on NaN.
    - Code that mutates [this] and may throw is a function
      [S -> S * result A]: the state reached so far survives an exception,
      as it does in JavaScript.
    - [model.ts] is not among the available sources: its functions are the
      interface [Model]; a concrete instance following the written
      specification is given in [SpecModel].
    - What the host decides is the interface [Env]: the persistence layer,
      the clock, the identifiers drawn at random, the depth of the call
      stack and the text of a date.
    - The AVL tree of the package [binary-search-tree] is represented by the
      in-order sequence of its nodes. *)

From Stdlib Require Import ZArith List String Ascii Bool Lia Arith.
From Stdlib Require Import Permutation Sorted DecimalString.
Import ListNotations.

Local Open Scope string_scope.
Local Open Scope Z_scope.
Local Open Scope list_scope.

Set Warnings "-register-all".

(* ================================================================== *)
(** ** Values *)

Inductive value : Type :=
| VUndefined
| VNull
| VNum (n : Z)
| VStr (s : string)
| VBool (b : bool)
| VDate (addr : nat) (ms : Z)
| VArr (addr : nat) (elts : list value)
| VObj (addr : nat) (fields : list (string * value)).

(** A document is an object: an address and its own properties in
    insertion order. *)
Record doc : Type := Doc { doc_ref : nat; doc_fields : list (string * value) }.

Definition doc_value (d : doc) : value := VObj (doc_ref d) (doc_fields d).

Inductive error : Type :=
| UniqueViolated (key : value)
| InconsistentProjection
| MissingFieldName
| TypeError (msg : string)
| RangeError (msg : string)
| ModelError (msg : string)
| PersistenceError (msg : string).

Inductive result (A : Type) : Type :=
| Ok (a : A)
| Throw (e : error).
Arguments Ok {A} a.
Arguments Throw {A} e.

(** [a === b] *)
Definition strict_equal (a b : value) : bool :=
  match a, b with
  | VUndefined, VUndefined => true
  | VNull, VNull => true
  | VNum x, VNum y => Z.eqb x y
  | VStr x, VStr y => String.eqb x y
  | VBool x, VBool y => Bool.eqb x y
  | VDate x _, VDate y _ => Nat.eqb x y
  | VArr x _, VArr y _ => Nat.eqb x y
  | VObj x _, VObj y _ => Nat.eqb x y
  | _, _ => false
  end.

Definition isArray (v : value) : bool :=
  match v with VArr _ _ => true | _ => false end.

Definition isDate (v : value) : bool :=
  match v with VDate _ _ => true | _ => false end.

(** Truthiness, as used by [||], [&&] and [if]. *)
Definition truthy (v : value) : bool :=
  match v with
  | VUndefined | VNull => false
  | VNum n => negb (Z.eqb n 0)
  | VStr s => negb (String.eqb s "")
  | VBool b => b
  | _ => true
  end.

(** [String(n)] for an integer [n]. *)
Definition string_of_Z (n : Z) : string := NilZero.string_of_int (Z.to_int n).

Definition string_of_bool (b : bool) : string := if b then "true" else "false".

(** Own-property access [o[k]] on a property list. *)
Fixpoint get_prop (fs : list (string * value)) (k : string) : value :=
  match fs with
  | [] => VUndefined
  | (k', v) :: rest => if String.eqb k' k then v else get_prop rest k
  end.

Fixpoint has_prop (fs : list (string * value)) (k : string) : bool :=
  match fs with
  | [] => false
  | (k', _) :: rest => String.eqb k' k || has_prop rest k
  end.

(** [o[k] = v]: an existing property keeps its place, a new one goes last. *)
Fixpoint set_prop (fs : list (string * value)) (k : string) (v : value)
  : list (string * value) :=
  match fs with
  | [] => [(k, v)]
  | (k', v') :: rest =>
      if String.eqb k' k then (k', v) :: rest else (k', v') :: set_prop rest k v
  end.

(** [delete o[k]] *)
Fixpoint delete_prop (fs : list (string * value)) (k : string)
  : list (string * value) :=
  match fs with
  | [] => []
  | (k', v') :: rest =>
      if String.eqb k' k then delete_prop rest k else (k', v') :: delete_prop rest k
  end.

Definition get_field (d : doc) (k : string) : value := get_prop (doc_fields d) k.

Definition set_field (d : doc) (k : string) (v : value) : doc :=
  Doc (doc_ref d) (set_prop (doc_fields d) k v).

Definition delete_field (d : doc) (k : string) : doc :=
  Doc (doc_ref d) (delete_prop (doc_fields d) k).

(** [v.k] on an arbitrary value: only objects have own properties here. *)
Definition value_prop (v : value) (k : string) : value :=
  match v with
  | VObj _ fs => get_prop fs k
  | _ => VUndefined
  end.

(** [v.hasOwnProperty(k)] *)
Definition hasOwnProperty (v : value) (k : string) : bool :=
  match v with
  | VObj _ fs => has_prop fs k
  | _ => false
  end.

(* ================================================================== *)
(** ** Stateful code that may throw *)

Definition M (St A : Type) : Type := St -> St * result A.

Definition ret {St A} (a : A) : M St A := fun s => (s, Ok a).

Definition throw {St A} (e : error) : M St A := fun s => (s, Throw e).

Definition bind {St A B} (c : M St A) (k : A -> M St B) : M St B :=
  fun s =>
    match c s with
    | (s', Ok a) => k a s'
    | (s', Throw e) => (s', Throw e)
    end.

Definition get {St} : M St St := fun s => (s, Ok s).

Definition put {St} (s : St) : M St unit := fun _ => (s, Ok tt).

Declare Scope js_scope.
Delimit Scope js_scope with js.
Notation "x <- c ;; k" := (bind c (fun x => k))
  (at level 61, c at next level, right associativity) : js_scope.
Notation "c ;; k" := (bind c (fun _ => k))
  (at level 61, right associativity) : js_scope.
Local Open Scope js_scope.

(** [try { c } catch (e) { h e }] *)
Definition try_catch {St A} (c : M St A) (h : error -> M St A) : M St A :=
  fun s =>
    match c s with
    | (s', Ok a) => (s', Ok a)
    | (s', Throw e) => h e s'
    end.

(** [xs.forEach(body)], also [for (i = 0; i < xs.length; i += 1) body(xs[i])]:
    an exception leaves the loop at once. *)
Fixpoint for_each {St X} (body : X -> M St unit) (xs : list X) : M St unit :=
  match xs with
  | [] => ret tt
  | x :: rest => body x ;; for_each body rest
  end.

(** The loop
    [for (i = 0; i < xs.length; i += 1) {
       try { body(xs[i]) } catch (e) { error = e; failingI = i; break; } }]
    returning [(error, failingI)] when it was left through [break]. *)
Fixpoint for_try {St X} (body : X -> M St unit) (xs : list X) (i : nat)
  : M St (option (error * nat)) :=
  match xs with
  | [] => ret None
  | x :: rest =>
      fun s =>
        match body x s with
        | (s', Ok _) => for_try body rest (S i) s'
        | (s', Throw e) => (s', Ok (Some (e, i)))
        end
  end.

(* ================================================================== *)
(** ** The interface of [model.ts] *)

Class Model : Type := {
  (** [model.compareThings(a, b, compareStrings)], with values in -1, 0, 1 *)
  compareThings : value -> value -> option (string -> string -> Z) -> Z;
  (** [model.getDotValue(doc, path)] *)
  getDotValue : doc -> string -> value;
  (** [model.match(doc, query)]; may throw on a malformed query *)
  match_doc : doc -> value -> result bool;
  (** [model.modify(doc, updateQuery)]: the modified copy, allocated from the
      given address on, and the next free address; may throw *)
  modify : doc -> value -> nat -> result (doc * nat);
  (** [model.checkObject(obj)]: throws on a key with a dot or a dollar *)
  checkObject : value -> result unit;
}.

(* ================================================================== *)
(** ** Collaborators outside the store *)

(** The persistence layer, the clock, the generator of identifiers and
    the engine that runs the code. *)
Class Env : Type := {
  (** [persistence.persistNewState(records, cb)]: the error handed to [cb] *)
  persistNewState : list value -> option error;
  (** [Date.now()], one instant for the operation in progress *)
  Date_now : Z;
  (** [customUtils.uid(16)], a random identifier of sixteen characters:
      the identifiers drawn, one after the other *)
  uid : nat -> string;
  (** the number of nested calls after which the engine throws
      ["RangeError: Maximum call stack size exceeded"] *)
  call_stack_size : nat;
  (** [String(date)] for a date of the given time value: the local time
      of the host, to the second, and its time zone *)
  Date_toString : Z -> string;
}.

(* ================================================================== *)
(** ** The tree of an index (package [binary-search-tree]) *)

Module BinarySearchTree.

Definition node : Type := value * list doc.
Definition tree : Type := list node.

Section Ops.
Variable compareKeys : value -> value -> Z.
Variable checkValueEquality : doc -> doc -> bool.
Variable unique : bool.

(** [tree.insert(key, value)]: a key already present gets the value
    appended to its node, or the insertion throws when the tree is
    unique; the tree is untouched when it throws. *)
Fixpoint insert (key : value) (v : doc) (t : tree) : result tree :=
  match t with
  | [] => Ok [(key, [v])]
  | (k, data) :: rest =>
      if compareKeys k key =? 0 then
        if unique then Throw (UniqueViolated key)
        else Ok ((k, data ++ [v]) :: rest)
      else if compareKeys key k <? 0 then Ok ((key, [v]) :: t)
      else
        match insert key v rest with
        | Ok rest' => Ok ((k, data) :: rest')
        | Throw e => Throw e
        end
  end.

(** [tree.delete(key, value)]: when the node of [key] holds more than one
    value only the values equal to [value] are dropped from it;
    otherwise the whole node goes. A key that is absent changes
    nothing. *)
Fixpoint delete (key : value) (v : doc) (t : tree) : tree :=
  match t with
  | [] => []
  | (k, data) :: rest =>
      if compareKeys key k =? 0 then
        if (1 <? List.length data)%nat then
          (k, filter (fun d => negb (checkValueEquality d v)) data) :: rest
        else rest
      else if compareKeys key k <? 0 then t
      else (k, data) :: delete key v rest
  end.

(** [tree.search(key)] *)
Fixpoint search (key : value) (t : tree) : list doc :=
  match t with
  | [] => []
  | (k, data) :: rest =>
      if compareKeys key k =? 0 then data
      else if compareKeys key k <? 0 then []
      else search key rest
  end.

(** The bound matchers of [tree.betweenBounds(query)]. *)
Definition lowerBoundMatcher (query key : value) : bool :=
  let has_gt := hasOwnProperty query "$gt" in
  let has_gte := hasOwnProperty query "$gte" in
  let gt := value_prop query "$gt" in
  let gte := value_prop query "$gte" in
  if negb has_gt && negb has_gte then true
  else if has_gt && has_gte then
    if compareKeys gte gt =? 0 then 0 <? compareKeys key gt
    else if 0 <? compareKeys gte gt then 0 <=? compareKeys key gte
    else 0 <? compareKeys key gt
  else if has_gt then 0 <? compareKeys key gt
  else 0 <=? compareKeys key gte.

Definition upperBoundMatcher (query key : value) : bool :=
  let has_lt := hasOwnProperty query "$lt" in
  let has_lte := hasOwnProperty query "$lte" in
  let lt := value_prop query "$lt" in
  let lte := value_prop query "$lte" in
  if negb has_lt && negb has_lte then true
  else if has_lt && has_lte then
    if compareKeys lte lt =? 0 then compareKeys key lt <? 0
    else if compareKeys lte lt <? 0 then compareKeys key lte <=? 0
    else compareKeys key lt <? 0
  else if has_lt then compareKeys key lt <? 0
  else compareKeys key lte <=? 0.

(** [tree.betweenBounds(query)]: the data of the nodes within both
    bounds, in key order. *)
Definition betweenBounds (query : value) (t : tree) : list doc :=
  flat_map (fun n : node =>
              if lowerBoundMatcher query (fst n) && upperBoundMatcher query (fst n)
              then snd n else []) t.

(** [tree.executeOnEveryNode(fn)] visits the nodes in key order. *)
Definition nodes_in_order (t : tree) : list node := t.

End Ops.

End BinarySearchTree.

(* ================================================================== *)
(** ** Helpers from [underscore] and the language *)

(** [_.contains(seen, x)]: membership up to [===]. *)
Definition contains (seen : list value) (x : value) : bool :=
  existsb (fun y => strict_equal y x) seen.

(** [_.uniq(array, iteratee)]: keeps the first element of each class of
    elements whose images under [iteratee] are [===]. *)
Fixpoint uniq_from (iteratee : value -> value) (array seen : list value)
  : list value :=
  match array with
  | [] => []
  | v :: rest =>
      let computed := iteratee v in
      if contains seen computed then uniq_from iteratee rest seen
      else v :: uniq_from iteratee rest (seen ++ [computed])
  end.

Definition uniq (array : list value) (iteratee : value -> value) : list value :=
  uniq_from iteratee array [].

(** [_.intersection(a, b)] on strings: the distinct elements of [a] that
    are in [b], in the order of [a]. *)
Fixpoint intersection_from (a b seen : list string) : list string :=
  match a with
  | [] => []
  | x :: rest =>
      if existsb (String.eqb x) seen then intersection_from rest b seen
      else if existsb (String.eqb x) b then x :: intersection_from rest b (seen ++ [x])
      else intersection_from rest b seen
  end.

Definition intersection (a b : list string) : list string :=
  intersection_from a b [].

(** [String(v)], the string a value is coerced to when used as a property
    key: an array is the list of its elements separated by commas, in
    which [null] and [undefined] are written as nothing. *)
Fixpoint property_key {env : Env} (v : value) : string :=
  match v with
  | VUndefined => "undefined"
  | VNull => "null"
  | VNum n => string_of_Z n
  | VStr s => s
  | VBool b => string_of_bool b
  | VDate _ ms => Date_toString ms
  | VArr _ elts =>
      String.concat ","
        (map (fun x => match x with
                       | VUndefined | VNull => ""
                       | _ => property_key x
                       end) elts)
  | VObj _ _ => "[object Object]"
  end.

(** Array indices come first, in increasing order, when the own keys of an
    object are enumerated; the other keys follow in insertion order. *)
Definition is_digit (c : ascii) : bool :=
  (48 <=? nat_of_ascii c)%nat && (nat_of_ascii c <=? 57)%nat.

Fixpoint all_digits (s : string) : bool :=
  match s with
  | EmptyString => true
  | String c rest => is_digit c && all_digits rest
  end.

Fixpoint digits_value (s : string) (acc : Z) : Z :=
  match s with
  | EmptyString => acc
  | String c rest => digits_value rest (10 * acc + (Z.of_nat (nat_of_ascii c) - 48))
  end.

Definition array_index (s : string) : option Z :=
  match s with
  | EmptyString => None
  | String c rest =>
      if all_digits s && (negb (Ascii.eqb c "0") || String.eqb rest "")
      then let n := digits_value s 0 in
           if n <? 4294967295 then Some n else None
      else None
  end.

Fixpoint insert_index_key {A} (n : Z) (kv : string * A)
  (l : list (Z * (string * A))) : list (Z * (string * A)) :=
  match l with
  | [] => [(n, kv)]
  | (m, kv') :: rest =>
      if n <? m then (n, kv) :: l else (m, kv') :: insert_index_key n kv rest
  end.

Definition own_entries {A} (o : list (string * A)) : list (string * A) :=
  let indexed :=
    fold_left (fun acc kv =>
                 match array_index (fst kv) with
                 | Some n => insert_index_key n kv acc
                 | None => acc
                 end) o [] in
  map snd indexed
    ++ filter (fun kv => match array_index (fst kv) with
                         | Some _ => false | None => true end) o.

(** [Object.keys(o)] *)
Definition Object_keys {A} (o : list (string * A)) : list string :=
  map fst (own_entries o).

(** [o[k] = x] on an object holding values of any one type. *)
Fixpoint obj_set {A} (o : list (string * A)) (k : string) (x : A)
  : list (string * A) :=
  match o with
  | [] => [(k, x)]
  | (k', x') :: rest =>
      if String.eqb k' k then (k', x) :: rest else (k', x') :: obj_set rest k x
  end.

Fixpoint obj_get {A} (o : list (string * A)) (k : string) : option A :=
  match o with
  | [] => None
  | (k', x) :: rest => if String.eqb k' k then Some x else obj_get rest k
  end.

Fixpoint obj_delete {A} (o : list (string * A)) (k : string) : list (string * A) :=
  match o with
  | [] => []
  | (k', x) :: rest =>
      if String.eqb k' k then obj_delete rest k else (k', x) :: obj_delete rest k
  end.

(** [o[k] = x] on a plain object [o], for a value [x] that is an object:
    the key ["__proto__"] names the prototype of [o], which the assignment
    replaces by [x] without adding an own property. *)
Definition obj_set_object {A} (o : list (string * A)) (k : string) (x : A)
  : list (string * A) :=
  if String.eqb k "__proto__" then o else obj_set o k x.

(** The names every plain object inherits from [Object.prototype]; what is
    found under each of them is truthy. *)
Definition Object_prototype_names : list string :=
  ["constructor"; "__defineGetter__"; "__defineSetter__"; "hasOwnProperty";
   "__lookupGetter__"; "__lookupSetter__"; "isPrototypeOf";
   "propertyIsEnumerable"; "toString"; "valueOf"; "__proto__";
   "toLocaleString"].

Definition inherited (k : string) : bool :=
  existsb (String.eqb k) Object_prototype_names.

(* ================================================================== *)
(** ** [indexes.ts] *)

(** Two indexed pointers are equal iff they point to the same place. *)
Definition checkValueEquality (a b : doc) : bool :=
  Nat.eqb (doc_ref a) (doc_ref b).

(** Type-aware projection. The first test sends arrays to ["$null"], so the
    later array test is never reached. *)
Definition projectForUnique (elt : value) : value :=
  if strict_equal elt VNull || isArray elt then VStr "$null"
  else
    match elt with
    | VStr s => VStr ("$string" ++ s)
    | VBool b => VStr ("$boolean" ++ string_of_bool b)
    | VNum n => VStr ("$number" ++ string_of_Z n)
    | VArr _ _ => VStr "$date"
    | _ => elt
    end.

(** An [{ oldDoc, newDoc }] pair of a batch update. *)
Record pair : Type := Pair { oldDoc : doc; newDoc : doc }.

(** The overloaded arguments: one document or an array of them, one
    old/new couple or an array of pairs. *)
Inductive docs : Type :=
| One (d : doc)
| Many (ds : list doc).

Inductive updates : Type :=
| Replace (oldDoc newDoc : doc)
| Batch (pairs : list pair).

Record Index : Type := mkIndex {
  fieldName : string;
  unique : bool;
  sparse : bool;
  tree : BinarySearchTree.tree;
}.

Module IndexOps.
Section WithModel.
Context {model : Model} {env : Env}.

(** [treeOptions.compareKeys]: [model.compareThings] called with two
arguments. *)
Definition compareKeys (a b : value) : Z := compareThings a b None.

Definition set_tree (self : Index) (t : BinarySearchTree.tree) : Index :=
mkIndex (fieldName self) (unique self) (sparse self) t.

(** [new Index(options)] *)
Definition new (fieldName : string) (unique sparse : bool) : Index :=
mkIndex fieldName unique sparse [].

(** [this.tree.insert(key, doc)] *)
Definition tree_insert (key : value) (d : doc) : M Index unit :=
fun self =>
match BinarySearchTree.insert compareKeys (unique self) key d (tree self) with
| Ok t => (set_tree self t, Ok tt)
| Throw e => (self, Throw e)
end.

(** [this.tree.delete(key, doc)] *)
Definition tree_delete (key : value) (d : doc) : M Index unit :=
fun self =>
(set_tree self
   (BinarySearchTree.delete compareKeys checkValueEquality key d (tree self)),
 Ok tt).

(** [insert(doc)] for a single document. *)
Definition insertDoc (d : doc) : M Index unit :=
self <- get ;;
let key := getDotValue d (fieldName self) in
if strict_equal key VUndefined && sparse self then ret tt
else
match key with
| VArr _ elts =>
    let keys := uniq elts projectForUnique in
    failure <- for_try (fun k => tree_insert k d) keys 0 ;;
    match failure with
    | Some (error, failingI) =>
        for_each (fun k => tree_delete k d) (firstn failingI keys) ;;
        throw error
    | None => ret tt
    end
| _ => tree_insert key d
end.

(** [remove(doc)] for a single document. *)
Definition removeDoc (d : doc) : M Index unit :=
self <- get ;;
let key := getDotValue d (fieldName self) in
if strict_equal key VUndefined && sparse self then ret tt
else
match key with
| VArr _ elts =>
    for_each (fun _key => tree_delete _key d) (uniq elts projectForUnique)
| _ => tree_delete key d
end.

Definition insertMultipleDocs (ds : list doc) : M Index unit :=
failure <- for_try insertDoc ds 0 ;;
match failure with
| Some (error, failingI) =>
  for_each removeDoc (firstn failingI ds) ;;
  throw error
| None => ret tt
end.

Definition insert (arg : docs) : M Index unit :=
match arg with
| Many ds => insertMultipleDocs ds
| One d => insertDoc d
end.

Definition remove (arg : docs) : M Index unit :=
match arg with
| Many ds => for_each removeDoc ds
| One d => removeDoc d
end.

(** [reset(newData)] *)
Definition reset (newData : option docs) : M Index unit :=
self <- get ;;
put (set_tree self []) ;;
match newData with
| Some data => insert data
| None => ret tt
end.

Definition updateMultipleDocs (pairs : list pair) : M Index unit :=
for_each (fun p => removeDoc (oldDoc p)) pairs ;;
failure <- for_try (fun p => insertDoc (newDoc p)) pairs 0 ;;
match failure with
| Some (error, failingI) =>
  for_each (fun p => removeDoc (newDoc p)) (firstn failingI pairs) ;;
  for_each (fun p => insertDoc (oldDoc p)) pairs ;;
  throw error
| None => ret tt
end.

Definition update (arg : updates) : M Index unit :=
match arg with
| Batch pairs => updateMultipleDocs pairs
| Replace oldDoc newDoc =>
  removeDoc oldDoc ;;
  try_catch (insertDoc newDoc)
            (fun e => insertDoc oldDoc ;; throw e)
end.

Definition revertUpdate (arg : updates) : M Index unit :=
match arg with
| Replace oldDoc newDoc => update (Replace newDoc oldDoc)
| Batch pairs =>
  let revert := map (fun p => Pair (newDoc p) (oldDoc p)) pairs in
  update (Batch revert)
end.

(** [getMatching(value)]: for an array, the matches of its elements
collected in an object keyed by [_id]. *)
Fixpoint getMatching_in (t : BinarySearchTree.tree) (v : value) : list doc :=
match v with
| VArr _ elts =>
  let _res :=
    fold_left
      (fun acc v' =>
         fold_left (fun acc' d =>
                      obj_set_object acc' (property_key (get_field d "_id")) d)
                   (getMatching_in t v') acc)
      elts [] in
  map snd (own_entries _res)
| _ => BinarySearchTree.search compareKeys v t
end.

Definition getMatching (v : value) (self : Index) : list doc :=
getMatching_in (tree self) v.

Definition getBetweenBounds (query : value) (self : Index) : list doc :=
BinarySearchTree.betweenBounds compareKeys query (tree self).

Definition getAll (self : Index) : list doc :=
flat_map (fun n : BinarySearchTree.node => snd n)
       (BinarySearchTree.nodes_in_order (tree self)).

End WithModel.
End IndexOps.

(* ================================================================== *)
(** ** Copies *)

(** Modelled from the spec: [model.deepCopy(obj, strictKeys)], absent from
    the sources. The copy is structurally equal to its argument and lives
    at fresh addresses, taken from [heap] upwards; with [strictKeys] the
    keys that start with a dollar or contain a dot are left out. *)
Definition strict_key (k : string) : bool :=
  match k with
  | String "$" _ => false
  | _ => negb (existsb (Ascii.eqb ".") (list_ascii_of_string k))
  end.

Fixpoint deepCopy (strictKeys : bool) (v : value) (heap : nat) : value * nat :=
  match v with
  | VDate _ ms => (VDate heap ms, S heap)
  | VArr _ elts =>
      let fix copy_all (l : list value) (h : nat) : list value * nat :=
        match l with
        | [] => ([], h)
        | x :: rest =>
            let (x', h1) := deepCopy strictKeys x h in
            let (rest', h2) := copy_all rest h1 in
            (x' :: rest', h2)
        end in
      let (elts', h') := copy_all elts (S heap) in
      (VArr heap elts', h')
  | VObj _ fs =>
      let fix copy_fields (l : list (string * value)) (h : nat)
        : list (string * value) * nat :=
        match l with
        | [] => ([], h)
        | (k, x) :: rest =>
            if negb strictKeys || strict_key k then
              let (x', h1) := deepCopy strictKeys x h in
              let (rest', h2) := copy_fields rest h1 in
              ((k, x') :: rest', h2)
            else copy_fields rest h
        end in
      let (fs', h') := copy_fields fs (S heap) in
      (VObj heap fs', h')
  | _ => (v, heap)
  end.

Definition value_doc (v : value) : doc :=
  match v with
  | VObj r fs => Doc r fs
  | _ => Doc 0 []
  end.

Definition deepCopyDoc (d : doc) (heap : nat) : doc * nat :=
  let (v, h) := deepCopy false (doc_value d) heap in (value_doc v, h).

Fixpoint deepCopyDocs (ds : list doc) (heap : nat) : list doc * nat :=
  match ds with
  | [] => ([], heap)
  | d :: rest =>
      let (d', h1) := deepCopyDoc d heap in
      let (rest', h2) := deepCopyDocs rest h1 in
      (d' :: rest', h2)
  end.

(* ================================================================== *)
(** ** [datastore.ts], first part: indexes, candidates, insert, remove *)

Record IndexOptions : Type := mkIndexOptions {
  opt_fieldName : option string;
  opt_unique : option bool;
  opt_sparse : option bool;
  opt_expireAfterSeconds : option Z;
}.

Record MemoryDB : Type := mkMemoryDB {
  indexes : list (string * Index);
  ttlIndexes : list (string * Z);
  timestampData : bool;
  compareStrings : option (string -> string -> Z);
  (** the next free address of the heap the store lives in *)
  heap : nat;
  (** the number of identifiers drawn from the generator so far *)
  drawn : nat;
}.

Module MemoryDBOps.
Section WithModel.
Context {model : Model} {env : Env}.

Definition set_indexes (self : MemoryDB) (ix : list (string * Index)) : MemoryDB :=
mkMemoryDB ix (ttlIndexes self) (timestampData self) (compareStrings self)
         (heap self) (drawn self).

Definition set_ttlIndexes (self : MemoryDB) (ttl : list (string * Z)) : MemoryDB :=
mkMemoryDB (indexes self) ttl (timestampData self) (compareStrings self)
         (heap self) (drawn self).

Definition set_heap (self : MemoryDB) (h : nat) : MemoryDB :=
mkMemoryDB (indexes self) (ttlIndexes self) (timestampData self)
         (compareStrings self) h (drawn self).

Definition set_drawn (self : MemoryDB) (n : nat) : MemoryDB :=
mkMemoryDB (indexes self) (ttlIndexes self) (timestampData self)
         (compareStrings self) (heap self) n.

(** [new MemoryDB(options)]: the [_id] index is created with the store. *)
Definition new (timestampData : bool)
(compareStrings : option (string -> string -> Z)) : MemoryDB :=
mkMemoryDB [("_id", IndexOps.new "_id" true false)] [] timestampData
         compareStrings 1 0.

(** [this.indexes[name].op(...)]: the index is updated in place; an absent
index makes the call a [TypeError]. *)
Definition on_index {A} (name : string) (op : M Index A) : M MemoryDB A :=
fun self =>
match obj_get (indexes self) name with
| Some idx =>
    let (idx', r) := op idx in
    (set_indexes self (obj_set (indexes self) name idx'), r)
| None => (self, Throw (TypeError "index is undefined"))
end.

(** A read-only method of [this.indexes[name]]. *)
Definition read_index {A} (name : string) (f : Index -> A) : M MemoryDB A :=
on_index name (idx <- get ;; ret (f idx)).

(** Allocation of [n] fresh addresses. *)
Definition alloc {A} (f : nat -> A * nat) : M MemoryDB A :=
fun self => let (a, h) := f (heap self) in (set_heap self h, Ok a).

Definition persist (records : list value) : M MemoryDB unit :=
match persistNewState records with
| Some err => throw err
| None => ret tt
end.

Definition getAllData : M MemoryDB (list doc) :=
read_index "_id" IndexOps.getAll.

Definition resetIndexes (newData : option docs) : M MemoryDB unit :=
self <- get ;;
for_each (fun i => on_index i (IndexOps.reset newData))
       (Object_keys (indexes self)).

Definition options_value (options : IndexOptions) : value :=
VObj 0
((match opt_fieldName options with
  | Some f => [("fieldName", VStr f)] | None => [] end)
 ++ (match opt_unique options with
     | Some b => [("unique", VBool b)] | None => [] end)
 ++ (match opt_sparse options with
     | Some b => [("sparse", VBool b)] | None => [] end)
 ++ (match opt_expireAfterSeconds options with
     | Some n => [("expireAfterSeconds", VNum n)] | None => [] end)).

Definition or_false (b : option bool) : bool :=
match b with Some x => x | None => false end.

(** [ensureIndex(options, cb)]; [Throw e] stands for [cb(e)].  The test
[this.indexes[options.fieldName]] finds an index of the store or, under
a name that [Object.prototype] defines, what every object inherits. *)
Definition ensureIndex (options : IndexOptions) : M MemoryDB unit :=
match opt_fieldName options with
| None | Some "" => throw MissingFieldName
| Some fieldName =>
  self <- get ;;
  match obj_get (indexes self) fieldName with
  | Some _ => ret tt
  | None =>
    if inherited fieldName then ret tt
    else
      put (set_indexes self
             (obj_set (indexes self) fieldName
                (IndexOps.new fieldName (or_false (opt_unique options))
                              (or_false (opt_sparse options))))) ;;
      match opt_expireAfterSeconds options with
      | Some seconds =>
          self <- get ;;
          put (set_ttlIndexes self (obj_set (ttlIndexes self) fieldName seconds))
      | None => ret tt
      end ;;
      try_catch
        (data <- getAllData ;;
         on_index fieldName (IndexOps.insert (Many data)))
        (fun e =>
           self <- get ;;
           put (set_indexes self (obj_delete (indexes self) fieldName)) ;;
           throw e) ;;
      persist [VObj 0 [("$$indexCreated", options_value options)]]
  end
end.

Definition removeIndex (fieldName : string) : M MemoryDB unit :=
self <- get ;;
put (set_indexes self (obj_delete (indexes self) fieldName)) ;;
persist [VObj 0 [("$$indexRemoved", VStr fieldName)]].

Definition addToIndexes (d : doc) : M MemoryDB unit :=
self <- get ;;
let keys := Object_keys (indexes self) in
failure <- for_try (fun k => on_index k (IndexOps.insert (One d))) keys 0 ;;
match failure with
| Some (error, failingIndex) =>
  for_each (fun k => on_index k (IndexOps.remove (One d)))
           (firstn failingIndex keys) ;;
  throw error
| None => ret tt
end.

Definition removeFromIndexes (d : doc) : M MemoryDB unit :=
self <- get ;;
for_each (fun i => on_index i (IndexOps.remove (One d)))
       (Object_keys (indexes self)).

Definition updateIndexes (arg : updates) : M MemoryDB unit :=
self <- get ;;
let keys := Object_keys (indexes self) in
failure <- for_try (fun k => on_index k (IndexOps.update arg)) keys 0 ;;
match failure with
| Some (error, failingIndex) =>
  for_each (fun k => on_index k (IndexOps.revertUpdate arg))
           (firstn failingIndex keys) ;;
  throw error
| None => ret tt
end.

(** The own keys of a query object. *)
Definition query_keys (query : value) : list string :=
match query with
| VObj _ fs => Object_keys fs
| _ => []
end.

Definition is_basic (v : value) : bool :=
match v with
| VStr _ | VNum _ | VBool _ | VDate _ _ | VNull => true
| _ => false
end.

Definition has_in (v : value) : bool := truthy v && hasOwnProperty v "$in".

Definition has_bound (v : value) : bool :=
truthy v && (hasOwnProperty v "$lt" || hasOwnProperty v "$lte"
           || hasOwnProperty v "$gt" || hasOwnProperty v "$gte").

(** First step of [getCandidates]: the index probe. *)
Definition candidates_from_indexes (query : value) : M MemoryDB (list doc) :=
self <- get ;;
let indexNames := Object_keys (indexes self) in
let usable (p : value -> bool) :=
intersection (filter (fun k => p (value_prop query k)) (query_keys query))
             indexNames in
match usable is_basic with
| k :: _ => read_index k (IndexOps.getMatching (value_prop query k))
| [] =>
  match usable has_in with
  | k :: _ =>
      read_index k (IndexOps.getMatching (value_prop (value_prop query k) "$in"))
  | [] =>
      match usable has_bound with
      | k :: _ => read_index k (IndexOps.getBetweenBounds (value_prop query k))
      | [] => getAllData
      end
  end
end.

(** [_remove(query, options, cb)]; candidates are taken with stale
documents allowed. *)
Definition _remove (query : value) (multi : bool) : M MemoryDB nat :=
candidates <- candidates_from_indexes query ;;
let fix each (ds : list doc) (numRemoved : nat) (removedDocs : list value)
: M MemoryDB (nat * list value) :=
match ds with
| [] => ret (numRemoved, removedDocs)
| d :: rest =>
    match match_doc d query with
    | Throw e => throw e
    | Ok matched =>
        if matched && (multi || Nat.eqb numRemoved 0) then
          removeFromIndexes d ;;
          each rest (S numRemoved)
               (removedDocs
                  ++ [VObj 0 [("$$deleted", VBool true); ("_id", get_field d "_id")]])
        else each rest numRemoved removedDocs
    end
end in
r <- each candidates 0%nat [] ;;
persist (snd r) ;;
ret (fst r).

(** The expiry test of one document against the registry of TTL fields. *)
Definition expired_for (ttl : list (string * Z)) (d : doc) (i : string) : bool :=
match get_field d i, obj_get ttl i with
| VDate _ ms, Some seconds => ms + seconds * 1000 <? Date_now
| _, _ => false
end.

Definition valid_doc (ttl : list (string * Z)) (d : doc) : bool :=
negb (existsb (expired_for ttl d) (Object_keys ttl)).

(** [getCandidates(query, dontExpireStaleDocs, callback)] *)
Definition getCandidates (query : value) (dontExpireStaleDocs : bool)
: M MemoryDB (list doc) :=
docs <- candidates_from_indexes query ;;
if dontExpireStaleDocs then ret docs
else
self <- get ;;
let validDocs := filter (valid_doc (ttlIndexes self)) docs in
let expiredDocsIds :=
  map (fun d => get_field d "_id")
      (filter (fun d => negb (valid_doc (ttlIndexes self) d)) docs) in
for_each (fun _id => _remove (VObj 0 [("_id", _id)]) false ;; ret tt)
         expiredDocsIds ;;
ret validDocs.

(** [createNewId()]: an identifier is drawn; when the [_id] index holds a
document under it, the function calls itself.  The calls are nested, and
the engine allows only so many of them. *)
Fixpoint createNewId_within (depth : nat) : M MemoryDB string :=
match depth with
| O => throw (RangeError "Maximum call stack size exceeded")
| S depth =>
  self <- get ;;
  let tentativeId := uid (drawn self) in
  put (set_drawn self (S (drawn self))) ;;
  found <- read_index "_id" (IndexOps.getMatching (VStr tentativeId)) ;;
  if (0 <? List.length found)%nat then createNewId_within depth
  else ret tentativeId
end.

Definition createNewId : M MemoryDB string :=
createNewId_within call_stack_size.

(** [prepareDocumentForInsertion(newDoc)] for one document. *)
Definition prepareDoc (newDoc : doc) : M MemoryDB doc :=
preparedDoc <- alloc (deepCopyDoc newDoc) ;;
preparedDoc <-
(if strict_equal (get_field preparedDoc "_id") VUndefined
 then id <- createNewId ;; ret (set_field preparedDoc "_id" (VStr id))
 else ret preparedDoc) ;;
now <- alloc (fun h => (VDate h Date_now, S h)) ;;
self <- get ;;
let preparedDoc :=
if timestampData self
   && strict_equal (get_field preparedDoc "createdAt") VUndefined
then set_field preparedDoc "createdAt" now else preparedDoc in
let preparedDoc :=
if timestampData self
   && strict_equal (get_field preparedDoc "updatedAt") VUndefined
then set_field preparedDoc "updatedAt" now else preparedDoc in
match checkObject (doc_value preparedDoc) with
| Throw e => throw e
| Ok _ => ret preparedDoc
end.

Fixpoint prepareDocs (newDocs : list doc) : M MemoryDB (list doc) :=
match newDocs with
| [] => ret []
| d :: rest =>
  d' <- prepareDoc d ;;
  rest' <- prepareDocs rest ;;
  ret (d' :: rest')
end.

Definition prepareDocumentForInsertion (newDoc : docs) : M MemoryDB docs :=
match newDoc with
| Many ds => ds' <- prepareDocs ds ;; ret (Many ds')
| One d => d' <- prepareDoc d ;; ret (One d')
end.

Definition _insertMultipleDocsInCache (preparedDocs : list doc) : M MemoryDB unit :=
failure <- for_try addToIndexes preparedDocs 0 ;;
match failure with
| Some (error, failingI) =>
  for_each removeFromIndexes (firstn failingI preparedDocs) ;;
  throw error
| None => ret tt
end.

Definition _insertInCache (preparedDoc : docs) : M MemoryDB unit :=
match preparedDoc with
| Many ds => _insertMultipleDocsInCache ds
| One d => addToIndexes d
end.

Definition _insert (newDoc : docs) : M MemoryDB docs :=
preparedDoc <- (prepared <- prepareDocumentForInsertion newDoc ;;
              _insertInCache prepared ;;
              ret prepared) ;;
persist (match preparedDoc with
       | Many ds => map doc_value ds
       | One d => [doc_value d]
       end) ;;
match preparedDoc with
| Many ds => copies <- alloc (deepCopyDocs ds) ;; ret (Many copies)
| One d => copy <- alloc (deepCopyDoc d) ;; ret (One copy)
end.

End WithModel.
End MemoryDBOps.

(* ================================================================== *)
(** ** [cursor.ts] *)

(** The handler a cursor runs on its results before the caller sees them:
    the one of [count], of [find] or of [findOne]. *)
Inductive handler : Type :=
| CountHandler
| FindHandler
| FindOneHandler.

(** What a cursor hands to its callback. *)
Inductive outcome : Type :=
| Docs (ds : list doc)
| Count (n : nat)
| OneDoc (d : doc)
| Null.

Record Cursor : Type := mkCursor {
  query : value;
  execFn : option handler;
  _limit : option nat;
  _skip : option nat;
  _sort : option (list (string * Z));
  _projection : option (list (string * value));
}.

(** [Array.prototype.sort(compare)] is stable: an element moves behind
    exactly those it compares greater than. *)
Fixpoint sort_insert {A} (compare : A -> A -> Z) (x : A) (l : list A) : list A :=
  match l with
  | [] => [x]
  | y :: rest => if 0 <? compare x y then y :: sort_insert compare x rest else x :: l
  end.

Definition Array_sort {A} (compare : A -> A -> Z) (l : list A) : list A :=
  fold_right (sort_insert compare) [] l.

(** [res.slice(from, to)] for non-negative bounds. *)
Definition slice {A} (l : list A) (from to : nat) : list A :=
  firstn (to - from) (skipn from l).

Module CursorOps.
Section WithModel.
Context {model : Model} {env : Env}.

(** [new Cursor(db, query, execFn)] *)
Definition new (query : value) (execFn : option handler) : Cursor :=
mkCursor (if truthy query then query else VObj 0 []) execFn None None None None.

Definition limit (n : nat) (self : Cursor) : Cursor :=
mkCursor (query self) (execFn self) (Some n) (_skip self) (_sort self)
       (_projection self).

Definition skip (n : nat) (self : Cursor) : Cursor :=
mkCursor (query self) (execFn self) (_limit self) (Some n) (_sort self)
       (_projection self).


Definition projection (p : list (string * value)) (self : Cursor) : Cursor :=
mkCursor (query self) (execFn self) (_limit self) (_skip self) (_sort self)
       (Some p).

(** The consistency check of [project]: the action every key agrees on. *)
Fixpoint check_actions (p : list (string * value)) (keys : list string)
(action : value) : result value :=
match keys with
| [] => Ok action
| k :: rest =>
  if negb (strict_equal action VUndefined)
     && negb (strict_equal (get_prop p k) action)
  then Throw InconsistentProjection
  else check_actions p rest (get_prop p k)
end.

(** The pick-type update query [{ $set: { k: getDotValue(candidate, k) } }],
without the keys that read as undefined. *)
Definition pick_query (keys : list string) (candidate : doc) : value :=
VObj 0 [("$set",
       VObj 0 (fold_left
                 (fun set k =>
                    let set := set_prop set k (getDotValue candidate k) in
                    if strict_equal (get_prop set k) VUndefined
                    then delete_prop set k else set)
                 keys []))].

(** The omit-type update query [{ $unset: { k: true } }]. *)
Definition omit_query (keys : list string) : value :=
VObj 0 [("$unset",
       VObj 0 (fold_left (fun unset k => set_prop unset k (VBool true)) keys []))].

Definition project_one (keepId : bool) (keys : list string) (action : value)
(candidate : doc) (h : nat) : result (doc * nat) :=
match (if strict_equal action (VNum 1)
     then modify (Doc 0 []) (pick_query keys candidate) h
     else modify candidate (omit_query keys) h) with
| Throw e => Throw e
| Ok (toPush, h') =>
  Ok (if keepId then set_field toPush "_id" (get_field candidate "_id")
      else delete_field toPush "_id", h')
end.

Fixpoint project_all (keepId : bool) (keys : list string) (action : value)
(candidates : list doc) (h : nat) : result (list doc * nat) :=
match candidates with
| [] => Ok ([], h)
| candidate :: rest =>
  match project_one keepId keys action candidate h with
  | Throw e => Throw e
  | Ok (toPush, h1) =>
      match project_all keepId keys action rest h1 with
      | Throw e => Throw e
      | Ok (res, h2) => Ok (toPush :: res, h2)
      end
  end
end.

Definition set_projection (self : Cursor) (p : list (string * value)) : Cursor :=
mkCursor (query self) (execFn self) (_limit self) (_skip self) (_sort self)
       (Some p).

(** [project(candidates)], allocating from address [h] on; the cursor
keeps the projection without its [_id] entry. *)
Definition project (candidates : list doc) (h : nat) : M Cursor (list doc * nat) :=
self <- get ;;
match _projection self with
| None => ret (candidates, h)
| Some p =>
  if Nat.eqb (List.length (Object_keys p)) 0 then ret (candidates, h)
  else
    let keepId := negb (strict_equal (get_prop p "_id") (VNum 0)) in
    let p := delete_prop p "_id" in
    put (set_projection self p) ;;
    let keys := Object_keys p in
    match check_actions p keys VUndefined with
    | Throw e => throw e
    | Ok action =>
        match project_all keepId keys action candidates h with
        | Throw e => throw e
        | Ok res => ret res
        end
    end
end.

(** [self._skip && self._skip > skipped] *)
Definition still_skipping (self : Cursor) (skipped : nat) : bool :=
match _skip self with
| Some n => (0 <? n)%nat && (skipped <? n)%nat
| None => false
end.

(** [self._limit && self._limit <= added] *)
Definition limit_reached (self : Cursor) (added : nat) : bool :=
match _limit self with
| Some n => (0 <? n)%nat && (n <=? added)%nat
| None => false
end.

(** The filtering loop of [_exec]: without a sort, skip and limit are
applied on the way. *)
Fixpoint collect (self : Cursor) (candidates : list doc) (skipped added : nat)
: result (list doc) :=
match candidates with
| [] => Ok []
| c :: rest =>
  match match_doc c (query self) with
  | Throw e => Throw e
  | Ok false => collect self rest skipped added
  | Ok true =>
      let push (tail : result (list doc)) :=
        match tail with
        | Throw e => Throw e
        | Ok res => Ok (c :: res)
        end in
      match _sort self with
      | None =>
          if still_skipping self skipped
          then collect self rest (S skipped) added
          else if limit_reached self (S added) then Ok [c]
          else push (collect self rest skipped (S added))
      | Some _ => push (collect self rest skipped added)
      end
  end
end.

(** The comparison function handed to [res.sort]. *)
Fixpoint compare_by (compareStrings : option (string -> string -> Z))
(criteria : list (string * Z)) (a b : doc) : Z :=
match criteria with
| [] => 0
| (key, direction) :: rest =>
  let compare :=
    direction * compareThings (getDotValue a key) (getDotValue b key)
                              compareStrings in
  if negb (compare =? 0) then compare
  else compare_by compareStrings rest a b
end.

(** [self._limit || res.length] and [self._skip || 0] *)
Definition limit_or (self : Cursor) (n : nat) : nat :=
match _limit self with
| Some l => if (0 <? l)%nat then l else n
| None => n
end.

Definition skip_or_zero (self : Cursor) : nat :=
match _skip self with Some n => n | None => 0%nat end.

Definition sorted_and_sliced (self : Cursor)
(compareStrings : option (string -> string -> Z)) (res : list doc)
: list doc :=
match _sort self with
| Some sortQuery =>
  let criteria := own_entries sortQuery in
  let res := Array_sort (compare_by compareStrings criteria) res in
  let limit := limit_or self (List.length res) in
  let skip := skip_or_zero self in
  slice res skip (skip + limit)
| None => res
end.

Definition on_db {A} (c : M MemoryDB A) : M (Cursor * MemoryDB) A :=
fun s => let (db', r) := c (snd s) in ((fst s, db'), r).

Definition on_cursor {A} (c : M Cursor A) : M (Cursor * MemoryDB) A :=
fun s => let (self', r) := c (fst s) in ((self', snd s), r).

(** The handler of the cursor applied to [(null, res)]. *)
Definition run_handler (h : option handler) (docs : list doc)
: M (Cursor * MemoryDB) outcome :=
match h with
| None => ret (Docs docs)
| Some CountHandler => ret (Count (List.length docs))
| Some FindHandler =>
  res <- on_db (MemoryDBOps.alloc (deepCopyDocs docs)) ;;
  ret (Docs res)
| Some FindOneHandler =>
  match docs with
  | [d] => copy <- on_db (MemoryDBOps.alloc (deepCopyDoc d)) ;; ret (OneDoc copy)
  | _ => ret Null
  end
end.

(** [_exec(callback)]; every handler passes an error on unchanged, so
[Throw e] stands for [callback(e)]. *)
Definition _exec : M (Cursor * MemoryDB) outcome :=
s <- get ;;
let self := fst s in
candidates <- on_db (MemoryDBOps.getCandidates (query self) false) ;;
match collect self candidates 0 0 with
| Throw err => throw err
| Ok res =>
  s <- get ;;
  let res := sorted_and_sliced self (compareStrings (snd s)) res in
  projected <- on_cursor (project res (heap (snd s))) ;;
  on_db (s <- get ;; put (MemoryDBOps.set_heap s (snd projected))) ;;
  run_handler (execFn self) (fst projected)
end.

End WithModel.
End CursorOps.

(* ================================================================== *)
(** ** [datastore.ts], second part: queries and update *)

Record UpdateOptions : Type := mkUpdateOptions {
  multi : value;
  upsert : value;
  returnUpdatedDocs : value;
}.

(** The [updated] field of a report: a document, an array of documents, or
    undefined. *)
Inductive updated : Type :=
| UpdatedUndefined
| UpdatedDoc (d : doc)
| UpdatedDocs (ds : list doc).

(** The report [{ numAffected, upsert, updated }] of an update. *)
Record UpdateResult : Type := mkUpdateResult {
  numAffected : nat;
  report_upsert : value;
  report_updated : updated;
}.

Module StoreOps.
Section WithModel.
Context {model : Model} {env : Env}.

(** The cursors built by [count], [find] and [findOne]; a missing
projection argument is the empty projection. *)
Definition count (query : value) : Cursor :=
CursorOps.new query (Some CountHandler).

Definition find (query : value) (projection : list (string * value)) : Cursor :=
CursorOps.projection projection (CursorOps.new query (Some FindHandler)).

Definition findOne (query : value) (projection : list (string * value)) : Cursor :=
CursorOps.limit 1
(CursorOps.projection projection (CursorOps.new query (Some FindOneHandler))).

(** [cursor.exec(callback)], once the executor runs the task. *)
Definition exec (c : Cursor) : M MemoryDB outcome :=
fun db => let (s, r) := CursorOps._exec (c, db) in (snd s, r).

(** The loop of [_update] that prepares the modifications. *)
Fixpoint prepare_modifications (timestampData : bool) (multi : bool)
(query updateQuery : value) (candidates : list doc) (numReplaced : nat)
(h : nat) : result (list pair * nat * nat) :=
match candidates with
| [] => Ok ([], numReplaced, h)
| c :: rest =>
  match match_doc c query with
  | Throw e => Throw e
  | Ok matched =>
      if matched && (multi || Nat.eqb numReplaced 0) then
        match modify c updateQuery h with
        | Throw e => Throw e
        | Ok (modifiedDoc, h) =>
            let stamped :=
              if timestampData then
                (set_field (set_field modifiedDoc "createdAt"
                                      (get_field c "createdAt"))
                           "updatedAt" (VDate h Date_now), S h)
              else (modifiedDoc, h) in
            match prepare_modifications timestampData multi query updateQuery
                    rest (S numReplaced) (snd stamped) with
            | Throw e => Throw e
            | Ok (modifications, n, h') =>
                Ok (Pair c (fst stamped) :: modifications, n, h')
            end
        end
      else prepare_modifications timestampData multi query updateQuery
             rest numReplaced h
  end
end.

(** The second task of [_update]: the update proper. *)
Definition perform_update (query updateQuery : value) (options : UpdateOptions)
: M MemoryDB UpdateResult :=
candidates <- MemoryDBOps.getCandidates query false ;;
self <- get ;;
match prepare_modifications (timestampData self) (truthy (multi options))
      query updateQuery candidates 0 (heap self) with
| Throw err => throw err
| Ok (modifications, numReplaced, h) =>
  put (MemoryDBOps.set_heap self h) ;;
  MemoryDBOps.updateIndexes (Batch modifications) ;;
  let updatedDocs := map newDoc modifications in
  MemoryDBOps.persist (map doc_value updatedDocs) ;;
  if negb (truthy (returnUpdatedDocs options)) then
    ret (mkUpdateResult numReplaced (upsert options) UpdatedUndefined)
  else
    updatedDocsDC <- MemoryDBOps.alloc (deepCopyDocs updatedDocs) ;;
    ret (mkUpdateResult numReplaced (upsert options)
           (if negb (truthy (multi options)) then
              match updatedDocsDC with
              | d :: _ => UpdatedDoc d
              | [] => UpdatedUndefined
              end
            else UpdatedDocs updatedDocsDC))
end.

(** [_update(query, updateQuery, options, cb)] *)
Definition _update (query updateQuery : value) (options : UpdateOptions)
: M MemoryDB UpdateResult :=
if negb (truthy (upsert options)) then perform_update query updateQuery options
else
docs <- exec (CursorOps.limit 1 (CursorOps.new query None)) ;;
match docs with
| Docs [_] => perform_update query updateQuery options
| _ =>
    toBeInserted <-
      match checkObject updateQuery with
      | Ok _ => ret (value_doc updateQuery)
      | Throw _ =>
          base <- MemoryDBOps.alloc (deepCopy true query) ;;
          self <- get ;;
          match modify (value_doc base) updateQuery (heap self) with
          | Throw err => throw err
          | Ok (d, h) => put (MemoryDBOps.set_heap self h) ;; ret d
          end
      end ;;
    newDoc <- MemoryDBOps._insert (One toBeInserted) ;;
    ret (mkUpdateResult 1 (VBool true)
           (match newDoc with
            | One d => UpdatedDoc d
            | Many ds => UpdatedDocs ds
            end))
end.

End WithModel.
End StoreOps.

(* ================================================================== *)
(** ** [executor.ts] *)

(** An element of [task.arguments]: a function, known by its name, or
    any other value. *)
Inductive argument : Type :=
| Function (f : string)
| Value (v : value).

(** An element of the array [newArguments] that the worker of the queue
    hands to [task.fn]: an argument of the task, or one of the two
    callbacks the worker builds. *)
Inductive new_argument : Type :=
| Given (a : argument)
  (** [function () { setImmediate(cb); lastArg.apply(null, arguments); }] *)
| CallbackThen (lastArg : string)
  (** [function () { cb(); }] *)
| Done.

Module ExecutorOps.
Section WithTask.
Context {task : Type}.

(** [queue] is the list of the tasks handed to [this.queue.push], in
    this order: the queue runs them one by one in the order of their
    arrival. *)
Record Executor : Type := mkExecutor {
  buffer : list task;
  ready : bool;
  queue : list task;
}.

Definition new : Executor := mkExecutor [] false [].

Definition queue_push (t : task) (self : Executor) : Executor :=
mkExecutor (buffer self) (ready self) (queue self ++ [t]).

Definition push (t : task) (forceQueuing : bool) (self : Executor) : Executor :=
if ready self || forceQueuing then queue_push t self
else mkExecutor (buffer self ++ [t]) (ready self) (queue self).

Definition processBuffer (self : Executor) : Executor :=
let self := mkExecutor (buffer self) true (queue self) in
let self := fold_left (fun s t => queue_push t s) (buffer self) self in
mkExecutor [] (ready self) (queue self).

End WithTask.

(** [typeof lastArg === 'function'] and [!lastArg] *)
Definition is_function (a : argument) : bool :=
match a with Function _ => true | Value _ => false end.

Definition falsy (a : argument) : bool :=
match a with Function _ => false | Value v => negb (truthy v) end.

(** [a[i] = x] for an index within the array. *)
Fixpoint assign {A} (a : list A) (i : nat) (x : A) : list A :=
match a, i with
| [], _ => []
| _ :: rest, O => x :: rest
| y :: rest, S i => y :: assign rest i x
end.

(** The array [newArguments] that the worker of the queue builds from
    [task.arguments]; [task.fn.apply(task.this, newArguments)] follows.
    The last argument of an empty array is [undefined]. *)
Definition worker_arguments (arguments : list argument) : list new_argument :=
let newArguments := map Given arguments in
let lastArg := nth (List.length arguments - 1) arguments (Value VUndefined) in
match lastArg with
| Function f =>
  assign newArguments (List.length newArguments - 1) (CallbackThen f)
| Value _ =>
  if falsy lastArg && negb (Nat.eqb (List.length arguments) 0)
  then assign newArguments (List.length newArguments - 1) Done
  else newArguments ++ [Done]
end.

End ExecutorOps.

(* ================================================================== *)
(** ** A model of [model.ts] after the written specification *)

Module SpecModel.

Section Lexicographic.
Context {A : Type}.
Variable cmp : A -> A -> Z.

(** Element-wise comparison; a proper prefix is smaller. *)
Fixpoint lex_compare (xs ys : list A) : Z :=
match xs, ys with
| [], [] => 0
| [], _ :: _ => -1
| _ :: _, [] => 1
| x :: xs', y :: ys' =>
    if cmp x y =? 0 then lex_compare xs' ys' else cmp x y
end.
End Lexicographic.

Definition compareNSB (a b : Z) : Z :=
if a <? b then -1 else if b <? a then 1 else 0.

Definition compare_chars (a b : ascii) : Z :=
compareNSB (Z.of_nat (nat_of_ascii a)) (Z.of_nat (nat_of_ascii b)).

(** Lexicographic code-point order. *)
Definition compare_strings (a b : string) : Z :=
lex_compare compare_chars (list_ascii_of_string a) (list_ascii_of_string b).

(** undefined < null < number < string < boolean < timestamp < array <
  object *)
Definition type_rank (v : value) : Z :=
match v with
| VUndefined => 0
| VNull => 1
| VNum _ => 2
| VStr _ => 3
| VBool _ => 4
| VDate _ _ => 5
| VArr _ _ => 6
| VObj _ _ => 7
end.

(** Modelled from the spec: [model.compareThings], absent from the
  sources. Values of different kinds compare by kind; numbers, strings
  and timestamps by their natural order (strings through the supplied
  comparator when there is one); false is below true; arrays
  element-wise, a proper prefix first; objects by their (key, value)
  pairs in sequence, then by length. *)
Fixpoint compareThings (a b : value) (compareStrings : option (string -> string -> Z))
: Z :=
match a, b with
| VNum x, VNum y => compareNSB x y
| VStr x, VStr y =>
    match compareStrings with
    | Some f => f x y
    | None => compare_strings x y
    end
| VBool x, VBool y => compareNSB (Z.b2z x) (Z.b2z y)
| VDate _ x, VDate _ y => compareNSB x y
| VArr _ xs, VArr _ ys =>
    lex_compare (fun x y => compareThings x y compareStrings) xs ys
| VObj _ xs, VObj _ ys =>
    lex_compare
      (fun (p q : string * value) =>
         let (kp, vp) := p in
         let (kq, vq) := q in
         if compare_strings kp kq =? 0 then compareThings vp vq compareStrings
         else compare_strings kp kq)
      xs ys
| _, _ => compareNSB (type_rank a) (type_rank b)
end.

(** Modelled from the spec: the equality of the document model, absent
  from the sources. Structural and recursive; timestamps are equal when
  they are the same instant; objects when they have the same keys with
  equal values. *)
Fixpoint areThingsEqual (a b : value) : bool :=
match a, b with
| VUndefined, VUndefined => true
| VNull, VNull => true
| VNum x, VNum y => Z.eqb x y
| VStr x, VStr y => String.eqb x y
| VBool x, VBool y => Bool.eqb x y
| VDate _ x, VDate _ y => Z.eqb x y
| VArr _ xs, VArr _ ys =>
    (fix all2 (l1 l2 : list value) : bool :=
       match l1, l2 with
       | [], [] => true
       | x :: l1', y :: l2' => areThingsEqual x y && all2 l1' l2'
       | _, _ => false
       end) xs ys
| VObj _ xs, VObj _ ys =>
    Nat.eqb (List.length xs) (List.length ys)
    && (fix all (l : list (string * value)) : bool :=
          match l with
          | [] => true
          | (k, x) :: l' =>
              has_prop ys k && areThingsEqual x (get_prop ys k) && all l'
          end) xs
| _, _ => false
end.

(** The segments of a dotted path. *)
Fixpoint split_dots (s cur : string) : list string :=
match s with
| EmptyString => [cur]
| String c rest =>
    if Ascii.eqb c "." then cur :: split_dots rest ""
    else split_dots rest (cur ++ String c "")
end.

(** Modelled from the spec: [model.getDotValue], absent from the sources.
  The path is walked segment by segment; on an array a decimal segment
  indexes into it, any other segment is looked up in each element and
  the defined results are collected in an array; a missing path reads
  as undefined. *)
Fixpoint getDotParts (obj : value) (parts : list string) : value :=
match parts with
| [] => obj
| p :: rest =>
    let v := value_prop obj p in
    match rest with
    | [] => v
    | q :: rest' =>
        match v with
        | VArr _ elts =>
            match array_index q with
            | Some i => getDotParts (nth (Z.to_nat i) elts VUndefined) rest'
            | None =>
                VArr 0 (filter (fun x => negb (strict_equal x VUndefined))
                               (map (fun e => getDotParts e rest) elts))
            end
        | _ => getDotParts v rest
        end
    end
end.

Definition getDotValue (d : doc) (path : string) : value :=
getDotParts (doc_value d) (split_dots path "").

Definition is_operator (k : string) : bool :=
match k with
| String "$" _ => true
| _ => false
end.

(** One comparison operator applied to the value read from the
  document. *)
Definition compare_operator (op : string) (dv arg : value) : result bool :=
if String.eqb op "$lt" then Ok (compareThings dv arg None <? 0)
else if String.eqb op "$lte" then Ok (compareThings dv arg None <=? 0)
else if String.eqb op "$gt" then Ok (0 <? compareThings dv arg None)
else if String.eqb op "$gte" then Ok (0 <=? compareThings dv arg None)
else if String.eqb op "$ne" then Ok (negb (areThingsEqual dv arg))
else if String.eqb op "$in" then
  match arg with
  | VArr _ l => Ok (existsb (areThingsEqual dv) l)
  | _ => Throw (ModelError "$in operator called with a non-array")
  end
else if String.eqb op "$nin" then
  match arg with
  | VArr _ l => Ok (negb (existsb (areThingsEqual dv) l))
  | _ => Throw (ModelError "$nin operator called with a non-array")
  end
else if String.eqb op "$exists" then
  Ok (Bool.eqb (truthy arg) (negb (strict_equal dv VUndefined)))
else if String.eqb op "$size" then
  match dv, arg with
  | VArr _ l, VNum n => Ok (Z.of_nat (List.length l) =? n)
  | _, _ => Ok false
  end
else Throw (ModelError "operator outside this model").

Fixpoint all_operators (dv : value) (ops : list (string * value)) : result bool :=
match ops with
| [] => Ok true
| (op, arg) :: rest =>
    match compare_operator op dv arg with
    | Throw e => Throw e
    | Ok false => Ok false
    | Ok true => all_operators dv rest
    end
end.

(** A field-path entry of a query. *)
Definition match_field (d : doc) (path : string) (qv : value) : result bool :=
let dv := getDotValue d path in
match qv with
| VObj _ ((_ :: _) as ops) =>
    if forallb (fun kv => is_operator (fst kv)) ops then all_operators dv ops
    else Ok (areThingsEqual dv qv)
| _ =>
    match dv with
    | VArr _ elts => Ok (existsb (fun e => areThingsEqual e qv) elts
                         || areThingsEqual dv qv)
    | _ => Ok (areThingsEqual dv qv)
    end
end.

(** Modelled from the spec: [model.match], absent from the sources. The
  entries of the query are logical combinators over arrays of
  sub-queries or field paths (see [match_field]); a predicate function
  ([$where]) and the operators on patterns and elements are outside
  this model and throw. *)
Fixpoint match_doc (d : doc) (q : value) : result bool :=
match q with
| VObj _ entries =>
    (fix each (l : list (string * value)) : result bool :=
       match l with
       | [] => Ok true
       | (k, qv) :: rest =>
           let here :=
             if is_operator k then
               match qv with
               | VArr _ subs =>
                   let fix count (s : list value) : result nat :=
                     match s with
                     | [] => Ok 0%nat
                     | sub :: s' =>
                         match match_doc d sub, count s' with
                         | Throw e, _ => Throw e
                         | _, Throw e => Throw e
                         | Ok b, Ok n => Ok (if b then S n else n)
                         end
                     end in
                   match count subs with
                   | Throw e => Throw e
                   | Ok n =>
                       if String.eqb k "$and" then Ok (Nat.eqb n (List.length subs))
                       else if String.eqb k "$or" then Ok (0 <? n)%nat
                       else if String.eqb k "$nor" then Ok (Nat.eqb n 0)
                       else Throw (ModelError "unknown logical operator")
                   end
               | _ => Throw (ModelError "logical operator without an array")
               end
             else match_field d k qv in
           match here with
           | Throw e => Throw e
           | Ok false => Ok false
           | Ok true => each rest
           end
       end) entries
| _ => Throw (ModelError "query is not an object")
end.

(** [$set] and [$unset] along a dotted path. *)
Fixpoint set_path (fs : list (string * value)) (path : list string) (v : value)
: list (string * value) :=
match path with
| [] => fs
| p :: rest =>
    match rest with
    | [] => set_prop fs p v
    | _ :: _ =>
        match get_prop fs p with
        | VObj r sub => set_prop fs p (VObj r (set_path sub rest v))
        | VUndefined => set_prop fs p (VObj 0 (set_path [] rest v))
        | _ => fs
        end
    end
end.

Fixpoint unset_path (fs : list (string * value)) (path : list string)
: list (string * value) :=
match path with
| [] => fs
| p :: rest =>
    match rest with
    | [] => delete_prop fs p
    | _ :: _ =>
        match get_prop fs p with
        | VObj r sub => set_prop fs p (VObj r (unset_path sub rest))
        | _ => fs
        end
    end
end.

Definition apply_modifier (m : string) (arg : value) (fs : list (string * value))
: result (list (string * value)) :=
match arg with
| VObj _ operands =>
    if String.eqb m "$set" then
      Ok (fold_left (fun acc kv => set_path acc (split_dots (fst kv) "") (snd kv))
                    operands fs)
    else if String.eqb m "$unset" then
      Ok (fold_left (fun acc kv => unset_path acc (split_dots (fst kv) ""))
                    operands fs)
    else Throw (ModelError "modifier outside this model")
| _ => Throw (ModelError "modifier argument must be an object")
end.

Fixpoint apply_modifiers (ms : list (string * value)) (fs : list (string * value))
: result (list (string * value)) :=
match ms with
| [] => Ok fs
| (m, arg) :: rest =>
    match apply_modifier m arg fs with
    | Throw e => Throw e
    | Ok fs' => apply_modifiers rest fs'
    end
end.

(** Modelled from the spec: [model.modify], absent from the sources. An
  update without modifiers replaces the document and keeps its [_id];
  otherwise every top-level key must be a modifier and they are applied
  in order to a deep copy. Of the modifiers, [$set] and [$unset] are
  modelled; the others throw. *)
Definition modify (d : doc) (upd : value) (h : nat) : result (doc * nat) :=
match upd with
| VObj _ ufs =>
    if negb (existsb (fun kv => is_operator (fst kv)) ufs) then
      if has_prop ufs "_id"
         && negb (areThingsEqual (get_prop ufs "_id") (get_field d "_id"))
      then Throw (ModelError "cannot change a document's _id")
      else
        let (copy, h') := deepCopy false upd h in
        Ok (if has_prop (doc_fields d) "_id"
            then set_field (value_doc copy) "_id" (get_field d "_id")
            else value_doc copy, h')
    else if negb (forallb (fun kv => is_operator (fst kv)) ufs) then
      Throw (ModelError "cannot mix modifiers and normal fields")
    else
      let (copy, h') := deepCopyDoc d h in
      match apply_modifiers ufs (doc_fields copy) with
      | Throw e => Throw e
      | Ok fs => Ok (Doc (doc_ref copy) fs, h')
      end
| _ => Throw (ModelError "update is not an object")
end.

Definition valid_key (k : string) : bool :=
negb (is_operator k) && negb (existsb (Ascii.eqb ".") (list_ascii_of_string k)).

(** Modelled from the spec: [model.checkObject], absent from the sources:
  a key that contains a dot or starts with a dollar is rejected,
  recursively. *)
Fixpoint checkObject (v : value) : result unit :=
match v with
| VArr _ elts =>
    (fix each (l : list value) : result unit :=
       match l with
       | [] => Ok tt
       | x :: l' =>
           match checkObject x with
           | Throw e => Throw e
           | Ok _ => each l'
           end
       end) elts
| VObj _ fs =>
    (fix each (l : list (string * value)) : result unit :=
       match l with
       | [] => Ok tt
       | (k, x) :: l' =>
           if valid_key k then
             match checkObject x with
             | Throw e => Throw e
             | Ok _ => each l'
             end
           else Throw (ModelError "invalid field name")
       end) fs
| _ => Ok tt
end.

#[export] Instance model : Model := {
compareThings := SpecModel.compareThings;
getDotValue := SpecModel.getDotValue;
match_doc := SpecModel.match_doc;
modify := SpecModel.modify;
checkObject := SpecModel.checkObject;
}.

(** The rank of a draw, written with sixteen digits. *)
Definition numbered_uid (n : nat) : string :=
let digits := string_of_Z (Z.of_nat n) in
string_of_list_ascii (repeat "0"%char (16 - String.length digits)) ++ digits.

(** The seconds of a time value, for a host that writes its dates so. *)
Definition seconds_of (ms : Z) : string :=
"Date " ++ string_of_Z (ms / 1000).

(** An in-memory store: persistence always acknowledges, the identifiers
drawn are the numbers from zero on. *)
Definition memory_env (now : Z) : Env := {|
persistNewState := fun _ => None;
Date_now := now;
uid := numbered_uid;
call_stack_size := 1000;
Date_toString := seconds_of;
|}.

End SpecModel.

(* ================================================================== *)
(** ** Concrete documents and stores *)

Module Examples.

#[export] Instance spec_model : Model := SpecModel.model.
#[export] Instance env : Env := SpecModel.memory_env 1000000.

Definition doc_n (r : nat) (id : string) (n : Z) : doc :=
Doc r [("_id", VStr id); ("n", VNum n)].

(** A fresh store. *)
Definition empty_store : MemoryDB := MemoryDBOps.new false None.

(** The store holding [{_id:"1", n:3}], [{_id:"2", n:1}], [{_id:"3", n:2}]. *)
Definition three_docs : MemoryDB :=
fst (MemoryDBOps._insert
       (Many [doc_n 0 "1" 3; doc_n 0 "2" 1; doc_n 0 "3" 2]) empty_store).

(** [{_id:"a", f:[[1],[2]]}]: two different arrays under the field [f]. *)
Definition nested_arrays : doc :=
Doc 10 [("_id", VStr "a");
        ("f", VArr 11 [VArr 12 [VNum 1]; VArr 13 [VNum 2]])].

Definition upsert_true : UpdateOptions :=
mkUpdateOptions VUndefined (VBool true) VUndefined.

Definition by_id (id : string) : value := VObj 0 [("_id", VStr id)].

Definition set_v_1 : value := VObj 0 [("$set", VObj 0 [("v", VNum 1)])].


(** A store with a TTL of ten seconds on the field [t], holding one
    document stamped at instant 0 and one stamped at instant 999000, read
    at instant 1000000. *)
Definition stamped (r : nat) (id : string) (ms : Z) : doc :=
  Doc r [("_id", VStr id); ("t", VDate (S r) ms)].

Definition ttl_store : MemoryDB :=
  fst (MemoryDBOps._insert
         (Many [stamped 0 "old" 0; stamped 0 "new" 999000])
         (fst (MemoryDBOps.ensureIndex
                 (mkIndexOptions (Some "t") None None (Some 10)) empty_store))).


(** A unique index on [n] holding [{_id:"1", n:1}] and [{_id:"2", n:2}],
    and a batch that moves both documents to [n = 5]. *)
Definition unique_n : Index :=
  fst (IndexOps.insert (Many [doc_n 1 "1" 1; doc_n 2 "2" 2])
         (IndexOps.new "n" true false)).

Definition colliding_pairs : list pair :=
  [Pair (doc_n 1 "1" 1) (doc_n 3 "1" 5); Pair (doc_n 2 "2" 2) (doc_n 4 "2" 5)].


(** A store with a plain index on [a] and a unique index on [b], holding
    [{_id:"1", a:1, b:1}] and [{_id:"2", a:1, b:2}]: the two documents
    share their key in the index on [a]. *)
Definition doc_ab (r : nat) (id : string) (a b : Z) : doc :=
  Doc r [("_id", VStr id); ("a", VNum a); ("b", VNum b)].

Definition shared_key_store : MemoryDB :=
  fst (MemoryDBOps._insert
         (Many [doc_ab 0 "1" 1 1; doc_ab 0 "2" 1 2])
         (fst (MemoryDBOps.ensureIndex
                 (mkIndexOptions (Some "b") (Some true) None None)
                 (fst (MemoryDBOps.ensureIndex
                         (mkIndexOptions (Some "a") None None None) empty_store))))).

Definition set_b_2 : value := VObj 0 [("$set", VObj 0 [("b", VNum 2)])].

Definition no_options : UpdateOptions :=
  mkUpdateOptions VUndefined VUndefined VUndefined.

(** The [_id]s of the documents of an index of a store, in the order of
    its traversal. *)
Definition ids_in_order (name : string) (db : MemoryDB) : option (list value) :=
  option_map (fun idx => map (fun d => get_prop (doc_fields d) "_id")
                             (IndexOps.getAll idx))
             (obj_get (indexes db) name).


(** The update of [{_id:"1", a:1, b:1}] to [b = 2], and a document whose
    [b] is taken. *)
Definition pairs_1 : list pair := [Pair (doc_ab 1 "1" 1 1) (doc_ab 7 "1" 1 2)].

Definition taken_b : doc := doc_ab 7 "3" 2 2.

(** A batch whose second document has a [b] that is taken. *)
Definition batch_b : list doc := [doc_ab 7 "3" 2 3; doc_ab 8 "4" 2 2].

(** A store with a plain index on [tags] and a unique index on [u],
    holding [{_id:"x", tags:[{a:1}], u:1}]. *)
Definition tag_a (r : nat) : value := VObj r [("a", VNum 1)].

Definition tagged (r : nat) (id : string) (tags : list value) (u : Z) : doc :=
  Doc r [("_id", VStr id); ("tags", VArr 0 tags); ("u", VNum u)].

Definition tags_store : MemoryDB :=
  fst (MemoryDBOps._insert
         (One (tagged 0 "x" [tag_a 0] 1))
         (fst (MemoryDBOps.ensureIndex
                 (mkIndexOptions (Some "u") (Some true) None None)
                 (fst (MemoryDBOps.ensureIndex
                         (mkIndexOptions (Some "tags") None None None) empty_store))))).


(** A store holding [{_id:"1", n:7}] and [{_id:"2", n:7}], and the
    request for a unique index on [n] that expires after a minute. *)
Definition twins : MemoryDB :=
  fst (MemoryDBOps._insert (Many [doc_n 0 "1" 7; doc_n 0 "2" 7]) empty_store).

Definition unique_on_n : IndexOptions :=
  mkIndexOptions (Some "n") (Some true) None (Some 60).

Definition plain_on_n : IndexOptions :=
  mkIndexOptions (Some "n") None None None.

(** The documents of the store [three_docs], in the order of its [_id]
    index. *)
Definition the_three : list doc := [doc_n 1 "1" 3; doc_n 3 "2" 1; doc_n 5 "3" 2].

(** [{_id:"3", a:2, b:3}], a new document for the store with the indexes
    on [a] and [b]. *)
Definition new_ab : doc := doc_ab 7 "3" 2 3.







(** A store whose only document has the first identifier of the
    generator for [_id]. *)
Definition first_uid_taken : MemoryDB :=
  fst (MemoryDBOps._insert (One (doc_n 0 "0000000000000000" 1)) empty_store).

Definition unique_on_toString : IndexOptions :=
  mkIndexOptions (Some "toString") (Some true) None (Some 60).

End Examples.

(** The [updated] field of the report of an update proper: copies of the
    new documents when they were asked for. *)
Definition reported_docs (options : UpdateOptions) (modifications : list pair)
  (h : nat) : updated :=
  if negb (truthy (returnUpdatedDocs options)) then UpdatedUndefined
  else
    let copies := fst (deepCopyDocs (map newDoc modifications) h) in
    if negb (truthy (multi options)) then
      match copies with
      | d :: _ => UpdatedDoc d
      | [] => UpdatedUndefined
      end
    else UpdatedDocs copies.

(** What an operation on the indexes leaves alone. *)
Definition same_frame (db db' : MemoryDB) : Prop :=
  ttlIndexes db' = ttlIndexes db
  /\ timestampData db' = timestampData db
  /\ compareStrings db' = compareStrings db
  /\ heap db' = heap db.

(** A value with its addresses forgotten: what two copies of one value
    have in common. *)
Fixpoint erase (v : value) : value :=
  match v with
  | VDate _ ms => VDate 0 ms
  | VArr _ elts => VArr 0 (map erase elts)
  | VObj _ fs => VObj 0 (map (fun kv : string * value => (fst kv, erase (snd kv))) fs)
  | _ => v
  end.

(** The addresses a value occupies. *)
Fixpoint addresses (v : value) : list nat :=
  match v with
  | VDate a _ => [a]
  | VArr a elts => a :: flat_map addresses elts
  | VObj a fs => a :: flat_map (fun kv : string * value => addresses (snd kv)) fs
  | _ => []
  end.

Section ValueInduction.
Variable P : value -> Prop.
Hypothesis P_undefined : P VUndefined.
Hypothesis P_null : P VNull.
Hypothesis P_num : forall n, P (VNum n).
Hypothesis P_str : forall s, P (VStr s).
Hypothesis P_bool : forall b, P (VBool b).
Hypothesis P_date : forall a ms, P (VDate a ms).
Hypothesis P_arr : forall a elts, Forall P elts -> P (VArr a elts).
Hypothesis P_obj :
  forall a fs, Forall (fun kv : string * value => P (snd kv)) fs -> P (VObj a fs).

(** Induction on values, with the hypothesis available for every element
    of an array and every property of an object. *)
Fixpoint value_induction (v : value) : P v :=
  match v with
  | VUndefined => P_undefined
  | VNull => P_null
  | VNum n => P_num n
  | VStr s => P_str s
  | VBool b => P_bool b
  | VDate a ms => P_date a ms
  | VArr a elts =>
      P_arr a elts
        ((fix all (l : list value) : Forall P l :=
            match l with
            | [] => Forall_nil P
            | x :: l' => Forall_cons x (value_induction x) (all l')
            end) elts)
  | VObj a fs =>
      P_obj a fs
        ((fix all (l : list (string * value))
            : Forall (fun kv : string * value => P (snd kv)) l :=
            match l with
            | [] => Forall_nil _
            | kv :: l' => Forall_cons kv (value_induction (snd kv)) (all l')
            end) fs)
  end.

End ValueInduction.

(** A projection whose fields, [_id] apart, agree on one action. *)
Definition consistent_projection (p : list (string * value)) : Prop :=
  exists action,
    CursorOps.check_actions (delete_prop p "_id")
                            (Object_keys (delete_prop p "_id")) VUndefined
    = Ok action.



(** The comparison of keys is a total preorder: what an ordered tree needs
    of [model.compareThings]. *)
Class KeyOrder (model : Model) : Prop := {
  compare_refl : forall a, compareThings a a None = 0;
  compare_antisym : forall a b, compareThings b a None = - compareThings a b None;
  compare_eq_compat :
    forall a b c, compareThings a b None = 0 ->
                  compareThings a c None = compareThings b c None;
  compare_lt_trans :
    forall a b c, compareThings a b None < 0 -> compareThings b c None < 0 ->
                  compareThings a c None < 0;
}.

(** The laws of a total preorder given by a comparison function, at one
    element. *)
Definition order_laws_at {A} (cmp : A -> A -> Z) (x : A) : Prop :=
  cmp x x = 0
  /\ (forall y, cmp y x = - cmp x y)
  /\ (forall y z, cmp x y = 0 -> cmp x z = cmp y z)
  /\ (forall y z, cmp y z = 0 -> cmp x y = cmp x z)
  /\ (forall y z, cmp x y < 0 -> cmp y z < 0 -> cmp x z < 0).

Section IndexInvariants.
Context {model : Model}.

(** The keys of a tree increase strictly from node to node. *)
Definition sorted (t : BinarySearchTree.tree) : Prop :=
  StronglySorted
    (fun n1 n2 : BinarySearchTree.node =>
       IndexOps.compareKeys (fst n1) (fst n2) < 0) t.

(** Every node holds at least one document. *)
Definition no_empty_node (t : BinarySearchTree.tree) : Prop :=
  Forall (fun n : BinarySearchTree.node => snd n <> []) t.

Definition wf_tree (t : BinarySearchTree.tree) : Prop :=
  sorted t /\ no_empty_node t.

(** The documents a tree holds under a key, in the order of their node. *)
Definition content (t : BinarySearchTree.tree) (k : value) : list doc :=
  BinarySearchTree.search IndexOps.compareKeys k t.

(** Every key below the keys of a tree. *)
Definition below (k : value) (t : BinarySearchTree.tree) : Prop :=
  Forall (fun n : BinarySearchTree.node => IndexOps.compareKeys k (fst n) < 0) t.

(** A list of documents without the pointers to one of them. *)
Definition without (d : doc) (l : list doc) : list doc :=
  filter (fun x => negb (checkValueEquality x d)) l.

(** What [tree.delete] leaves of the data of the node it finds. *)
Definition rem (d : doc) (l : list doc) : list doc :=
  if (1 <? List.length l)%nat then without d l else [].

(** The keys under which an index files a document. *)
Definition doc_keys (idx : Index) (d : doc) : list value :=
  let key := getDotValue d (fieldName idx) in
  if strict_equal key VUndefined && sparse idx then []
  else
    match key with
    | VArr _ elts => uniq elts projectForUnique
    | _ => [key]
    end.

(** The document is filed under a key that compares equal to [k]. *)
Definition hits (idx : Index) (k : value) (d : doc) : bool :=
  existsb (fun key => IndexOps.compareKeys k key =? 0) (doc_keys idx d).

(** No two keys of the document compare equal. *)
Definition alias_free (idx : Index) (d : doc) : Prop :=
  ForallOrdPairs (fun a b => IndexOps.compareKeys a b <> 0) (doc_keys idx d).

(** Two states of an index that no query tells apart: same settings, same
    documents under every key, same in-order traversal. *)
Definition same_index (idx idx' : Index) : Prop :=
  fieldName idx' = fieldName idx
  /\ unique idx' = unique idx
  /\ sparse idx' = sparse idx
  /\ (forall k, content (tree idx') k = content (tree idx) k)
  /\ IndexOps.getAll idx' = IndexOps.getAll idx.

End IndexInvariants.

Arguments content : simpl never.
Arguments rem : simpl never.

Section IndexRuns.
Context {model : Model}.

(** [this.tree.insert(k, d)] for the keys of a list in turn, up to the
    first refusal. *)
Fixpoint insert_keys (u : bool) (d : doc) (ks : list value)
  (t : BinarySearchTree.tree) : result BinarySearchTree.tree :=
  match ks with
  | [] => Ok t
  | k :: rest =>
      match BinarySearchTree.insert IndexOps.compareKeys u k d t with
      | Ok t' => insert_keys u d rest t'
      | Throw e => Throw e
      end
  end.

(** [this.tree.delete(k, d)] for the keys of a list in turn. *)
Definition delete_keys (d : doc) (ks : list value) (t : BinarySearchTree.tree)
  : BinarySearchTree.tree :=
  fold_left (fun t k =>
               BinarySearchTree.delete IndexOps.compareKeys checkValueEquality k d t)
            ks t.

(** A list of documents without the pointers to any of [ds]. *)
Definition without_all (ds l : list doc) : list doc :=
  filter (fun x => negb (existsb (checkValueEquality x) ds)) l.

(** No pointer to [d] in a list. *)
Definition absent (d : doc) (l : list doc) : Prop :=
  forall x, In x l -> doc_ref x <> doc_ref d.

End IndexRuns.

Section Tracking.
Context {model : Model}.

(** Every node holds a document at most once. *)
Definition refs_distinct (idx : Index) : Prop :=
  Forall (fun n : BinarySearchTree.node => NoDup (map doc_ref (snd n))) (tree idx).

(** The nodes of a unique index hold one document each. *)
Definition unique_bound (idx : Index) : Prop :=
  unique idx = true ->
  Forall (fun n : BinarySearchTree.node => (List.length (snd n) <= 1)%nat) (tree idx).

(** The index holds no pointer to the document. *)
Definition fresh (idx : Index) (d : doc) : Prop :=
  Forall (fun n : BinarySearchTree.node => absent d (snd n)) (tree idx).

(** The index files the document under each of its keys and nowhere
    else. *)
Definition filed (idx : Index) (d : doc) : Prop :=
  (forall key, In key (doc_keys idx d) -> In d (content (tree idx) key))
  /\ Forall (fun n : BinarySearchTree.node =>
               hits idx (fst n) d = false -> absent d (snd n)) (tree idx).

(** The state of an index in the course of an operation, against its
    state [idx0] before: the documents [removed] have been taken out, the
    documents [added] have been put in, in this order. *)
Definition tracked (idx0 : Index) (removed added : list doc) (idx : Index) : Prop :=
  fieldName idx = fieldName idx0
  /\ unique idx = unique idx0
  /\ sparse idx = sparse idx0
  /\ wf_tree (tree idx)
  /\ forall k, content (tree idx) k
               = without_all removed (content (tree idx0) k)
                 ++ filter (hits idx0 k) added.

End Tracking.

Section UpdateHypotheses.
Context {model : Model}.

(** What a batch update may rely on: the index is well formed, it files
    every old document, and every new document is a fresh object. *)
Definition update_ready (idx : Index) (pairs : list pair) : Prop :=
  wf_tree (tree idx)
  /\ refs_distinct idx
  /\ unique_bound idx
  /\ Forall (fun o => alias_free idx o /\ filed idx o) (map oldDoc pairs)
  /\ NoDup (map doc_ref (map oldDoc pairs))
  /\ Forall (fun c => fresh idx c /\ (unique idx = false -> alias_free idx c))
            (map newDoc pairs)
  /\ NoDup (map doc_ref (map newDoc pairs)).

(** The run of a batch update that fails, phase by phase: the old
    documents go, the new ones come up to the one that is refused, those
    that came go, the old ones come back. *)
Definition batch_phases (pairs : list pair) (idx idx' : Index) (e : error) : Prop :=
  exists i p idx1 idx2 idx3 idx4,
    nth_error pairs i = Some p
    /\ for_each (fun p => IndexOps.removeDoc (oldDoc p)) pairs idx = (idx1, Ok tt)
    /\ for_each (fun p => IndexOps.insertDoc (newDoc p)) (firstn i pairs) idx1
       = (idx2, Ok tt)
    /\ IndexOps.insertDoc (newDoc p) idx2 = (idx3, Throw e)
    /\ for_each (fun p => IndexOps.removeDoc (newDoc p)) (firstn i pairs) idx3
       = (idx4, Ok tt)
    /\ for_each (fun p => IndexOps.insertDoc (oldDoc p)) pairs idx4 = (idx', Ok tt).

End UpdateHypotheses.

Section StoreRelations.
Context {model : Model}.

(** Two states of a store related index by index: the same index names, in
    the same order, the same settings outside the indexes, and under every
    name two indexes in the relation of this name. *)
Definition store_rel (rho : string -> Index -> Index -> Prop) (db0 db : MemoryDB)
  : Prop :=
  same_frame db0 db
  /\ Object_keys (indexes db) = Object_keys (indexes db0)
  /\ forall name idx0,
       obj_get (indexes db0) name = Some idx0 ->
       exists idx, obj_get (indexes db) name = Some idx /\ rho name idx0 idx.

Definition indexes_related (P : Index -> Index -> Prop) (db db' : MemoryDB) : Prop :=
  store_rel (fun _ => P) db db'.

(** One relation on the names of a list, another one elsewhere. *)
Definition on_names (ks : list string) (Q : Index -> Index -> Prop)
  (rho : string -> Index -> Index -> Prop) : string -> Index -> Index -> Prop :=
  fun name => if existsb (String.eqb name) ks then Q else rho name.

End StoreRelations.
Section StoreHypotheses.
Context {model : Model}.

(** What the insertion of the documents [ds] may rely on in one index:
    the index is well formed and the documents are objects it does not
    hold yet. *)
Definition insert_ready (idx : Index) (ds : list doc) : Prop :=
  wf_tree (tree idx)
  /\ refs_distinct idx
  /\ Forall (fun d => fresh idx d /\ (unique idx = false -> alias_free idx d)) ds.

Definition store_insert_ready (db : MemoryDB) (ds : list doc) : Prop :=
  NoDup (Object_keys (indexes db))
  /\ NoDup (map doc_ref ds)
  /\ Forall (fun kv => insert_ready (snd kv) ds) (indexes db).

Definition store_update_ready (db : MemoryDB) (pairs : list pair) : Prop :=
  NoDup (Object_keys (indexes db))
  /\ Forall (fun kv => update_ready (snd kv) pairs) (indexes db).

(** An index in the course of the insertion of documents among [ds]: the
    documents [A] have been put in. *)
Definition inserting (ds A : list doc) (idx0 idx : Index) : Prop :=
  insert_ready idx0 ds /\ Forall (alias_free idx0) A /\ tracked idx0 [] A idx.

(** An index that holds what it held: the same documents under every key,
    in the same order when the index is unique. *)
Definition restored (idx0 idx : Index) : Prop :=
  fieldName idx = fieldName idx0
  /\ unique idx = unique idx0
  /\ sparse idx = sparse idx0
  /\ (forall k, Permutation (content (tree idx) k) (content (tree idx0) k))
  /\ (unique idx0 = true -> same_index idx0 idx).

(** The documents of [insert(docs)] and the pairs of [update(...)]. *)
Definition docs_list (arg : docs) : list doc :=
  match arg with
  | One d => [d]
  | Many ds => ds
  end.

Definition pairs_list (arg : updates) : list pair :=
  match arg with
  | Replace o n => [Pair o n]
  | Batch pairs => pairs
  end.

End StoreHypotheses.

(* ================================================================== *)
(** * Properties *)

Section StoreFacts.
Context {model : Model} {env : Env}.

Lemma obj_get_obj_delete_same {A} (o : list (string * A)) (k : string) :
obj_get (obj_delete o k) k = None.
Proof.
induction o as [|[k' x] o IH]; simpl; [reflexivity|].
destruct (String.eqb k' k) eqn:E; [exact IH|].
simpl. rewrite E. exact IH.
Qed.

Lemma obj_set_obj_get_same {A} (o : list (string * A)) (k : string) (x : A) :
obj_get o k = Some x -> obj_set o k x = o.
Proof.
induction o as [|[k' x'] o IH]; simpl; [discriminate|].
destruct (String.eqb k' k) eqn:E.
- intros H. injection H as ->. reflexivity.
- intros H. rewrite (IH H). reflexivity.
Qed.

Lemma set_indexes_same (db : MemoryDB) : MemoryDBOps.set_indexes db (indexes db) = db.
Proof. destruct db; reflexivity. Qed.

Lemma set_heap_same (db : MemoryDB) : MemoryDBOps.set_heap db (heap db) = db.
Proof. destruct db; reflexivity. Qed.

Lemma set_tree_same (idx : Index) : IndexOps.set_tree idx (tree idx) = idx.
Proof. destruct idx; reflexivity. Qed.

(** Reading an index leaves the store as it is. *)
Lemma read_index_run {A} (name : string) (f : Index -> A) (db : MemoryDB) :
MemoryDBOps.read_index name f db
= match obj_get (indexes db) name with
  | Some idx => (db, Ok (f idx))
  | None => (db, Throw (TypeError "index is undefined"))
  end.
Proof.
unfold MemoryDBOps.read_index, MemoryDBOps.on_index.
destruct (obj_get (indexes db) name) as [idx|] eqn:E; [|reflexivity].
cbn. rewrite (obj_set_obj_get_same _ _ _ E), set_indexes_same. reflexivity.
Qed.

(** C9. [ensureIndex] on a field that already has an index completes
  without an error and leaves the store, hence every index and the
  registry of TTL fields, exactly as it was: the existing index is
  neither rebuilt nor replaced. (An index cannot be named by the empty
  string, which [ensureIndex] rejects.) *)
Theorem ensureIndex_existing_field_unchanged :
forall (db : MemoryDB) (options : IndexOptions) (f : string) (idx : Index),
  opt_fieldName options = Some f ->
  f <> "" ->
  obj_get (indexes db) f = Some idx ->
  MemoryDBOps.ensureIndex options db = (db, Ok tt).
Proof.
intros db options f idx Hf Hne Hidx.
unfold MemoryDBOps.ensureIndex. rewrite Hf.
destruct f as [|c f']; [congruence|].
unfold bind, get. rewrite Hidx. reflexivity.
Qed.

(** C4 (what the code does). [removeIndex] deletes whatever index is
  named, the [_id] index included: after [removeIndex("_id")] the store
  has no [_id] index, and reading all the data fails. *)
Theorem removeIndex_id_drops_the_id_index :
forall (db : MemoryDB),
  let db' := fst (MemoryDBOps.removeIndex "_id" db) in
  obj_get (indexes db') "_id" = None
  /\ snd (MemoryDBOps.getAllData db') = Throw (TypeError "index is undefined").
Proof.
intros db.
assert (H : obj_get (indexes (fst (MemoryDBOps.removeIndex "_id" db))) "_id" = None).
{ unfold MemoryDBOps.removeIndex, MemoryDBOps.persist, bind, get, put.
  destruct (persistNewState _); cbn; apply obj_get_obj_delete_same. }
split; [exact H|].
unfold MemoryDBOps.getAllData. rewrite read_index_run.
cbv zeta. rewrite H. reflexivity.
Qed.

End StoreFacts.

Section MonadFacts.
Context {St A B : Type}.

Lemma bind_ok (c : M St A) (k : A -> M St B) (s s' : St) (b : B) :
  bind c k s = (s', Ok b) ->
  exists s1 a, c s = (s1, Ok a) /\ k a s1 = (s', Ok b).
Proof.
  unfold bind. destruct (c s) as [s1 [a|e]]; intros H.
  - exists s1, a. split; [reflexivity|exact H].
  - discriminate.
Qed.

Lemma bind_run (c : M St A) (k : A -> M St B) (s s1 : St) (a : A) :
  c s = (s1, Ok a) -> bind c k s = k a s1.
Proof. unfold bind. intros ->. reflexivity. Qed.

Lemma bind_throw (c : M St A) (k : A -> M St B) (s s1 : St) (e : error) :
  c s = (s1, Throw e) -> bind c k s = (s1, Throw e).
Proof. unfold bind. intros ->. reflexivity. Qed.

End MonadFacts.

Section LoopFacts.
Context {St X : Type}.
Variable P : St -> Prop.
Variable body : X -> M St unit.
Hypothesis body_keeps : forall x s s' r, body x s = (s', r) -> P s -> P s'.

Lemma for_each_keeps (xs : list X) :
  forall s s' r, for_each body xs s = (s', r) -> P s -> P s'.
Proof.
  induction xs as [|x xs IH]; intros s s' r H Hs.
  - cbn in H. injection H as <- _. exact Hs.
  - cbn in H. unfold bind in H.
    destruct (body x s) as [s1 [[]|e]] eqn:Hb.
    + apply (IH _ _ _ H). eapply body_keeps; eauto.
    + injection H as <- _. eapply body_keeps; eauto.
Qed.

Lemma for_try_keeps (xs : list X) :
  forall i s s' r, for_try body xs i s = (s', r) -> P s -> P s'.
Proof.
  induction xs as [|x xs IH]; intros i s s' r H Hs.
  - cbn in H. injection H as <- _. exact Hs.
  - cbn in H.
    destruct (body x s) as [s1 [[]|e]] eqn:Hb.
    + apply (IH _ _ _ _ H). eapply body_keeps; eauto.
    + injection H as <- _. eapply body_keeps; eauto.
Qed.

End LoopFacts.

Section UpdateReport.
Context {model : Model} {env : Env}.

Lemma same_frame_refl (db : MemoryDB) : same_frame db db.
Proof. repeat split. Qed.

Lemma same_frame_trans (a b c : MemoryDB) :
  same_frame a b -> same_frame b c -> same_frame a c.
Proof.
  unfold same_frame. intros (H1 & H2 & H3 & H4) (G1 & G2 & G3 & G4).
  repeat split; congruence.
Qed.

Lemma on_index_frame {A} (name : string) (op : M Index A) (db db' : MemoryDB) r :
  MemoryDBOps.on_index name op db = (db', r) -> same_frame db db'.
Proof.
  unfold MemoryDBOps.on_index.
  destruct (obj_get (indexes db) name) as [idx|].
  - destruct (op idx) as [idx' r']. intros H. injection H as <- _.
    repeat split.
  - intros H. injection H as <- _. apply same_frame_refl.
Qed.

Lemma updateIndexes_frame (arg : updates) (db db' : MemoryDB) r :
  MemoryDBOps.updateIndexes arg db = (db', r) -> same_frame db db'.
Proof.
  unfold MemoryDBOps.updateIndexes, bind, get. intros H.
  destruct (for_try _ _ _ db) as [db1 [failure|e]] eqn:Hf.
  - assert (F1 : same_frame db db1).
    { apply (for_try_keeps (same_frame db) _) in Hf; [exact Hf| |apply same_frame_refl].
      intros x s s' r0 Hx Hs. eapply same_frame_trans; [exact Hs|].
      eapply on_index_frame; eauto. }
    destruct failure as [[error failingIndex]|].
    + destruct (for_each _ _ db1) as [db2 [[]|e]] eqn:Hr;
        cbn in H; injection H as <- _;
        apply (for_each_keeps (same_frame db) _) in Hr; auto;
        intros x s s' r0 Hx Hs; (eapply same_frame_trans; [exact Hs|]);
        eapply on_index_frame; eauto.
    + cbn in H. injection H as <- _. exact F1.
  - injection H as <- _.
    apply (for_try_keeps (same_frame db) _) in Hf; [exact Hf| |apply same_frame_refl].
    intros x s s' r0 Hx Hs. eapply same_frame_trans; [exact Hs|].
    eapply on_index_frame; eauto.
Qed.

(** The report of the update proper. *)
Lemma perform_update_report :
  forall query updateQuery options db db' r,
    StoreOps.perform_update query updateQuery options db = (db', Ok r) ->
    exists db1 candidates modifications h,
      MemoryDBOps.getCandidates query false db = (db1, Ok candidates)
      /\ StoreOps.prepare_modifications (timestampData db1) (truthy (multi options))
           query updateQuery candidates 0 (heap db1)
         = Ok (modifications, numAffected r, h)
      /\ report_upsert r = upsert options
      /\ report_updated r = reported_docs options modifications h.
Proof.
  intros query updateQuery options db db' r H.
  unfold StoreOps.perform_update in H.
  apply bind_ok in H. destruct H as (db1 & candidates & Hc & H).
  apply bind_ok in H. destruct H as (db1' & self & Hg & H).
  unfold get in Hg. injection Hg as <- <-.
  destruct (StoreOps.prepare_modifications _ _ _ _ _ _ _)
    as [[[modifications n] h]|e] eqn:Hp; [|discriminate].
  exists db1, candidates, modifications, h.
  apply bind_ok in H. destruct H as (db2 & [] & Hput & H).
  unfold put in Hput. injection Hput as <-.
  apply bind_ok in H. destruct H as (db3 & [] & Hu & H).
  apply bind_ok in H. destruct H as (db4 & [] & Hpers & H).
  unfold reported_docs.
  destruct (negb (truthy (returnUpdatedDocs options))).
  - unfold ret in H. injection H as <- <-. cbn. auto.
  - apply bind_ok in H. destruct H as (db5 & copies & Ha & H).
    unfold ret in H. injection H as <- <-. cbn.
    split; [exact Hc|]. split; [exact Hp|]. split; [reflexivity|].
    assert (Hh : heap db4 = h).
    { unfold MemoryDBOps.persist in Hpers.
      destruct (persistNewState _); [discriminate|].
      unfold ret in Hpers. injection Hpers as <-.
      apply updateIndexes_frame in Hu. destruct Hu as (_ & _ & _ & Hu).
      rewrite Hu. reflexivity. }
    unfold MemoryDBOps.alloc in Ha. rewrite Hh in Ha.
    destruct (deepCopyDocs (map newDoc modifications) h) as [cs h'].
    injection Ha as _ <-. reflexivity.
Qed.

(** C5 (amended). Whenever the update proper runs, because no upsert was
    asked for or because the probe of the upsert found a document, the
    report carries the [upsert] option as it was passed (true when it was
    passed as true), the number of documents replaced, and copies of the
    new documents when they were asked for. *)
Theorem update_report_echoes_upsert_option :
  forall query updateQuery options db db' r,
    StoreOps._update query updateQuery options db = (db', Ok r) ->
    (truthy (upsert options) = false
     \/ exists db1 d,
          StoreOps.exec (CursorOps.limit 1 (CursorOps.new query None)) db
          = (db1, Ok (Docs [d]))) ->
    report_upsert r = upsert options
    /\ exists db1 db2 candidates modifications h,
         MemoryDBOps.getCandidates query false db1 = (db2, Ok candidates)
         /\ StoreOps.prepare_modifications (timestampData db2)
              (truthy (multi options)) query updateQuery candidates 0 (heap db2)
            = Ok (modifications, numAffected r, h)
         /\ report_updated r = reported_docs options modifications h.
Proof.
  intros query updateQuery options db db' r H Hbranch.
  unfold StoreOps._update in H.
  assert (Hp : exists db1, StoreOps.perform_update query updateQuery options db1
                           = (db', Ok r)).
  { destruct (truthy (upsert options)) eqn:Hu; cbn in H.
    - destruct Hbranch as [Hb|(db1 & d & Hb)]; [discriminate|].
      rewrite (bind_run _ _ _ _ _ Hb) in H. exists db1. exact H.
    - exists db. exact H. }
  destruct Hp as (db1 & Hp).
  apply perform_update_report in Hp.
  destruct Hp as (db2 & candidates & modifications & h & H1 & H2 & H3 & H4).
  split; [exact H3|].
  exists db1, db2, candidates, modifications, h. auto.
Qed.

End UpdateReport.

Section Expiry.
Context {model : Model} {env : Env}.

(** The index probe reads the indexes and changes nothing. *)
Lemma candidates_from_indexes_state (query : value) (db db' : MemoryDB) r :
  MemoryDBOps.candidates_from_indexes query db = (db', r) -> db' = db.
Proof.
  unfold MemoryDBOps.candidates_from_indexes, MemoryDBOps.getAllData, bind, get.
  repeat match goal with
         | |- context [match ?l with [] => _ | _ :: _ => _ end] => destruct l
         end;
    rewrite read_index_run; destruct (obj_get _ _); intros H; injection H as <- _;
    reflexivity.
Qed.

Lemma expired_for_iff (ttl : list (string * Z)) (d : doc) (i : string) :
  MemoryDBOps.expired_for ttl d i = true
  <-> exists a ms seconds,
        get_field d i = VDate a ms
        /\ obj_get ttl i = Some seconds
        /\ ms + seconds * 1000 < Date_now.
Proof.
  unfold MemoryDBOps.expired_for. split.
  - destruct (get_field d i) as [| | | | |a ms| |]; try discriminate.
    destruct (obj_get ttl i) as [seconds|]; try discriminate.
    intros H. exists a, ms, seconds. repeat split. apply Z.ltb_lt. exact H.
  - intros (a & ms & seconds & -> & -> & H). apply Z.ltb_lt. exact H.
Qed.

Lemma valid_doc_false_iff (ttl : list (string * Z)) (d : doc) :
  MemoryDBOps.valid_doc ttl d = false
  <-> exists i, In i (Object_keys ttl) /\ MemoryDBOps.expired_for ttl d i = true.
Proof.
  unfold MemoryDBOps.valid_doc. rewrite negb_false_iff, existsb_exists.
  reflexivity.
Qed.

(** C6. A document is expired for a TTL field exactly when the field holds
    a timestamp whose value plus the configured seconds lies strictly
    before now. Called with stale documents not allowed, [getCandidates]
    runs one removal per expired candidate, in order, and then hands on
    exactly the candidates that are not expired: none of the expired ones,
    all of the others. *)
Theorem getCandidates_drops_expired_documents :
  forall (query : value) (db db' : MemoryDB) (candidates : list doc)
         (r : result (list doc)),
    snd (MemoryDBOps.candidates_from_indexes query db) = Ok candidates ->
    MemoryDBOps.getCandidates query false db = (db', r) ->
    let ttl := ttlIndexes db in
    let expired d := negb (MemoryDBOps.valid_doc ttl d) in
    (forall d i,
        MemoryDBOps.expired_for ttl d i = true
        <-> exists a ms seconds,
              get_field d i = VDate a ms
              /\ obj_get ttl i = Some seconds
              /\ ms + seconds * 1000 < Date_now)
    /\ (forall d,
           expired d = true
           <-> exists i, In i (Object_keys ttl)
                         /\ MemoryDBOps.expired_for ttl d i = true)
    /\ (db', r)
       = (let (db1, removed) :=
            for_each (fun _id => MemoryDBOps._remove (VObj 0 [("_id", _id)]) false ;;
                                 ret tt)
                     (map (fun d => get_field d "_id") (filter expired candidates))
                     db in
          (db1, match removed with
                | Ok _ => Ok (filter (fun d => negb (expired d)) candidates)
                | Throw e => Throw e
                end))
    /\ (forall docs, r = Ok docs ->
          forall d, In d docs <-> In d candidates /\ expired d = false).
Proof.
  intros query db db' candidates r Hprobe Hrun ttl expired.
  assert (Hshape :
    (db', r)
    = (let (db1, removed) :=
         for_each (fun _id => MemoryDBOps._remove (VObj 0 [("_id", _id)]) false ;;
                              ret tt)
                  (map (fun d => get_field d "_id") (filter expired candidates))
                  db in
       (db1, match removed with
             | Ok _ => Ok (filter (fun d => negb (expired d)) candidates)
             | Throw e => Throw e
             end))).
  { rewrite <- Hrun. unfold MemoryDBOps.getCandidates.
    destruct (MemoryDBOps.candidates_from_indexes query db) as [db0 r0] eqn:Hp.
    pose proof (candidates_from_indexes_state _ _ _ _ Hp) as ->.
    cbn in Hprobe. subst r0.
    rewrite (bind_run _ _ _ _ _ Hp). unfold bind at 1, get at 1.
    fold ttl. fold expired. unfold bind at 1.
    destruct (for_each _ _ db) as [db1 [[]|e]]; cbn.
    - unfold ret. f_equal. f_equal. apply filter_ext. intros d. unfold expired.
      rewrite negb_involutive. reflexivity.
    - reflexivity. }
  split; [intros d i; apply expired_for_iff|].
  split; [intros d; unfold expired; rewrite negb_true_iff; apply valid_doc_false_iff|].
  split; [exact Hshape|].
  intros docs ->.
  destruct (for_each _ _ db) as [db1 [[]|e]]; [|discriminate].
  injection Hshape as _ ->. intros d.
  rewrite filter_In, negb_true_iff. reflexivity.
Qed.

End Expiry.

Section ObjectFacts.
Context {A : Type}.

Lemma In_insert_index_key (n : Z) (kv : string * A) (l : list (Z * (string * A)))
  (x : Z * (string * A)) :
  In x (insert_index_key n kv l) <-> x = (n, kv) \/ In x l.
Proof.
  induction l as [|[m kv'] l IH]; simpl.
  - intuition.
  - destruct (n <? m); simpl; [intuition|]. rewrite IH. intuition.
Qed.

Lemma In_indexed_entries (o : list (string * A)) :
  forall (acc : list (Z * (string * A))) (x : Z * (string * A)),
    In x (fold_left (fun acc kv =>
                       match array_index (fst kv) with
                       | Some n => insert_index_key n kv acc
                       | None => acc
                       end) o acc)
    <-> In x acc \/ (In (snd x) o /\ array_index (fst (snd x)) = Some (fst x)).
Proof.
  induction o as [|kv o IH]; intros acc [m kv']; simpl.
  - intuition.
  - rewrite IH. simpl. destruct (array_index (fst kv)) as [n|] eqn:E.
    + rewrite In_insert_index_key. split.
      * intros [[H|H]|[H1 H2]]; auto.
        injection H as -> ->. auto.
      * intros [H|[[H1|H1] H2]]; auto.
        subst kv'. rewrite E in H2. injection H2 as ->. auto.
    + split.
      * intros [H|[H1 H2]]; auto.
      * intros [H|[[H1|H1] H2]]; auto. subst kv'. rewrite E in H2. discriminate.
Qed.

(** Enumerating the entries of an object visits each of them. *)
Lemma In_own_entries (o : list (string * A)) (kv : string * A) :
  In kv (own_entries o) <-> In kv o.
Proof.
  unfold own_entries. rewrite in_app_iff, in_map_iff, filter_In. split.
  - intros [(x & <- & H)|[H _]]; [|exact H].
    apply In_indexed_entries in H. destruct H as [[]|[H _]]. exact H.
  - intros H. destruct (array_index (fst kv)) as [n|] eqn:E.
    + left. exists (n, kv). split; [reflexivity|].
      apply In_indexed_entries. right. simpl. auto.
    + right. auto.
Qed.

Lemma In_Object_keys (o : list (string * A)) (k : string) :
  In k (Object_keys o) <-> In k (map fst o).
Proof.
  unfold Object_keys. rewrite !in_map_iff. split.
  - intros (kv & <- & H). exists kv. split; [reflexivity|].
    apply In_own_entries. exact H.
  - intros (kv & <- & H). exists kv. split; [reflexivity|].
    apply In_own_entries. exact H.
Qed.

End ObjectFacts.

Section PropertyFacts.

Lemma get_prop_defined_In (fs : list (string * value)) (k : string) :
  get_prop fs k <> VUndefined -> In k (map fst fs).
Proof.
  induction fs as [|[k' v] fs IH]; simpl; [congruence|].
  destruct (String.eqb_spec k' k) as [->|Hne]; auto.
Qed.

Lemma get_prop_delete_prop_other (fs : list (string * value)) (j k : string) :
  k <> j -> get_prop (delete_prop fs j) k = get_prop fs k.
Proof.
  intros Hne. induction fs as [|[k' v] fs IH]; simpl; [reflexivity|].
  destruct (String.eqb_spec k' j) as [->|Hj].
  - rewrite IH. destruct (String.eqb_spec j k) as [->|]; congruence.
  - simpl. rewrite IH. reflexivity.
Qed.

Lemma has_prop_delete_prop_same (fs : list (string * value)) (k : string) :
  has_prop (delete_prop fs k) k = false.
Proof.
  induction fs as [|[k' v] fs IH]; simpl; [reflexivity|].
  destruct (String.eqb k' k) eqn:E; [exact IH|]. simpl. rewrite E. exact IH.
Qed.

Lemma get_prop_set_prop_same (fs : list (string * value)) (k : string) (v : value) :
  get_prop (set_prop fs k v) k = v.
Proof.
  induction fs as [|[k' v'] fs IH]; simpl.
  - rewrite String.eqb_refl. reflexivity.
  - destruct (String.eqb k' k) eqn:E; simpl; rewrite E; [reflexivity|exact IH].
Qed.

Lemma strict_equal_num (v : value) (n : Z) :
  strict_equal v (VNum n) = true -> v = VNum n.
Proof.
  destruct v; simpl; try discriminate. intros H. apply Z.eqb_eq in H. congruence.
Qed.

End PropertyFacts.

Section Projection.
Context {model : Model}.

(** Once the action is a number, a key with another number is refused. *)
Lemma check_actions_other_number (p : list (string * value)) (keys : list string)
  (k : string) (a b : Z) :
  In k keys -> get_prop p k = VNum b -> a <> b ->
  CursorOps.check_actions p keys (VNum a) = Throw InconsistentProjection.
Proof.
  intros Hin Hk Hab. induction keys as [|k' keys IH]; [destruct Hin|].
  simpl. destruct (strict_equal (get_prop p k') (VNum a)) eqn:E; simpl;
    [|reflexivity].
  apply strict_equal_num in E. rewrite E.
  destruct Hin as [->|Hin]; [congruence|]. apply IH. exact Hin.
Qed.

Lemma check_actions_mixed (p : list (string * value)) (keys : list string)
  (k1 k2 : string) :
  In k1 keys -> In k2 keys -> get_prop p k1 = VNum 1 -> get_prop p k2 = VNum 0 ->
  forall action, CursorOps.check_actions p keys action = Throw InconsistentProjection.
Proof.
  intros H1 H2 G1 G2. induction keys as [|k keys IH]; [destruct H1|].
  intros action. simpl.
  destruct (negb (strict_equal action VUndefined)
            && negb (strict_equal (get_prop p k) action)); [reflexivity|].
  destruct H1 as [->|H1].
  - rewrite G1. destruct H2 as [->|H2]; [congruence|].
    apply (check_actions_other_number p keys k2 1 0); auto. discriminate.
  - destruct H2 as [->|H2].
    + rewrite G2. apply (check_actions_other_number p keys k1 0 1); auto.
      discriminate.
    + apply IH; assumption.
Qed.

Lemma project_all_ids (keepId : bool) (keys : list string) (action : value) :
  forall candidates h res h',
    CursorOps.project_all keepId keys action candidates h = Ok (res, h') ->
    Forall2 (fun c r =>
               if keepId then get_field r "_id" = get_field c "_id"
               else has_prop (doc_fields r) "_id" = false)
            candidates res.
Proof.
  induction candidates as [|c candidates IH]; intros h res h' H; simpl in H.
  - injection H as <- _. constructor.
  - destruct (CursorOps.project_one keepId keys action c h) as [[toPush h1]|e] eqn:E1;
      [|discriminate].
    destruct (CursorOps.project_all keepId keys action candidates h1)
      as [[res' h2]|e] eqn:E2; [|discriminate].
    injection H as <- _. constructor; [|eapply IH; eauto].
    unfold CursorOps.project_one in E1.
    destruct (if strict_equal action (VNum 1) then _ else _) as [[d hd]|e];
      [|discriminate].
    injection E1 as <- _. destruct keepId.
    + apply get_prop_set_prop_same.
    + apply has_prop_delete_prop_same.
Qed.

(** C8. A projection that gives 1 to one field and 0 to another, neither
    being [_id], is refused as inconsistent, whatever the candidates. When
    a projection is applied, every result carries the [_id] of its
    candidate unless the projection holds [_id: 0], in which case no result
    has an [_id]; with no projection or an empty one the candidates are
    handed back untouched. Under the specified model, the projection
    [{a: 1, _id: 0}] yields for every document the object holding its [a]
    alone, or nothing when [a] reads as undefined. *)
Theorem projection_is_consistent_and_keeps_id_by_default :
  (forall (self : Cursor) (p : list (string * value)) (k1 k2 : string)
          (candidates : list doc) (h : nat),
      _projection self = Some p ->
      k1 <> "_id" -> k2 <> "_id" ->
      get_prop p k1 = VNum 1 -> get_prop p k2 = VNum 0 ->
      snd (CursorOps.project candidates h self) = Throw InconsistentProjection)
  /\ (forall (self self' : Cursor) (p : list (string * value))
             (candidates res : list doc) (h h' : nat),
         _projection self = Some p ->
         Object_keys p <> [] ->
         CursorOps.project candidates h self = (self', Ok (res, h')) ->
         Forall2 (fun c r =>
                    if strict_equal (get_prop p "_id") (VNum 0)
                    then has_prop (doc_fields r) "_id" = false
                    else get_field r "_id" = get_field c "_id")
                 candidates res)
  /\ (forall (self : Cursor) (candidates : list doc) (h : nat),
         _projection self = None \/ _projection self = Some [] ->
         CursorOps.project candidates h self = (self, Ok (candidates, h)))
  /\ (forall (self : Cursor) (c : doc) (h : nat),
         _projection self = Some [("a", VNum 1); ("_id", VNum 0)] ->
         snd (@CursorOps.project SpecModel.model [c] h self)
         = Ok ([Doc h (match SpecModel.getDotValue c "a" with
                       | VUndefined => []
                       | v => [("a", v)]
                       end)], S h)).
Proof.
  split; [|split; [|split]].
  - intros self p k1 k2 candidates h Hp N1 N2 G1 G2.
    unfold CursorOps.project, bind, get. rewrite Hp.
    assert (I1 : In k1 (Object_keys (delete_prop p "_id"))).
    { apply In_Object_keys, get_prop_defined_In.
      rewrite get_prop_delete_prop_other by exact N1. rewrite G1. discriminate. }
    assert (I2 : In k2 (Object_keys (delete_prop p "_id"))).
    { apply In_Object_keys, get_prop_defined_In.
      rewrite get_prop_delete_prop_other by exact N2. rewrite G2. discriminate. }
    assert (Hk : In k1 (Object_keys p)).
    { apply In_Object_keys, get_prop_defined_In. rewrite G1. discriminate. }
    destruct (Object_keys p) as [|k0 ks] eqn:Ek; [destruct Hk|].
    cbn [List.length Nat.eqb]. unfold put. cbn beta iota.
    rewrite (check_actions_mixed _ _ k1 k2 I1 I2).
    + reflexivity.
    + rewrite get_prop_delete_prop_other by exact N1. exact G1.
    + rewrite get_prop_delete_prop_other by exact N2. exact G2.
  - intros self self' p candidates res h h' Hp Hne H.
    unfold CursorOps.project, bind, get in H. rewrite Hp in H.
    destruct (Object_keys p) as [|k0 ks] eqn:Ek; [congruence|].
    cbn [List.length Nat.eqb] in H. unfold put in H. cbn beta iota in H.
    destruct (CursorOps.check_actions _ _ _) as [action|e]; [|discriminate].
    destruct (CursorOps.project_all _ _ _ _ _) as [[res0 h0]|e] eqn:E;
      [|discriminate].
    injection H as _ <- _.
    apply project_all_ids in E.
    destruct (strict_equal (get_prop p "_id") (VNum 0)); exact E.
  - intros self candidates h [Hp|Hp]; unfold CursorOps.project, bind, get;
      rewrite Hp; reflexivity.
  - intros self c h Hp. unfold CursorOps.project, bind, get. rewrite Hp.
    cbv -[SpecModel.getDotValue].
    destruct (SpecModel.getDotValue c "a"); reflexivity.
Qed.

End Projection.

Section DeepCopy.

(** A deep copy differs from its original in its addresses only. *)
Lemma deepCopy_erase (v : value) :
  forall h, erase (fst (deepCopy false v h)) = erase v.
Proof.
  induction v as [| | | | | |a elts IH|a fs IH] using value_induction;
    intros h; try reflexivity.
  - simpl.
    match goal with
    | |- context [?F elts (S h)] =>
        assert (H : forall l k, Forall (fun v => forall h, erase (fst (deepCopy false v h)) = erase v) l ->
                                map erase (fst (F l k)) = map erase l)
    end.
    { induction l as [|x l IHl]; intros k Hl; [reflexivity|].
      inversion Hl as [|? ? Hx Hl']; subst.
      specialize (Hx k). destruct (deepCopy false x k) as [x' h1].
      specialize (IHl h1 Hl').
      match goal with
      | |- context [let (_, _) := ?G in _] => destruct G as [rest' h2]
      end.
      simpl in *. rewrite Hx, IHl. reflexivity. }
    specialize (H elts (S h) IH).
    match goal with
    | |- context [let (_, _) := ?G in _] => destruct G as [elts' h']
    end.
    simpl in *. rewrite H. reflexivity.
  - simpl.
    match goal with
    | |- context [?F fs (S h)] =>
        assert (H : forall l k,
                   Forall (fun kv : string * value =>
                             forall h, erase (fst (deepCopy false (snd kv) h))
                                       = erase (snd kv)) l ->
                   map (fun kv : string * value => (fst kv, erase (snd kv)))
                       (fst (F l k))
                   = map (fun kv : string * value => (fst kv, erase (snd kv))) l)
    end.
    { induction l as [|[key x] l IHl]; intros k Hl; [reflexivity|].
      inversion Hl as [|? ? Hx Hl']; subst.
      specialize (Hx k). simpl in Hx. cbn [negb orb].
      destruct (deepCopy false x k) as [x' h1].
      specialize (IHl h1 Hl').
      match goal with
      | |- context [let (_, _) := ?G in _] => destruct G as [rest' h2]
      end.
      simpl in *. rewrite Hx, IHl. reflexivity. }
    specialize (H fs (S h) IH).
    match goal with
    | |- context [let (_, _) := ?G in _] => destruct G as [fs' h']
    end.
    simpl in *. rewrite H. reflexivity.
Qed.

Lemma deepCopy_object (strictKeys : bool) (r : nat) (fs : list (string * value))
  (h : nat) :
  exists fs' h', deepCopy strictKeys (VObj r fs) h = (VObj h fs', h').
Proof.
  simpl.
  match goal with
  | |- context [let (_, _) := ?G in _] => destruct G as [fs' h']
  end.
  exists fs', h'. reflexivity.
Qed.

(** The copy of a document sits at the first free address and has the
    content of the original. *)
Lemma deepCopyDoc_spec (d : doc) (h : nat) :
  doc_ref (fst (deepCopyDoc d h)) = h
  /\ erase (doc_value (fst (deepCopyDoc d h))) = erase (doc_value d).
Proof.
  pose proof (deepCopy_erase (doc_value d) h) as H.
  unfold deepCopyDoc. destruct d as [r fs]. unfold doc_value in *.
  cbn [doc_ref doc_fields] in *.
  destruct (deepCopy_object false r fs h) as (fs' & h' & E).
  rewrite E in *. cbn in *. split; [reflexivity|exact H].
Qed.

(** A deep copy occupies addresses that were free: every address of the
    copy lies between the first free address before the copy and the
    first free address after it. *)
Lemma deepCopy_fresh (b : bool) (v : value) :
  forall h,
    (h <= snd (deepCopy b v h))%nat
    /\ Forall (fun a => (h <= a < snd (deepCopy b v h))%nat)
              (addresses (fst (deepCopy b v h))).
Proof.
  induction v as [| | | | | |a elts IH|a fs IH] using value_induction;
    intros h; simpl.
  1-5: split; [lia|constructor].
  - split; [lia|]. constructor; [lia|constructor].
  - match goal with
    | |- context [?F elts (S h)] =>
        assert (H : forall l k,
                   Forall (fun v => forall h,
                             (h <= snd (deepCopy b v h))%nat
                             /\ Forall (fun a => (h <= a < snd (deepCopy b v h))%nat)
                                       (addresses (fst (deepCopy b v h)))) l ->
                   (k <= snd (F l k))%nat
                   /\ Forall (fun a => (k <= a < snd (F l k))%nat)
                             (flat_map addresses (fst (F l k))))
    end.
    { induction l as [|x l IHl]; intros k Hl; [simpl; split; [lia|constructor]|].
      inversion Hl as [|? ? Hx Hl']; subst.
      specialize (Hx k). destruct (deepCopy b x k) as [x' h1].
      specialize (IHl h1 Hl').
      match goal with
      | |- context [let (_, _) := ?G in _] => destruct G as [rest' h2]
      end.
      simpl in *. destruct Hx as [Hx1 Hx2], IHl as [I1 I2].
      split; [lia|]. apply Forall_app. split.
      - eapply Forall_impl; [|exact Hx2]. simpl. intros; lia.
      - eapply Forall_impl; [|exact I2]. simpl. intros; lia. }
    specialize (H elts (S h) IH).
    match goal with
    | |- context [let (_, _) := ?G in _] => destruct G as [elts' h']
    end.
    simpl in *. destruct H as [H1 H2]. split; [lia|].
    constructor; [lia|]. eapply Forall_impl; [|exact H2]. simpl. intros; lia.
  - match goal with
    | |- context [?F fs (S h)] =>
        assert (H : forall l k,
                   Forall (fun kv : string * value =>
                             forall h,
                               (h <= snd (deepCopy b (snd kv) h))%nat
                               /\ Forall (fun a => (h <= a < snd (deepCopy b (snd kv) h))%nat)
                                         (addresses (fst (deepCopy b (snd kv) h)))) l ->
                   (k <= snd (F l k))%nat
                   /\ Forall (fun a => (k <= a < snd (F l k))%nat)
                             (flat_map (fun kv : string * value => addresses (snd kv))
                                       (fst (F l k))))
    end.
    { induction l as [|[key x] l IHl]; intros k Hl; [simpl; split; [lia|constructor]|].
      inversion Hl as [|? ? Hx Hl']; subst.
      specialize (Hx k). simpl in Hx.
      destruct (negb b || strict_key key).
      - destruct (deepCopy b x k) as [x' h1].
        specialize (IHl h1 Hl').
        match goal with
        | |- context [let (_, _) := ?G in _] => destruct G as [rest' h2]
        end.
        simpl in *. destruct Hx as [Hx1 Hx2], IHl as [I1 I2].
        split; [lia|]. apply Forall_app. split.
        + eapply Forall_impl; [|exact Hx2]. simpl. intros; lia.
        + eapply Forall_impl; [|exact I2]. simpl. intros; lia.
      - apply IHl. exact Hl'. }
    specialize (H fs (S h) IH).
    match goal with
    | |- context [let (_, _) := ?G in _] => destruct G as [fs' h']
    end.
    simpl in *. destruct H as [H1 H2]. split; [lia|].
    constructor; [lia|]. eapply Forall_impl; [|exact H2]. simpl. intros; lia.
Qed.

Lemma deepCopyDoc_fresh (d : doc) (h : nat) :
  Forall (fun a => (h <= a < snd (deepCopyDoc d h))%nat)
         (addresses (doc_value (fst (deepCopyDoc d h)))).
Proof.
  pose proof (deepCopy_fresh false (doc_value d) h) as [_ H].
  unfold deepCopyDoc. destruct d as [r fs]. unfold doc_value in *.
  cbn [doc_ref doc_fields] in *.
  destruct (deepCopy_object false r fs h) as (fs' & h' & E).
  rewrite E in *. exact H.
Qed.

End DeepCopy.

Section FindOne.
Context {model : Model} {env : Env}.

Lemma collect_no_match (self : Cursor) (candidates : list doc) :
  (forall d, In d candidates -> match_doc d (query self) = Ok false) ->
  forall skipped added, CursorOps.collect self candidates skipped added = Ok [].
Proof.
  induction candidates as [|c cs IH]; intros H skipped added; [reflexivity|].
  simpl. rewrite (H c (or_introl eq_refl)). apply IH.
  intros d Hd. apply H. right. exact Hd.
Qed.

Lemma collect_first_match (self : Cursor) (pre post : list doc) (d : doc)
  (skipped added : nat) :
  _sort self = None ->
  CursorOps.still_skipping self skipped = false ->
  CursorOps.limit_reached self (S added) = true ->
  (forall x, In x pre -> match_doc x (query self) = Ok false) ->
  match_doc d (query self) = Ok true ->
  CursorOps.collect self (pre ++ d :: post) skipped added = Ok [d].
Proof.
  intros Hsort Hskip Hlimit Hpre Hd.
  induction pre as [|x pre IH]; simpl.
  - rewrite Hd, Hsort, Hskip, Hlimit. reflexivity.
  - rewrite (Hpre x (or_introl eq_refl)). apply IH.
    intros y Hy. apply Hpre. right. exact Hy.
Qed.

(** One run of a cursor, step by step. *)
Lemma exec_run (c c' : Cursor) (db db1 : MemoryDB) (candidates res : list doc)
  (projected : result (list doc * nat)) :
  MemoryDBOps.getCandidates (query c) false db = (db1, Ok candidates) ->
  CursorOps.collect c candidates 0 0 = Ok res ->
  CursorOps.project (CursorOps.sorted_and_sliced c (compareStrings db1) res)
                    (heap db1) c = (c', projected) ->
  StoreOps.exec c db
  = match projected with
    | Throw e => (db1, Throw e)
    | Ok (res', h1) =>
        let (s, r) := CursorOps.run_handler (execFn c) res'
                        (c', MemoryDBOps.set_heap db1 h1) in
        (snd s, r)
    end.
Proof.
  intros Hc Hcollect Hproject.
  unfold StoreOps.exec, CursorOps._exec.
  unfold bind at 1, get at 1. cbn [fst snd].
  unfold bind at 1, CursorOps.on_db at 1. cbn [fst snd]. rewrite Hc.
  rewrite Hcollect.
  unfold bind at 1, get at 1. cbn [fst snd].
  unfold bind at 1, CursorOps.on_cursor at 1. cbn [fst snd]. rewrite Hproject.
  destruct projected as [[res' h1]|e]; [|reflexivity].
  unfold bind at 1, CursorOps.on_db at 1. cbn [fst snd].
  unfold bind at 1, get at 1, put. cbn [fst snd].
  reflexivity.
Qed.

(** C10. When the candidates are obtained and the projection is empty or
    consistent (a projection that mixes inclusion and exclusion fails
    whatever the query: this is the subject of C8), [findOne] yields null
    if no candidate matches, and leaves the store as the search for
    candidates left it.  When some candidate matches, the limit of 1
    keeps the first match alone and [findOne] yields a deep copy of it,
    of its projection when there is one: a document with the same
    content, made at the first free address, all of whose addresses were
    free before the copy, so that it shares no object with the store. *)
Theorem findOne_yields_null_or_a_copy :
  forall (q : value) (projection : list (string * value)) (db db1 : MemoryDB)
         (candidates : list doc),
    let c := StoreOps.findOne q projection in
    MemoryDBOps.getCandidates (query c) false db = (db1, Ok candidates) ->
    ((forall d, In d candidates -> match_doc d (query c) = Ok false) ->
     consistent_projection projection ->
     StoreOps.exec c db = (db1, Ok Null))
    /\ (forall (pre post : list doc) (d : doc),
           candidates = pre ++ d :: post ->
           (forall x, In x pre -> match_doc x (query c) = Ok false) ->
           match_doc d (query c) = Ok true ->
           Object_keys projection = [] ->
           let copy := fst (deepCopyDoc d (heap db1)) in
           StoreOps.exec c db
           = (MemoryDBOps.set_heap db1 (snd (deepCopyDoc d (heap db1))),
              Ok (OneDoc copy))
           /\ doc_ref copy = heap db1
           /\ erase (doc_value copy) = erase (doc_value d)
           /\ Forall (fun a => (heap db1 <= a < snd (deepCopyDoc d (heap db1)))%nat)
                     (addresses (doc_value copy)))
    /\ (forall (pre post : list doc) (d d' : doc) (c' : Cursor) (h1 : nat),
           candidates = pre ++ d :: post ->
           (forall x, In x pre -> match_doc x (query c) = Ok false) ->
           match_doc d (query c) = Ok true ->
           CursorOps.project [d] (heap db1) c = (c', Ok ([d'], h1)) ->
           let copy := fst (deepCopyDoc d' h1) in
           StoreOps.exec c db
           = (MemoryDBOps.set_heap db1 (snd (deepCopyDoc d' h1)), Ok (OneDoc copy))
           /\ doc_ref copy = h1
           /\ erase (doc_value copy) = erase (doc_value d')
           /\ Forall (fun a => (h1 <= a < snd (deepCopyDoc d' h1))%nat)
                     (addresses (doc_value copy))).
Proof.
  intros q projection db db1 candidates c Hc.
  assert (Hany :
    forall (pre post : list doc) (d d' : doc) (c' : Cursor) (h1 : nat),
      candidates = pre ++ d :: post ->
      (forall x, In x pre -> match_doc x (query c) = Ok false) ->
      match_doc d (query c) = Ok true ->
      CursorOps.project [d] (heap db1) c = (c', Ok ([d'], h1)) ->
      StoreOps.exec c db
      = (MemoryDBOps.set_heap db1 (snd (deepCopyDoc d' h1)),
         Ok (OneDoc (fst (deepCopyDoc d' h1))))
      /\ doc_ref (fst (deepCopyDoc d' h1)) = h1
      /\ erase (doc_value (fst (deepCopyDoc d' h1))) = erase (doc_value d')
      /\ Forall (fun a => (h1 <= a < snd (deepCopyDoc d' h1))%nat)
                (addresses (doc_value (fst (deepCopyDoc d' h1))))).
  { intros pre post d d' c' h1 -> Hpre Hd Hp.
    assert (Hcollect : CursorOps.collect c (pre ++ d :: post) 0 0 = Ok [d]).
    { apply collect_first_match; auto. }
    rewrite (exec_run c c' db db1 _ [d] _ Hc Hcollect Hp).
    cbn [c StoreOps.findOne CursorOps.limit CursorOps.projection CursorOps.new
         execFn CursorOps.run_handler].
    unfold bind, CursorOps.on_db, MemoryDBOps.alloc, ret. cbn [fst snd heap
      MemoryDBOps.set_heap].
    destruct (deepCopyDoc_spec d' h1) as [Hr He].
    pose proof (deepCopyDoc_fresh d' h1) as Hfresh.
    destruct (deepCopyDoc d' h1) as [cp h2] eqn:E. cbn [fst snd] in *.
    split; [destruct db1; reflexivity|].
    split; [exact Hr|]. split; [exact He|exact Hfresh]. }
  split; [|split].
  - intros Hnone [action Hcons].
    pose proof (collect_no_match c candidates Hnone 0%nat 0%nat) as Hcollect.
    assert (Hp : exists c', CursorOps.project [] (heap db1) c
                            = (c', Ok ([], heap db1))).
    { unfold CursorOps.project, bind, get. cbn [c StoreOps.findOne CursorOps.limit
        CursorOps.projection _projection].
      destruct (Nat.eqb (List.length (Object_keys projection)) 0).
      - eexists. reflexivity.
      - unfold put. cbn beta iota. rewrite Hcons. cbn. eexists. reflexivity. }
    destruct Hp as [c' Hp].
    rewrite (exec_run c c' db db1 candidates [] _ Hc Hcollect Hp).
    cbn. rewrite set_heap_same. reflexivity.
  - intros pre post d Hsplit Hpre Hd Hempty copy.
    apply (Hany pre post d d c (heap db1) Hsplit Hpre Hd).
    unfold CursorOps.project, bind, get.
    cbn [c StoreOps.findOne CursorOps.limit CursorOps.projection _projection].
    rewrite Hempty. reflexivity.
  - intros pre post d d' c' h1 Hsplit Hpre Hd Hp copy.
    exact (Hany pre post d d' c' h1 Hsplit Hpre Hd Hp).
Qed.

End FindOne.

Section StableSort.
Context {A : Type}.
Variable compare : A -> A -> Z.
Variable dom : A -> Prop.
Hypothesis compare_total :
  forall a b, dom a -> dom b -> 0 < compare a b -> compare b a <= 0.
Hypothesis compare_trans :
  forall a b c, dom a -> dom b -> dom c ->
                compare a b <= 0 -> compare b c <= 0 -> compare a c <= 0.







End StableSort.

Section SortedCursor.
Context {model : Model} {env : Env}.




End SortedCursor.

Section LexFacts.
Context {A : Type}.
Variable cmp : A -> A -> Z.

Lemma lex_refl (xs : list A) :
  Forall (fun x => cmp x x = 0) xs -> SpecModel.lex_compare cmp xs xs = 0.
Proof.
  induction 1 as [|x xs Hx _ IH]; simpl; [reflexivity|].
  rewrite Hx. simpl. exact IH.
Qed.

Lemma lex_antisym (xs : list A) :
  Forall (fun x => forall y, cmp y x = - cmp x y) xs ->
  forall ys, SpecModel.lex_compare cmp ys xs = - SpecModel.lex_compare cmp xs ys.
Proof.
  induction 1 as [|x xs Hx _ IH]; intros [|y ys]; simpl; try reflexivity.
  rewrite (Hx y), IH.
  destruct (Z.eqb_spec (cmp x y) 0) as [E|E].
  - rewrite E. reflexivity.
  - destruct (Z.eqb_spec (- cmp x y) 0); [lia|reflexivity].
Qed.

Lemma lex_eq_compat (xs : list A) :
  Forall (fun x => forall y z, cmp x y = 0 -> cmp x z = cmp y z) xs ->
  forall ys zs, SpecModel.lex_compare cmp xs ys = 0 ->
                SpecModel.lex_compare cmp xs zs = SpecModel.lex_compare cmp ys zs.
Proof.
  induction 1 as [|x xs Hx _ IH]; intros [|y ys] zs; simpl; try discriminate;
    try reflexivity.
  destruct (Z.eqb_spec (cmp x y) 0) as [E|E]; [|congruence].
  intros H. destruct zs as [|z zs]; [reflexivity|].
  rewrite (Hx y z E). destruct (cmp y z =? 0); [apply IH; exact H|reflexivity].
Qed.

Lemma lex_eq_compat_r (xs : list A) :
  Forall (fun x => forall y z, cmp y z = 0 -> cmp x y = cmp x z) xs ->
  forall ys zs, SpecModel.lex_compare cmp ys zs = 0 ->
                SpecModel.lex_compare cmp xs ys = SpecModel.lex_compare cmp xs zs.
Proof.
  induction 1 as [|x xs Hx _ IH]; intros [|y ys] [|z zs]; simpl; try discriminate;
    try reflexivity.
  destruct (Z.eqb_spec (cmp y z) 0) as [E|E]; [|congruence].
  intros H. rewrite (Hx y z E).
  destruct (cmp x z =? 0); [apply IH; exact H|reflexivity].
Qed.

Lemma lex_lt_trans (xs : list A) :
  Forall (fun x => (forall y z, cmp x y = 0 -> cmp x z = cmp y z)
                   /\ (forall y z, cmp y z = 0 -> cmp x y = cmp x z)
                   /\ (forall y z, cmp x y < 0 -> cmp y z < 0 -> cmp x z < 0)) xs ->
  forall ys zs, SpecModel.lex_compare cmp xs ys < 0 ->
                SpecModel.lex_compare cmp ys zs < 0 ->
                SpecModel.lex_compare cmp xs zs < 0.
Proof.
  induction 1 as [|x xs (H1 & H2 & H3) _ IH]; intros [|y ys] [|z zs]; simpl;
    try lia.
  destruct (Z.eqb_spec (cmp x y) 0) as [Exy|Exy];
    destruct (Z.eqb_spec (cmp y z) 0) as [Eyz|Eyz]; intros Hxy Hyz.
  - rewrite (H1 y z Exy), Eyz. simpl. eapply IH; eauto.
  - rewrite (H1 y z Exy). destruct (Z.eqb_spec (cmp y z) 0); [lia|exact Hyz].
  - rewrite <- (H2 y z Eyz). destruct (Z.eqb_spec (cmp x y) 0); [lia|exact Hxy].
  - pose proof (H3 y z Hxy Hyz) as H.
    destruct (Z.eqb_spec (cmp x z) 0); [lia|exact H].
Qed.

End LexFacts.

Section SpecModelOrder.

Ltac nsb :=
  unfold SpecModel.compareNSB in *;
  repeat match goal with
         | |- context [?a <? ?b] => destruct (Z.ltb_spec a b)
         | H : context [?a <? ?b] |- _ => destruct (Z.ltb_spec a b)
         end; try lia.

Lemma lex_laws {A} (cmp : A -> A -> Z) (xs : list A) :
  Forall (order_laws_at cmp) xs -> order_laws_at (SpecModel.lex_compare cmp) xs.
Proof.
  intros H. repeat split; intros.
  - apply lex_refl. eapply Forall_impl; [|exact H]. intros a Ha. apply Ha.
  - apply lex_antisym. eapply Forall_impl; [|exact H]. intros a Ha. apply Ha.
  - apply lex_eq_compat; auto. eapply Forall_impl; [|exact H]. intros a Ha. apply Ha.
  - apply lex_eq_compat_r; auto. eapply Forall_impl; [|exact H]. intros a Ha. apply Ha.
  - eapply lex_lt_trans; eauto. eapply Forall_impl; [|exact H]. intros a Ha.
    repeat split; apply Ha.
Qed.

Lemma compare_chars_laws (x : ascii) : order_laws_at SpecModel.compare_chars x.
Proof.
  unfold order_laws_at, SpecModel.compare_chars. repeat split; intros; nsb.
Qed.

Lemma compare_strings_laws (x : string) : order_laws_at SpecModel.compare_strings x.
Proof.
  unfold SpecModel.compare_strings.
  pose proof (lex_laws SpecModel.compare_chars (list_ascii_of_string x)) as H.
  assert (F : Forall (order_laws_at SpecModel.compare_chars) (list_ascii_of_string x)).
  { apply Forall_forall. intros c _. apply compare_chars_laws. }
  destruct (H F) as (H1 & H2 & H3 & H4 & H5).
  repeat split; intros.
  - exact H1.
  - apply H2.
  - apply H3; assumption.
  - apply H4; assumption.
  - eapply H5; eassumption.
Qed.

(** Pairs compared by their first component, then by their second. *)
Lemma pair_laws {A} (cmp : A -> A -> Z) (k : string) (v : A) :
  order_laws_at cmp v ->
  order_laws_at
    (fun (p q : string * A) =>
       let (kp, vp) := p in
       let (kq, vq) := q in
       if SpecModel.compare_strings kp kq =? 0 then cmp vp vq
       else SpecModel.compare_strings kp kq)
    (k, v).
Proof.
  intros (V1 & V2 & V3 & V4 & V5).
  destruct (compare_strings_laws k) as (K1 & K2 & K3 & K4 & K5).
  repeat split.
  - rewrite K1. exact V1.
  - intros [ky vy]. rewrite (K2 ky), (V2 vy).
    destruct (Z.eqb_spec (SpecModel.compare_strings k ky) 0) as [E|E].
    + rewrite E. reflexivity.
    + destruct (Z.eqb_spec (- SpecModel.compare_strings k ky) 0); [lia|reflexivity].
  - intros [ky vy] [kz vz].
    destruct (Z.eqb_spec (SpecModel.compare_strings k ky) 0) as [E|E]; [|congruence].
    intros H. rewrite (K3 ky kz E), (V3 vy vz H). reflexivity.
  - intros [ky vy] [kz vz].
    destruct (Z.eqb_spec (SpecModel.compare_strings ky kz) 0) as [E|E]; [|congruence].
    intros H. rewrite (K4 ky kz E), (V4 vy vz H). reflexivity.
  - intros [ky vy] [kz vz].
    destruct (Z.eqb_spec (SpecModel.compare_strings k ky) 0) as [Exy|Exy];
      destruct (Z.eqb_spec (SpecModel.compare_strings ky kz) 0) as [Eyz|Eyz];
      intros Hxy Hyz.
    + rewrite (K3 ky kz Exy), Eyz. simpl. eapply V5; eauto.
    + rewrite (K3 ky kz Exy).
      destruct (Z.eqb_spec (SpecModel.compare_strings ky kz) 0); [lia|exact Hyz].
    + rewrite <- (K4 ky kz Eyz).
      destruct (Z.eqb_spec (SpecModel.compare_strings k ky) 0); [lia|exact Hxy].
    + pose proof (K5 ky kz Hxy Hyz) as H.
      destruct (Z.eqb_spec (SpecModel.compare_strings k kz) 0); [lia|exact H].
Qed.

(** The specified comparison of values is a total preorder. *)
Lemma compareThings_laws (a : value) :
  order_laws_at (fun x y => SpecModel.compareThings x y None) a.
Proof.
  induction a as [| | | | | |r xs IH|r fs IH] using value_induction.
  1-3, 5-6:
    (split; [|split; [|split; [|split]]];
     [ simpl; try reflexivity; nsb; destruct b; reflexivity
     | intros y; destruct y; simpl; try reflexivity; nsb;
       repeat match goal with b : bool |- _ => destruct b end; reflexivity
     | intros y z; destruct y; simpl; try discriminate; intros H;
       destruct z; simpl; try reflexivity;
       repeat match goal with b : bool |- _ => destruct b end;
       simpl in *; try discriminate; try reflexivity; nsb
     | intros y z; destruct y, z; simpl; try discriminate; try reflexivity;
       intros H;
       repeat match goal with b : bool |- _ => destruct b end;
       simpl in *; try discriminate; try reflexivity; nsb
     | intros y z; destruct y; simpl; try discriminate; try lia; intros H;
       destruct z; simpl; try discriminate; try lia;
       repeat match goal with b : bool |- _ => destruct b end;
       simpl in *; try discriminate; try lia; nsb ]).
  - destruct (compare_strings_laws s) as (K1 & K2 & K3 & K4 & K5).
    split; [|split; [|split; [|split]]].
    + exact K1.
    + intros y; destruct y; simpl; try reflexivity. apply K2.
    + intros y z; destruct y; simpl; try discriminate; intros H.
      destruct z; simpl; try reflexivity. apply K3; exact H.
    + intros y z; destruct y, z; simpl; intros H; try discriminate;
        try reflexivity; try (nsb; fail).
      apply K4; exact H.
    + intros y z; destruct y; simpl; intros H; try lia;
        destruct z; simpl; intros H'; try lia; try (nsb; fail).
      eapply K5; eauto.
  - destruct (lex_laws _ xs IH) as (K1 & K2 & K3 & K4 & K5).
    split; [|split; [|split; [|split]]].
    + exact K1.
    + intros y; destruct y; simpl; try reflexivity. apply K2.
    + intros y z; destruct y; simpl; try discriminate; intros H.
      destruct z; simpl; try reflexivity. apply K3; exact H.
    + intros y z; destruct y, z; simpl; intros H; try discriminate;
        try reflexivity; try (nsb; fail).
      apply K4; exact H.
    + intros y z; destruct y; simpl; intros H; try lia;
        destruct z; simpl; intros H'; try lia; try (nsb; fail).
      eapply K5; eauto.
  - assert (IH' : Forall (order_laws_at
                  (fun (p q : string * value) =>
                     let (kp, vp) := p in
                     let (kq, vq) := q in
                     if SpecModel.compare_strings kp kq =? 0
                     then SpecModel.compareThings vp vq None
                     else SpecModel.compare_strings kp kq)) fs).
    { eapply Forall_impl; [|exact IH]. intros [k v] Hv.
      apply (pair_laws (fun x y => SpecModel.compareThings x y None) k v Hv). }
    destruct (lex_laws _ fs IH') as (K1 & K2 & K3 & K4 & K5).
    split; [|split; [|split; [|split]]].
    + exact K1.
    + intros y; destruct y; simpl; try reflexivity. apply K2.
    + intros y z; destruct y; simpl; try discriminate; intros H.
      destruct z; simpl; try reflexivity. apply K3; exact H.
    + intros y z; destruct y, z; simpl; intros H; try discriminate;
        try reflexivity; try (nsb; fail).
      apply K4; exact H.
    + intros y z; destruct y; simpl; intros H; try lia;
        destruct z; simpl; intros H'; try lia; try (nsb; fail).
      eapply K5; eauto.
Qed.

Lemma spec_model_order : KeyOrder SpecModel.model.
Proof.
  constructor; intros.
  - apply (compareThings_laws a).
  - apply (compareThings_laws a).
  - apply (compareThings_laws a). assumption.
  - eapply (compareThings_laws a); eassumption.
Qed.

End SpecModelOrder.

Section TreeFacts.
Context {model : Model} {order : KeyOrder model}.

#[local] Abbreviation cmp := IndexOps.compareKeys.

Lemma cmp_refl (a : value) : cmp a a = 0.
Proof. apply compare_refl. Qed.

Lemma cmp_antisym (a b : value) : cmp b a = - cmp a b.
Proof. apply compare_antisym. Qed.

Lemma cmp_compat_l (a b c : value) : cmp a b = 0 -> cmp a c = cmp b c.
Proof. apply compare_eq_compat. Qed.

Lemma cmp_compat_r (a b c : value) : cmp b c = 0 -> cmp a b = cmp a c.
Proof.
  intros H. rewrite (cmp_antisym b a), (cmp_antisym c a).
  f_equal. apply cmp_compat_l. exact H.
Qed.

Lemma cmp_lt_trans (a b c : value) : cmp a b < 0 -> cmp b c < 0 -> cmp a c < 0.
Proof. apply compare_lt_trans. Qed.

Lemma cmp_sym (a b : value) : cmp a b = 0 -> cmp b a = 0.
Proof. intros H. rewrite cmp_antisym, H. reflexivity. Qed.

Lemma below_lt (a b : value) (t : BinarySearchTree.tree) :
  cmp a b < 0 -> below b t -> below a t.
Proof.
  intros H. unfold below. apply Forall_impl. intros n Hn.
  eapply cmp_lt_trans; eauto.
Qed.

Lemma below_eq (a b : value) (t : BinarySearchTree.tree) :
  cmp a b = 0 -> below b t -> below a t.
Proof.
  intros H. unfold below. apply Forall_impl. intros n Hn.
  rewrite (cmp_compat_l a b _ H). exact Hn.
Qed.

Lemma content_below (k : value) (t : BinarySearchTree.tree) :
  below k t -> content t k = [].
Proof.
  intros H. destruct H as [|[k0 d0] rest H0 _]; [reflexivity|].
  unfold content. simpl in *.
  destruct (Z.eqb_spec (cmp k k0) 0); [lia|].
  destruct (Z.ltb_spec (cmp k k0) 0); [reflexivity|lia].
Qed.

Lemma sorted_inv (n : BinarySearchTree.node) (t : BinarySearchTree.tree) :
  sorted (n :: t) -> sorted t /\ below (fst n) t.
Proof. intros H. inversion H; subst. split; assumption. Qed.

Lemma sorted_cons (n : BinarySearchTree.node) (t : BinarySearchTree.tree) :
  sorted t -> below (fst n) t -> sorted (n :: t).
Proof. intros H1 H2. constructor; assumption. Qed.

Lemma content_nil (k : value) : content [] k = [].
Proof. reflexivity. Qed.

(** The walk of [search] at one node. *)
Lemma content_cons (k k0 : value) (d0 : list doc) (rest : BinarySearchTree.tree) :
  content ((k0, d0) :: rest) k
  = if cmp k k0 =? 0 then d0 else if cmp k k0 <? 0 then [] else content rest k.
Proof. reflexivity. Qed.

(** A successful insertion appends the document under its key and
    nowhere else. *)
Lemma insert_spec (u : bool) (key : value) (d : doc) :
  forall t t',
    sorted t ->
    BinarySearchTree.insert cmp u key d t = Ok t' ->
    sorted t'
    /\ (forall k, content t' k
                  = content t k ++ (if cmp k key =? 0 then [d] else []))
    /\ (forall b, cmp b key < 0 -> below b t -> below b t')
    /\ (no_empty_node t -> no_empty_node t').
Proof.
  induction t as [|[k0 d0] rest IH]; intros t' Hs H; simpl in H.
  - injection H as <-. repeat split.
    + constructor; constructor.
    + intros k. unfold content. simpl.
      destruct (cmp k key =? 0); [reflexivity|].
      destruct (cmp k key <? 0); reflexivity.
    + intros b Hb _. constructor; [exact Hb|constructor].
    + intros _. constructor; [discriminate|constructor].
  - destruct (sorted_inv _ _ Hs) as [Hs' Hb0]. simpl in Hb0.
    destruct (Z.eqb_spec (cmp k0 key) 0) as [E0|E0].
    + destruct u; [discriminate|]. injection H as <-. repeat split.
      * apply sorted_cons; assumption.
      * intros k. rewrite !content_cons.
        rewrite <- (cmp_compat_r k k0 key E0).
        destruct (cmp k k0 =? 0); [reflexivity|]. rewrite app_nil_r. reflexivity.
      * intros b Hb Hbt. inversion Hbt; subst. constructor; assumption.
      * intros Hn. inversion Hn; subst. constructor; [|assumption].
        simpl. destruct d0; discriminate.
    + destruct (Z.ltb_spec (cmp key k0) 0) as [L|L].
      * injection H as <-. repeat split.
        -- apply sorted_cons; [exact Hs|]. constructor; [exact L|].
           eapply below_lt; eauto.
        -- intros k. rewrite (content_cons k key).
           destruct (Z.eqb_spec (cmp k key) 0) as [E|E].
           ++ rewrite content_below; [reflexivity|].
              apply (below_eq k key); [exact E|].
              constructor; [exact L|]. eapply below_lt; eauto.
           ++ rewrite app_nil_r.
              destruct (Z.ltb_spec (cmp k key) 0) as [L'|L']; [|reflexivity].
              symmetry. apply content_below.
              apply (below_lt k key); [exact L'|].
              constructor; [exact L|]. eapply below_lt; eauto.
        -- intros b Hb Hbt. constructor; assumption.
        -- intros Hn. constructor; [discriminate|assumption].
      * destruct (BinarySearchTree.insert cmp u key d rest) as [rest'|e] eqn:E;
          [|discriminate].
        injection H as <-.
        assert (G : cmp k0 key < 0).
        { rewrite (cmp_antisym key k0). rewrite (cmp_antisym key k0) in E0.
          assert (cmp key k0 <> 0) by (intros X; rewrite X in E0; lia). lia. }
        destruct (IH rest' Hs' eq_refl) as (S' & C' & B' & N').
        repeat split.
        -- apply sorted_cons; [exact S'|]. apply B'; assumption.
        -- intros k. rewrite !content_cons.
           destruct (Z.eqb_spec (cmp k k0) 0) as [E1|E1].
           ++ rewrite (cmp_compat_l k k0 key E1).
              destruct (Z.eqb_spec (cmp k0 key) 0); [lia|].
              rewrite app_nil_r. reflexivity.
           ++ destruct (Z.ltb_spec (cmp k k0) 0) as [L1|L1].
              ** pose proof (cmp_lt_trans k k0 key L1 G).
                 destruct (Z.eqb_spec (cmp k key) 0); [lia|reflexivity].
              ** apply C'.
        -- intros b Hb Hbt. inversion Hbt; subst.
           constructor; [assumption|]. apply B'; assumption.
        -- intros Hn. inversion Hn; subst. constructor; [assumption|].
           apply N'. assumption.
Qed.

(** An insertion is refused only by a unique tree that already holds the
    key. *)
Lemma insert_throw (u : bool) (key : value) (d : doc) :
  forall t e,
    BinarySearchTree.insert cmp u key d t = Throw e ->
    u = true /\ e = UniqueViolated key
    /\ (no_empty_node t -> content t key <> []).
Proof.
  induction t as [|[k0 d0] rest IH]; intros e H; simpl in H; [discriminate|].
  destruct (Z.eqb_spec (cmp k0 key) 0) as [E0|E0].
  - destruct u; [|discriminate]. injection H as <-.
    split; [reflexivity|]. split; [reflexivity|].
    intros Hn. inversion Hn; subst. rewrite content_cons.
    rewrite (cmp_sym _ _ E0). simpl. assumption.
  - destruct (Z.ltb_spec (cmp key k0) 0) as [L|L]; [discriminate|].
    destruct (BinarySearchTree.insert cmp u key d rest) as [rest'|e'] eqn:E;
      [discriminate|].
    injection H as <-. destruct (IH e' eq_refl) as (U & Ee & C).
    split; [exact U|]. split; [exact Ee|].
    intros Hn. inversion Hn; subst. rewrite content_cons.
    destruct (Z.eqb_spec (cmp key k0) 0) as [E1|E1].
    + apply cmp_sym in E1. contradiction.
    + destruct (Z.ltb_spec (cmp key k0) 0); [lia|]. apply C. assumption.
Qed.

Lemma insert_ok (u : bool) (key : value) (d : doc) :
  forall t,
    no_empty_node t ->
    u = false \/ content t key = [] ->
    exists t', BinarySearchTree.insert cmp u key d t = Ok t'.
Proof.
  induction t as [|[k0 d0] rest IH]; intros Hn H; simpl.
  - eexists. reflexivity.
  - inversion Hn as [|? ? D0 Hn']; subst. simpl in D0.
    destruct (Z.eqb_spec (cmp k0 key) 0) as [E0|E0].
    + destruct H as [->|H]; [eexists; reflexivity|].
      rewrite content_cons, (cmp_sym _ _ E0) in H. simpl in H. contradiction.
    + destruct (Z.ltb_spec (cmp key k0) 0) as [L|L]; [eexists; reflexivity|].
      destruct (IH Hn') as [rest' E].
      * destruct H as [H|H]; [left; exact H|right].
        rewrite content_cons in H.
        destruct (Z.eqb_spec (cmp key k0) 0) as [E1|E1].
        -- apply cmp_sym in E1. contradiction.
        -- destruct (Z.ltb_spec (cmp key k0) 0); [lia|exact H].
      * rewrite E. eexists. reflexivity.
Qed.

(** A deletion changes the documents under its key only. *)
Lemma delete_spec (key : value) (d : doc) :
  forall t,
    sorted t ->
    let t' := BinarySearchTree.delete cmp checkValueEquality key d t in
    sorted t'
    /\ (forall k, content t' k
                  = if cmp k key =? 0 then rem d (content t k) else content t k)
    /\ (forall b, below b t -> below b t')
    /\ (no_empty_node t ->
        ((1 < List.length (content t key))%nat -> without d (content t key) <> []) ->
        no_empty_node t').
Proof.
  induction t as [|[k0 d0] rest IH]; intros Hs; simpl.
  - repeat split; auto.
    intros k. destruct (cmp k key =? 0); reflexivity.
  - destruct (sorted_inv _ _ Hs) as [Hs' Hb0]. simpl in Hb0.
    destruct (Z.eqb_spec (cmp key k0) 0) as [E0|E0].
    + destruct (Nat.ltb_spec 1 (List.length d0)) as [L|L].
      * repeat split.
        -- apply sorted_cons; assumption.
        -- intros k. rewrite !content_cons.
           rewrite (cmp_compat_r k key k0 E0).
           destruct (cmp k k0 =? 0); [|reflexivity].
           unfold rem. destruct (Nat.ltb_spec 1 (List.length d0)); [reflexivity|lia].
        -- intros b Hbt. inversion Hbt; subst. constructor; assumption.
        -- intros Hn Hne. inversion Hn; subst. constructor; [|assumption].
           simpl. rewrite content_cons, E0 in Hne. simpl in Hne. auto.
      * repeat split.
        -- exact Hs'.
        -- intros k. rewrite content_cons.
           rewrite (cmp_compat_r k key k0 E0).
           destruct (Z.eqb_spec (cmp k k0) 0) as [E1|E1].
           ++ unfold rem. destruct (Nat.ltb_spec 1 (List.length d0)); [lia|].
              apply content_below. eapply below_eq; eauto.
           ++ destruct (Z.ltb_spec (cmp k k0) 0) as [L1|L1]; [|reflexivity].
              apply content_below. eapply below_lt; eauto.
        -- intros b Hbt. inversion Hbt; subst. assumption.
        -- intros Hn _. inversion Hn; subst. assumption.
    + destruct (Z.ltb_spec (cmp key k0) 0) as [L|L].
      * repeat split; auto.
        intros k. destruct (Z.eqb_spec (cmp k key) 0) as [E|E]; [|reflexivity].
        rewrite content_below; [reflexivity|].
        apply (below_eq k key); [exact E|].
        constructor; [exact L|]. eapply below_lt; eauto.
      * destruct (IH Hs') as (S' & C' & B' & N').
        assert (G : cmp k0 key < 0) by (rewrite (cmp_antisym key k0); lia).
        repeat split.
        -- apply sorted_cons; [exact S'|]. apply B'. exact Hb0.
        -- intros k. rewrite !content_cons.
           destruct (Z.eqb_spec (cmp k k0) 0) as [E1|E1].
           ++ rewrite (cmp_compat_l k k0 key E1).
              destruct (Z.eqb_spec (cmp k0 key) 0); [lia|reflexivity].
           ++ destruct (Z.ltb_spec (cmp k k0) 0) as [L1|L1].
              ** pose proof (cmp_lt_trans k k0 key L1 G).
                 destruct (Z.eqb_spec (cmp k key) 0); [lia|reflexivity].
              ** apply C'.
        -- intros b Hbt. inversion Hbt; subst.
           constructor; [assumption|]. apply B'; assumption.
        -- intros Hn Hne. inversion Hn; subst. constructor; [assumption|].
           apply N'; [assumption|].
           rewrite content_cons in Hne.
           destruct (Z.eqb_spec (cmp key k0) 0); [contradiction|].
           destruct (Z.ltb_spec (cmp key k0) 0); [lia|exact Hne].
Qed.

(** Two well-formed trees that hold the same documents under every key
    have the same in-order traversal. *)
Lemma content_ext :
  forall t1 t2,
    wf_tree t1 -> wf_tree t2 ->
    (forall k, content t1 k = content t2 k) ->
    flat_map (fun n : BinarySearchTree.node => snd n) t1
    = flat_map (fun n : BinarySearchTree.node => snd n) t2.
Proof.
  induction t1 as [|[k1 d1] r1 IH]; intros [|[k2 d2] r2] [S1 N1] [S2 N2] H.
  - reflexivity.
  - exfalso. inversion N2; subst. specialize (H k2).
    rewrite content_cons, cmp_refl, content_nil in H. simpl in *. congruence.
  - exfalso. inversion N1; subst. specialize (H k1).
    rewrite content_cons, cmp_refl, content_nil in H. simpl in *. congruence.
  - inversion N1 as [|? ? D1 N1']; inversion N2 as [|? ? D2 N2']; subst.
    simpl in D1, D2.
    destruct (sorted_inv _ _ S1) as [S1' B1], (sorted_inv _ _ S2) as [S2' B2].
    simpl in B1, B2.
    assert (E : cmp k1 k2 = 0).
    { pose proof (H k1) as H1. pose proof (H k2) as H2.
      rewrite !content_cons, cmp_refl in H1. rewrite !content_cons, cmp_refl in H2.
      simpl in H1, H2.
      destruct (Z.eqb_spec (cmp k1 k2) 0) as [E|E]; [exact E|].
      destruct (Z.ltb_spec (cmp k1 k2) 0) as [L|L]; [congruence|].
      rewrite (cmp_antisym k1 k2) in H2.
      destruct (Z.eqb_spec (- cmp k1 k2) 0); [lia|].
      destruct (Z.ltb_spec (- cmp k1 k2) 0); [congruence|lia]. }
    assert (Ed : d1 = d2).
    { specialize (H k1). rewrite !content_cons, cmp_refl, E in H. exact H. }
    subst d2. simpl. f_equal.
    apply IH; [split; assumption|split; assumption|].
    intros k. pose proof (H k) as Hk. rewrite !content_cons in Hk.
    rewrite <- (cmp_compat_r k k1 k2 E) in Hk.
    destruct (Z.eqb_spec (cmp k k1) 0) as [E1|E1].
    + rewrite !content_below; [reflexivity| |].
      * apply (below_eq k k2); [|exact B2].
        rewrite <- (cmp_compat_r k k1 k2 E). exact E1.
      * apply (below_eq k k1); assumption.
    + destruct (Z.ltb_spec (cmp k k1) 0) as [L1|L1]; [|exact Hk].
      rewrite !content_below; [reflexivity| |].
      * apply (below_lt k k2); [|exact B2].
        rewrite <- (cmp_compat_r k k1 k2 E). exact L1.
      * apply (below_lt k k1); assumption.
Qed.

End TreeFacts.

Section LoopShapes.
Context {St X : Type}.
Variable body : X -> M St unit.

Lemma for_try_never_throws (xs : list X) :
  forall i s s' e, for_try body xs i s <> (s', Throw e).
Proof.
  induction xs as [|x xs IH]; intros i s s' e; simpl.
  - discriminate.
  - destruct (body x s) as [s1 [[]|e1]]; [apply IH|discriminate].
Qed.

Lemma for_try_none (xs : list X) :
  forall i s s', for_try body xs i s = (s', Ok None) ->
                 for_each body xs s = (s', Ok tt).
Proof.
  induction xs as [|x xs IH]; intros i s s' H; simpl in *.
  - injection H as <-. reflexivity.
  - unfold bind. destruct (body x s) as [s1 [[]|e1]]; [|discriminate].
    eapply IH; eauto.
Qed.

Lemma for_try_some (xs : list X) :
  forall i s s' e j,
    for_try body xs i s = (s', Ok (Some (e, j))) ->
    exists pre x post s1,
      xs = pre ++ x :: post
      /\ j = (i + List.length pre)%nat
      /\ for_each body pre s = (s1, Ok tt)
      /\ body x s1 = (s', Throw e).
Proof.
  induction xs as [|x xs IH]; intros i s s' e j H; simpl in H.
  - discriminate.
  - destruct (body x s) as [s1 [[]|e1]] eqn:E.
    + destruct (IH _ _ _ _ _ H) as (pre & y & post & s2 & -> & -> & H1 & H2).
      exists (x :: pre), y, post, s2. simpl. unfold bind. rewrite E.
      repeat split; auto; lia.
    + injection H as <- <- <-. exists [], x, xs, s. simpl.
      repeat split; auto; lia.
Qed.

Lemma for_each_app (xs ys : list X) (s : St) :
  for_each body (xs ++ ys) s
  = match for_each body xs s with
    | (s1, Ok _) => for_each body ys s1
    | (s1, Throw e) => (s1, Throw e)
    end.
Proof.
  revert s. induction xs as [|x xs IH]; intros s; simpl; [reflexivity|].
  unfold bind. destruct (body x s) as [s1 [[]|e]]; [apply IH|reflexivity].
Qed.

End LoopShapes.

Lemma firstn_length_app {A} (pre : list A) (x : A) (post : list A) :
  firstn (List.length pre) (pre ++ x :: post) = pre.
Proof.
  induction pre as [|a pre IH]; simpl; [reflexivity|]. rewrite IH. reflexivity.
Qed.

Section IndexRunFacts.
Context {model : Model}.

#[local] Abbreviation cmp := IndexOps.compareKeys.

Lemma for_each_tree_delete (d : doc) (ks : list value) :
  forall idx,
    for_each (fun k => IndexOps.tree_delete k d) ks idx
    = (IndexOps.set_tree idx (delete_keys d ks (tree idx)), Ok tt).
Proof.
  induction ks as [|k ks IH]; intros idx; simpl.
  - unfold ret. rewrite set_tree_same. reflexivity.
  - unfold bind, IndexOps.tree_delete at 1. rewrite IH. destruct idx; reflexivity.
Qed.

Lemma for_each_tree_insert_ok (d : doc) (ks : list value) :
  forall idx idx',
    for_each (fun k => IndexOps.tree_insert k d) ks idx = (idx', Ok tt) ->
    insert_keys (unique idx) d ks (tree idx) = Ok (tree idx')
    /\ idx' = IndexOps.set_tree idx (tree idx').
Proof.
  induction ks as [|k ks IH]; intros idx idx' H; simpl in *.
  - injection H as <-. rewrite set_tree_same. auto.
  - unfold bind, IndexOps.tree_insert at 1 in H.
    destruct (BinarySearchTree.insert cmp (unique idx) k d (tree idx)) as [t1|e];
      [|discriminate].
    destruct (IH _ _ H) as [H1 H2]. cbn in H1. split; [exact H1|].
    rewrite H2 at 1. destruct idx; reflexivity.
Qed.

Lemma for_each_tree_insert_run (d : doc) (ks : list value) :
  forall idx t',
    insert_keys (unique idx) d ks (tree idx) = Ok t' ->
    for_each (fun k => IndexOps.tree_insert k d) ks idx
    = (IndexOps.set_tree idx t', Ok tt).
Proof.
  induction ks as [|k ks IH]; intros idx t' H; simpl in *.
  - injection H as <-. rewrite set_tree_same. reflexivity.
  - unfold bind, IndexOps.tree_insert at 1.
    destruct (BinarySearchTree.insert cmp (unique idx) k d (tree idx)) as [t1|e];
      [|discriminate].
    rewrite (IH (IndexOps.set_tree idx t1) t' H). destruct idx; reflexivity.
Qed.

(** [remove(doc)] deletes the document under each of its keys. *)
Lemma removeDoc_run (d : doc) (idx : Index) :
  IndexOps.removeDoc d idx
  = (IndexOps.set_tree idx (delete_keys d (doc_keys idx d) (tree idx)), Ok tt).
Proof.
  unfold IndexOps.removeDoc, doc_keys, bind, get.
  destruct (strict_equal (getDotValue d (fieldName idx)) VUndefined && sparse idx).
  - unfold ret. simpl. rewrite set_tree_same. reflexivity.
  - destruct (getDotValue d (fieldName idx));
      try (unfold IndexOps.tree_delete; reflexivity).
    apply for_each_tree_delete.
Qed.

(** A successful [insert(doc)] has inserted the document under each of
    its keys. *)
Lemma insertDoc_ok (d : doc) (idx idx' : Index) :
  IndexOps.insertDoc d idx = (idx', Ok tt) ->
  insert_keys (unique idx) d (doc_keys idx d) (tree idx) = Ok (tree idx')
  /\ idx' = IndexOps.set_tree idx (tree idx').
Proof.
  unfold IndexOps.insertDoc, doc_keys, bind, get.
  destruct (strict_equal (getDotValue d (fieldName idx)) VUndefined && sparse idx).
  - unfold ret. intros H. injection H as <-. simpl. rewrite set_tree_same. auto.
  - destruct (getDotValue d (fieldName idx)) eqn:E;
      try (unfold IndexOps.tree_insert; simpl;
           destruct (BinarySearchTree.insert _ _ _ _ _) as [t1|e];
           [intros H; injection H as <-; auto|discriminate]).
    destruct (for_try _ _ _ idx) as [idx1 [[[e i]|]|e]] eqn:F.
    + destruct (for_each _ _ idx1) as [idx2 [[]|e2]]; discriminate.
    + unfold ret. intros H. injection H as <-.
      apply for_try_none in F. apply for_each_tree_insert_ok in F. exact F.
    + discriminate.
Qed.

Lemma insertDoc_run (d : doc) (idx : Index) (t' : BinarySearchTree.tree) :
  insert_keys (unique idx) d (doc_keys idx d) (tree idx) = Ok t' ->
  IndexOps.insertDoc d idx = (IndexOps.set_tree idx t', Ok tt).
Proof.
  unfold IndexOps.insertDoc, doc_keys, bind, get.
  destruct (strict_equal (getDotValue d (fieldName idx)) VUndefined && sparse idx).
  - simpl. intros H. injection H as <-. unfold ret. rewrite set_tree_same.
    reflexivity.
  - destruct (getDotValue d (fieldName idx)) eqn:E;
      try (unfold IndexOps.tree_insert; simpl;
           destruct (BinarySearchTree.insert _ _ _ _ _) as [t1|e];
           [intros H; injection H as <-; reflexivity|discriminate]).
    intros H. apply for_each_tree_insert_run in H.
    destruct (for_try _ _ _ idx) as [idx1 [[[e i]|]|e]] eqn:F.
    + apply for_try_some in F.
      destruct F as (pre & x & post & s1 & Hks & _ & H1 & H2).
      rewrite Hks, for_each_app, H1 in H. simpl in H. unfold bind in H.
      rewrite H2 in H. discriminate.
    + apply for_try_none in F. rewrite F in H. injection H as ->. reflexivity.
    + exfalso. eapply for_try_never_throws; eauto.
Qed.

(** A refused [insert(doc)] has inserted the document under some of its
    keys, was refused at the next one, and has deleted the document under
    the keys it had inserted. *)
Lemma insertDoc_throw (d : doc) (idx idx' : Index) (e : error) :
  IndexOps.insertDoc d idx = (idx', Throw e) ->
  exists pre k post t1,
    doc_keys idx d = pre ++ k :: post
    /\ insert_keys (unique idx) d pre (tree idx) = Ok t1
    /\ BinarySearchTree.insert cmp (unique idx) k d t1 = Throw e
    /\ idx' = IndexOps.set_tree idx (delete_keys d pre t1).
Proof.
  unfold IndexOps.insertDoc, doc_keys, bind, get.
  destruct (strict_equal (getDotValue d (fieldName idx)) VUndefined && sparse idx).
  - discriminate.
  - destruct (getDotValue d (fieldName idx)) eqn:E;
      try (unfold IndexOps.tree_insert; simpl;
           destruct (BinarySearchTree.insert _ _ _ _ _) as [t1|e1] eqn:I;
           [discriminate|];
           intros H; injection H as <- <-;
           eexists [], _, [], (tree idx); simpl; rewrite I, set_tree_same;
           repeat split; reflexivity).
    destruct (for_try _ _ _ idx) as [idx1 [[[e1 i]|]|e1]] eqn:F.
    + apply for_try_some in F.
      destruct F as (pre & x & post & s1 & Hks & -> & H1 & H2).
      simpl. rewrite Hks, firstn_length_app, for_each_tree_delete.
      unfold throw. intros H. injection H as <- <-.
      apply for_each_tree_insert_ok in H1. destruct H1 as [H1 Hs1].
      unfold IndexOps.tree_insert in H2.
      destruct (BinarySearchTree.insert cmp (unique s1) x d (tree s1)) as [t2|e2] eqn:I;
        [discriminate|].
      injection H2 as <- <-.
      exists pre, x, post, (tree s1). rewrite Hs1 in I. cbn in I.
      repeat split; auto.
      rewrite Hs1. destruct idx; reflexivity.
    + discriminate.
    + exfalso. eapply for_try_never_throws; eauto.
Qed.

End IndexRunFacts.

Section ListFacts.

Lemma without_app (d : doc) (l1 l2 : list doc) :
  without d (l1 ++ l2) = without d l1 ++ without d l2.
Proof. apply filter_app. Qed.

Lemma without_absent (d : doc) (l : list doc) : absent d l -> without d l = l.
Proof.
  intros H. induction l as [|x l IH]; [reflexivity|]. simpl.
  unfold checkValueEquality.
  destruct (Nat.eqb_spec (doc_ref x) (doc_ref d)) as [E|E].
  - exfalso. apply (H x (or_introl eq_refl)). exact E.
  - simpl. f_equal. apply IH. intros y Hy. apply H. right. exact Hy.
Qed.

Lemma without_self (d : doc) : without d [d] = [].
Proof. simpl. unfold checkValueEquality. rewrite Nat.eqb_refl. reflexivity. Qed.

Lemma absent_without (d : doc) (l : list doc) : absent d (without d l).
Proof.
  intros x Hx. apply filter_In in Hx. destruct Hx as [_ Hx].
  unfold checkValueEquality in Hx. apply negb_true_iff, Nat.eqb_neq in Hx. exact Hx.
Qed.

Lemma rem_app_fresh (d : doc) (l0 : list doc) :
  absent d l0 -> rem d (l0 ++ [d]) = l0.
Proof.
  intros H. unfold rem. rewrite length_app. simpl.
  destruct l0 as [|x l0]; [reflexivity|].
  destruct (Nat.ltb_spec 1 (List.length (x :: l0) + 1)) as [L|L];
    [|simpl in L; lia].
  rewrite without_app, without_self, app_nil_r. apply without_absent. exact H.
Qed.

Lemma rem_in (d : doc) (l : list doc) : In d l -> rem d l = without d l.
Proof.
  intros H. unfold rem. destruct (Nat.ltb_spec 1 (List.length l)) as [L|L];
    [reflexivity|].
  destruct l as [|x [|y l]]; [destruct H| |simpl in L; lia].
  destruct H as [->|[]]. symmetry. apply without_self.
Qed.

Lemma rem_nil (d : doc) : rem d [] = [].
Proof. reflexivity. Qed.

End ListFacts.

Section IndexContent.
Context {model : Model} {order : KeyOrder model}.

#[local] Abbreviation cmp := IndexOps.compareKeys.
#[local] Abbreviation hit k ks := (existsb (fun key => cmp k key =? 0) ks).
#[local] Abbreviation keys_alias_free ks :=
  (ForallOrdPairs (fun a b : value => cmp a b <> 0) ks).

Lemma content_compat (t : BinarySearchTree.tree) (k k' : value) :
  cmp k k' = 0 -> content t k = content t k'.
Proof.
  intros E. induction t as [|[k0 d0] rest IH]; [reflexivity|].
  rewrite !content_cons, (cmp_compat_l k k' k0 E), IH. reflexivity.
Qed.

Lemma hit_compat (ks : list value) (k k' : value) :
  cmp k k' = 0 -> hit k ks = hit k' ks.
Proof.
  intros E. induction ks as [|key ks IH]; [reflexivity|]. simpl.
  rewrite (cmp_compat_l k k' key E), IH. reflexivity.
Qed.

Lemma hit_self (ks : list value) (k : value) : In k ks -> hit k ks = true.
Proof.
  intros H. apply existsb_exists. exists k. split; [exact H|].
  rewrite cmp_refl. reflexivity.
Qed.

Lemma hit_alias (k1 : value) (rest : list value) (k : value) :
  keys_alias_free (k1 :: rest) -> cmp k k1 = 0 -> hit k rest = false.
Proof.
  intros H E. inversion H as [|? ? H1 _]; subst.
  destruct (hit k rest) eqn:X; [|reflexivity]. exfalso.
  apply existsb_exists in X. destruct X as (key & Hin & Hk).
  apply Z.eqb_eq in Hk. rewrite Forall_forall in H1.
  apply (H1 key Hin). rewrite <- (cmp_compat_l k k1 key E). exact Hk.
Qed.

Lemma alias_free_tail (k1 : value) (rest : list value) :
  keys_alias_free (k1 :: rest) -> keys_alias_free rest.
Proof. intros H. inversion H; assumption. Qed.

Lemma alias_free_prefix (pre post : list value) :
  keys_alias_free (pre ++ post) -> keys_alias_free pre.
Proof.
  induction pre as [|k pre IH]; intros H; [constructor|].
  simpl in H. inversion H as [|? ? H1 H2]; subst. constructor.
  - rewrite Forall_forall in *. intros x Hx. apply H1. apply in_or_app. auto.
  - apply IH. exact H2.
Qed.

Lemma insert_keys_spec (u : bool) (d : doc) :
  forall ks t t',
    sorted t -> keys_alias_free ks ->
    insert_keys u d ks t = Ok t' ->
    sorted t'
    /\ (forall k, content t' k = content t k ++ (if hit k ks then [d] else []))
    /\ (no_empty_node t -> no_empty_node t').
Proof.
  induction ks as [|k1 rest IH]; intros t t' Hs Ha H; simpl in H.
  - injection H as <-. repeat split; auto. intros k. simpl.
    rewrite app_nil_r. reflexivity.
  - destruct (BinarySearchTree.insert cmp u k1 d t) as [t1|e] eqn:I; [|discriminate].
    destruct (insert_spec u k1 d t t1 Hs I) as (S1 & C1 & _ & N1).
    destruct (IH t1 t' S1 (alias_free_tail _ _ Ha) H) as (S' & C' & N').
    repeat split; auto.
    intros k. rewrite C', C1. simpl.
    destruct (Z.eqb_spec (cmp k k1) 0) as [E|E]; simpl.
    + rewrite (hit_alias k1 rest k Ha E), app_nil_r. reflexivity.
    + rewrite app_nil_r. reflexivity.
Qed.

Lemma delete_keys_spec (d : doc) :
  forall ks t,
    sorted t -> keys_alias_free ks ->
    let t' := delete_keys d ks t in
    sorted t'
    /\ (forall k, content t' k = if hit k ks then rem d (content t k) else content t k)
    /\ (no_empty_node t ->
        (forall key, In key ks -> (1 < List.length (content t key))%nat ->
                     without d (content t key) <> []) ->
        no_empty_node t').
Proof.
  induction ks as [|k1 rest IH]; intros t Hs Ha; simpl.
  - repeat split; auto.
  - destruct (delete_spec k1 d t Hs) as (S1 & C1 & _ & N1).
    destruct (IH _ S1 (alias_free_tail _ _ Ha)) as (S' & C' & N').
    repeat split; auto.
    + intros k. unfold delete_keys in C'. rewrite C', C1.
      destruct (Z.eqb_spec (cmp k k1) 0) as [E|E]; simpl.
      * rewrite (hit_alias k1 rest k Ha E). reflexivity.
      * reflexivity.
    + intros Hn Hside. apply N'.
      * apply N1; [exact Hn|]. apply Hside. left. reflexivity.
      * intros key Hin. rewrite C1.
        destruct (Z.eqb_spec (cmp key k1) 0) as [E|E].
        -- exfalso. inversion Ha as [|? ? H1 _]; subst.
           rewrite Forall_forall in H1. apply (H1 key Hin).
           apply cmp_sym. exact E.
        -- apply Hside. right. exact Hin.
Qed.

Lemma set_tree_fields (idx : Index) (t : BinarySearchTree.tree) :
  fieldName (IndexOps.set_tree idx t) = fieldName idx
  /\ unique (IndexOps.set_tree idx t) = unique idx
  /\ sparse (IndexOps.set_tree idx t) = sparse idx
  /\ tree (IndexOps.set_tree idx t) = t.
Proof. repeat split. Qed.

(** A successful insertion files the document, last, under each of its
    keys. *)
Lemma insertDoc_content (d : doc) (idx idx' : Index) :
  wf_tree (tree idx) -> alias_free idx d ->
  IndexOps.insertDoc d idx = (idx', Ok tt) ->
  fieldName idx' = fieldName idx /\ unique idx' = unique idx
  /\ sparse idx' = sparse idx
  /\ wf_tree (tree idx')
  /\ (forall k, content (tree idx') k
                = content (tree idx) k ++ (if hits idx k d then [d] else [])).
Proof.
  intros [Hs Hn] Ha H. apply insertDoc_ok in H. destruct H as [H ->].
  destruct (insert_keys_spec _ _ _ _ _ Hs Ha H) as (S' & C' & N').
  repeat split; auto.
Qed.

(** A removal takes the document out of the data under each of its
    keys. *)
Lemma removeDoc_content (d : doc) (idx idx' : Index) (r : result unit) :
  sorted (tree idx) -> alias_free idx d ->
  IndexOps.removeDoc d idx = (idx', r) ->
  r = Ok tt
  /\ fieldName idx' = fieldName idx /\ unique idx' = unique idx
  /\ sparse idx' = sparse idx
  /\ sorted (tree idx')
  /\ (forall k, content (tree idx') k
                = if hits idx k d then rem d (content (tree idx) k)
                  else content (tree idx) k)
  /\ (no_empty_node (tree idx) ->
      (forall key, In key (doc_keys idx d) ->
                   (1 < List.length (content (tree idx) key))%nat ->
                   without d (content (tree idx) key) <> []) ->
      no_empty_node (tree idx')).
Proof.
  intros Hs Ha H. rewrite removeDoc_run in H. injection H as <- <-.
  destruct (delete_keys_spec d (doc_keys idx d) (tree idx) Hs Ha) as (S' & C' & N').
  repeat split; auto.
Qed.

Lemma insert_keys_succeeds (u : bool) (d : doc) :
  forall ks t,
    wf_tree t -> keys_alias_free ks ->
    u = false \/ (forall key, In key ks -> content t key = []) ->
    exists t', insert_keys u d ks t = Ok t'.
Proof.
  induction ks as [|k1 rest IH]; intros t [Hs Hn] Ha H; simpl.
  - eexists. reflexivity.
  - destruct (insert_ok u k1 d t Hn) as [t1 I].
    { destruct H as [H|H]; [left; exact H|right]. apply H. left. reflexivity. }
    rewrite I. destruct (insert_spec u k1 d t t1 Hs I) as (S1 & C1 & _ & N1).
    apply IH; [split; auto|exact (alias_free_tail _ _ Ha)|].
    destruct H as [H|H]; [left; exact H|right].
    intros key Hin. rewrite C1, (H key (or_intror Hin)).
    inversion Ha as [|? ? H1 _]; subst. rewrite Forall_forall in H1.
    destruct (Z.eqb_spec (cmp key k1) 0) as [E|E]; [|reflexivity].
    exfalso. apply (H1 key Hin). apply cmp_sym. exact E.
Qed.

(** An insertion goes through when the index is not unique, or holds
    nothing under the keys of the document. *)
Lemma insertDoc_succeeds (d : doc) (idx : Index) :
  wf_tree (tree idx) -> alias_free idx d ->
  unique idx = false
  \/ (forall key, In key (doc_keys idx d) -> content (tree idx) key = []) ->
  exists idx', IndexOps.insertDoc d idx = (idx', Ok tt).
Proof.
  intros Hw Ha H.
  destruct (insert_keys_succeeds (unique idx) d (doc_keys idx d) (tree idx) Hw Ha H)
    as [t' Ht].
  eexists. apply insertDoc_run. exact Ht.
Qed.

End IndexContent.

Section TrackingFacts.
Context {model : Model} {order : KeyOrder model}.

#[local] Abbreviation cmp := IndexOps.compareKeys.

Lemma content_cases (t : BinarySearchTree.tree) (k : value) :
  content t k = []
  \/ exists n, In n t /\ cmp k (fst n) = 0 /\ content t k = snd n.
Proof.
  induction t as [|[k0 d0] rest IH]; [left; reflexivity|].
  rewrite content_cons. destruct (Z.eqb_spec (cmp k k0) 0) as [E|E].
  - right. exists (k0, d0). simpl. auto.
  - destruct (cmp k k0 <? 0); [left; reflexivity|].
    destruct IH as [IH|(n & Hn & Hk & Hc)]; [left; exact IH|].
    right. exists n. simpl. auto.
Qed.

Lemma content_Forall (P : list doc -> Prop) (t : BinarySearchTree.tree) (k : value) :
  P [] -> Forall (fun n : BinarySearchTree.node => P (snd n)) t -> P (content t k).
Proof.
  intros H0 H. destruct (content_cases t k) as [->|(n & Hn & _ & ->)]; [exact H0|].
  rewrite Forall_forall in H. apply H. exact Hn.
Qed.

Lemma refs_distinct_content (idx : Index) (k : value) :
  refs_distinct idx -> NoDup (map doc_ref (content (tree idx) k)).
Proof. intros H. apply (content_Forall (fun l => NoDup (map doc_ref l))); [constructor|exact H]. Qed.

Lemma fresh_content (idx : Index) (d : doc) (k : value) :
  fresh idx d -> absent d (content (tree idx) k).
Proof.
  intros H. apply (content_Forall (absent d)); [intros x []|exact H].
Qed.

Lemma unique_bound_content (idx : Index) (k : value) :
  unique_bound idx -> unique idx = true ->
  (List.length (content (tree idx) k) <= 1)%nat.
Proof.
  intros H U. apply (content_Forall (fun l => (List.length l <= 1)%nat));
    [simpl; lia|exact (H U)].
Qed.

Lemma doc_keys_same (idx idx0 : Index) (d : doc) :
  fieldName idx = fieldName idx0 -> sparse idx = sparse idx0 ->
  doc_keys idx d = doc_keys idx0 d.
Proof. unfold doc_keys. intros -> ->. reflexivity. Qed.

Lemma hits_same (idx idx0 : Index) (k : value) (d : doc) :
  fieldName idx = fieldName idx0 -> sparse idx = sparse idx0 ->
  hits idx k d = hits idx0 k d.
Proof. unfold hits. intros H1 H2. rewrite (doc_keys_same _ _ _ H1 H2). reflexivity. Qed.

Lemma alias_free_same (idx idx0 : Index) (d : doc) :
  fieldName idx = fieldName idx0 -> sparse idx = sparse idx0 ->
  alias_free idx0 d -> alias_free idx d.
Proof. unfold alias_free. intros H1 H2. rewrite (doc_keys_same _ _ _ H1 H2). auto. Qed.

Lemma hits_compat (idx : Index) (k k' : value) (d : doc) :
  cmp k k' = 0 -> hits idx k d = hits idx k' d.
Proof. apply hit_compat. Qed.

(** A filed document is found under every key it hits, and is unknown
    under every other key. *)
Lemma filed_content (idx : Index) (d : doc) (k : value) :
  filed idx d ->
  (hits idx k d = true -> In d (content (tree idx) k))
  /\ (hits idx k d = false -> absent d (content (tree idx) k)).
Proof.
  intros [H1 H2]. split.
  - intros Hh. unfold hits in Hh. apply existsb_exists in Hh.
    destruct Hh as (key & Hin & Hk). apply Z.eqb_eq in Hk.
    rewrite (content_compat _ _ _ Hk). apply H1. exact Hin.
  - intros Hh. destruct (content_cases (tree idx) k) as [->|(n & Hn & Hk & ->)].
    + intros x [].
    + rewrite Forall_forall in H2. apply (H2 n Hn).
      rewrite <- (hits_compat idx k (fst n) d Hk). exact Hh.
Qed.

Lemma without_all_nil (l : list doc) : without_all [] l = l.
Proof.
  unfold without_all. induction l as [|x l IH]; simpl; [reflexivity|].
  f_equal. exact IH.
Qed.

Lemma filter_conj {A} (p q : A -> bool) (l : list A) :
  filter p (filter q l) = filter (fun x => q x && p x) l.
Proof.
  induction l as [|x l IH]; [reflexivity|]. simpl.
  destruct (q x); simpl; [destruct (p x)|]; rewrite IH; reflexivity.
Qed.

Lemma without_all_cons (d : doc) (R l : list doc) :
  without_all (d :: R) l = without d (without_all R l).
Proof.
  unfold without_all, without. rewrite filter_conj. apply filter_ext.
  intros x. simpl. destruct (checkValueEquality x d), (existsb _ R); reflexivity.
Qed.

Lemma In_without_all (R l : list doc) (x : doc) :
  In x l -> absent x R -> In x (without_all R l).
Proof.
  intros H Ha. apply filter_In. split; [exact H|].
  apply negb_true_iff. destruct (existsb (checkValueEquality x) R) eqn:E;
    [|reflexivity].
  exfalso. apply existsb_exists in E. destruct E as (y & Hy & Ey).
  unfold checkValueEquality in Ey. apply Nat.eqb_eq in Ey.
  apply (Ha y Hy). congruence.
Qed.

Lemma without_all_incl (R l : list doc) (x : doc) :
  In x (without_all R l) -> In x l.
Proof. unfold without_all. intros H. apply filter_In in H. apply H. Qed.

Lemma absent_incl (d : doc) (l l' : list doc) :
  (forall x, In x l' -> In x l) -> absent d l -> absent d l'.
Proof. intros H Ha x Hx. apply Ha. apply H. exact Hx. Qed.

Lemma absent_app (d : doc) (l1 l2 : list doc) :
  absent d l1 -> absent d l2 -> absent d (l1 ++ l2).
Proof. intros H1 H2 x Hx. apply in_app_or in Hx. destruct Hx; auto. Qed.

Lemma without_filter (d : doc) (p : doc -> bool) (l : list doc) :
  without d (filter p l) = filter p (without d l).
Proof.
  unfold without. induction l as [|x l IH]; simpl; [reflexivity|].
  destruct (p x) eqn:P, (checkValueEquality x d) eqn:C; simpl;
    rewrite ?P, ?C; simpl; rewrite IH; reflexivity.
Qed.

Lemma filter_without_unhit (d : doc) (p : doc -> bool) (l : list doc) :
  (forall x, In x l -> doc_ref x = doc_ref d -> p x = false) ->
  filter p (without d l) = filter p l.
Proof.
  intros H. induction l as [|x l IH]; [reflexivity|]. simpl.
  unfold checkValueEquality.
  destruct (Nat.eqb_spec (doc_ref x) (doc_ref d)) as [E|E]; simpl.
  - rewrite (H x (or_introl eq_refl) E). apply IH.
    intros y Hy. apply H. right. exact Hy.
  - destruct (p x); [f_equal|]; apply IH; intros y Hy; apply H; right; exact Hy.
Qed.

Lemma NoDup_refs_inj (l : list doc) (x y : doc) :
  NoDup (map doc_ref l) -> In x l -> In y l -> doc_ref x = doc_ref y -> x = y.
Proof.
  induction l as [|z l IH]; intros Hn Hx Hy E; [destruct Hx|].
  simpl in Hn. inversion Hn as [|? ? Hz Hn']; subst.
  destruct Hx as [->|Hx], Hy as [->|Hy]; auto.
  - exfalso. apply Hz. rewrite E. apply in_map. exact Hy.
  - exfalso. apply Hz. rewrite <- E. apply in_map. exact Hx.
Qed.

Lemma NoDup_refs_filter (p : doc -> bool) (l : list doc) :
  NoDup (map doc_ref l) -> NoDup (map doc_ref (filter p l)).
Proof.
  induction l as [|x l IH]; intros Hn; [constructor|].
  simpl in Hn. inversion Hn as [|? ? Hx Hn']; subst. simpl.
  destruct (p x); [|apply IH; exact Hn'].
  simpl. constructor; [|apply IH; exact Hn'].
  intros H. apply Hx. apply in_map_iff in H. destruct H as (y & Ey & Hy).
  apply filter_In in Hy. apply in_map_iff. exists y. split; [exact Ey|apply Hy].
Qed.

Lemma without_length (d : doc) (l : list doc) :
  NoDup (map doc_ref l) -> (List.length l <= S (List.length (without d l)))%nat.
Proof.
  induction l as [|x l IH]; intros Hn; simpl; [lia|].
  inversion Hn as [|? ? Hx Hn']; subst. unfold checkValueEquality.
  destruct (Nat.eqb_spec (doc_ref x) (doc_ref d)) as [E|E]; simpl.
  - rewrite without_absent; [lia|].
    intros y Hy Ey. apply Hx. rewrite E, <- Ey. apply in_map. exact Hy.
  - specialize (IH Hn'). lia.
Qed.

Lemma without_head (d : doc) (l : list doc) :
  NoDup (map doc_ref (d :: l)) -> without d (d :: l) = l.
Proof.
  intros Hn. inversion Hn as [|? ? Hx Hn']; subst. simpl.
  unfold checkValueEquality. rewrite Nat.eqb_refl. simpl.
  apply without_absent. intros y Hy Ey. apply Hx. rewrite <- Ey. apply in_map.
  exact Hy.
Qed.

(** Putting a document in. *)
Lemma track_insert (idx0 idx idx' : Index) (R A : list doc) (d : doc) :
  tracked idx0 R A idx -> alias_free idx0 d ->
  IndexOps.insertDoc d idx = (idx', Ok tt) ->
  tracked idx0 R (A ++ [d]) idx'.
Proof.
  intros (F & U & S & W & C) Ha H.
  destruct (insertDoc_content d idx idx' W (alias_free_same _ _ _ F S Ha) H)
    as (F' & U' & S' & W' & C').
  unfold tracked. split; [congruence|]. split; [congruence|].
  split; [congruence|]. split; [exact W'|].
  intros k. rewrite C', C, (hits_same _ _ _ _ F S), filter_app, <- app_assoc.
  simpl. destruct (hits idx0 k d); reflexivity.
Qed.

(** Taking out a document that was put in. *)
Lemma track_remove_added (idx0 idx idx' : Index) (R A : list doc) (d : doc)
  (r : result unit) :
  tracked idx0 R A idx -> alias_free idx0 d ->
  In d A -> NoDup (map doc_ref A) ->
  (forall k, absent d (without_all R (content (tree idx0) k))) ->
  refs_distinct idx0 ->
  IndexOps.removeDoc d idx = (idx', r) ->
  r = Ok tt /\ tracked idx0 R (without d A) idx'.
Proof.
  intros (F & U & S & [Ws Wn] & C) Ha Hin Hn Hf Hr H.
  destruct (removeDoc_content d idx idx' r Ws (alias_free_same _ _ _ F S Ha) H)
    as (-> & F' & U' & S' & Ws' & C' & N').
  split; [reflexivity|].
  unfold tracked. split; [congruence|]. split; [congruence|].
  split; [congruence|]. split; [split; [exact Ws'|]|].
  - apply N'; [exact Wn|].
    intros key Hk L. rewrite C in *. rewrite without_app.
    rewrite (without_absent _ _ (Hf key)).
    destruct (without_all R (content (tree idx0) key)); [|discriminate].
    simpl in *.
    pose proof (without_length d (filter (hits idx0 key) A)
                  (NoDup_refs_filter _ _ Hn)) as X.
    destruct (without d (filter (hits idx0 key) A)); [simpl in X; lia|discriminate].
  - intros k. rewrite C', C, (hits_same _ _ _ _ F S).
    destruct (hits idx0 k d) eqn:Hh.
    + rewrite rem_in.
      * rewrite without_app, (without_absent _ _ (Hf k)), without_filter.
        reflexivity.
      * apply in_or_app. right. apply filter_In. auto.
    + f_equal. symmetry. apply filter_without_unhit.
      intros x Hx Ex. rewrite (NoDup_refs_inj A x d Hn Hx Hin Ex). exact Hh.
Qed.

(** Taking out a document the index filed. *)
Lemma track_remove_old (idx0 idx idx' : Index) (R : list doc) (d : doc)
  (r : result unit) :
  tracked idx0 R [] idx -> alias_free idx0 d -> filed idx0 d ->
  refs_distinct idx0 -> absent d R ->
  IndexOps.removeDoc d idx = (idx', r) ->
  r = Ok tt /\ tracked idx0 (d :: R) [] idx'.
Proof.
  intros (F & U & S & [Ws Wn] & C) Ha Hfiled Hr Hab H.
  destruct (removeDoc_content d idx idx' r Ws (alias_free_same _ _ _ F S Ha) H)
    as (-> & F' & U' & S' & Ws' & C' & N').
  assert (Hnd : forall k, NoDup (map doc_ref (without_all R (content (tree idx0) k)))).
  { intros k. apply NoDup_refs_filter. apply refs_distinct_content. exact Hr. }
  split; [reflexivity|].
  unfold tracked. split; [congruence|]. split; [congruence|].
  split; [congruence|]. split; [split; [exact Ws'|]|].
  - apply N'; [exact Wn|].
    intros key Hk L. rewrite C in *. simpl in *. rewrite app_nil_r in *.
    pose proof (without_length d _ (Hnd key)) as X.
    destruct (without d (without_all R (content (tree idx0) key)));
      [simpl in X; lia|discriminate].
  - intros k. rewrite C', C, (hits_same _ _ _ _ F S). simpl.
    rewrite !app_nil_r, without_all_cons.
    destruct (filed_content idx0 d k Hfiled) as [Hhit Hmiss].
    destruct (hits idx0 k d) eqn:Hh.
    + apply rem_in. apply In_without_all; [apply Hhit; reflexivity|exact Hab].
    + symmetry. apply without_absent. eapply absent_incl; [|apply Hmiss; reflexivity].
      intros x. apply without_all_incl.
Qed.

End TrackingFacts.

Section UniqueTrees.
Context {model : Model} {order : KeyOrder model}.

#[local] Abbreviation cmp := IndexOps.compareKeys.
#[local] Abbreviation hit k ks := (existsb (fun key => cmp k key =? 0) ks).
#[local] Abbreviation keys_alias_free ks :=
  (ForallOrdPairs (fun a b : value => cmp a b <> 0) ks).

(** A unique tree takes a key only where it holds nothing. *)
Lemma insert_unique_vacant (key : value) (d : doc) :
  forall t t',
    BinarySearchTree.insert cmp true key d t = Ok t' -> content t key = [].
Proof.
  induction t as [|[k0 d0] rest IH]; intros t' H; [reflexivity|].
  simpl in H. rewrite content_cons.
  destruct (Z.eqb_spec (cmp k0 key) 0) as [E0|E0]; [discriminate|].
  destruct (Z.eqb_spec (cmp key k0) 0) as [E1|E1];
    [exfalso; apply E0, cmp_sym, E1|].
  destruct (cmp key k0 <? 0); [reflexivity|].
  destruct (BinarySearchTree.insert cmp true key d rest) as [rest'|e] eqn:E;
    [|discriminate].
  eapply IH. reflexivity.
Qed.

(** The keys a unique tree took in a row are told apart by the order, and
    none of them was taken before. *)
Lemma insert_keys_unique (d : doc) :
  forall ks t t',
    sorted t ->
    insert_keys true d ks t = Ok t' ->
    keys_alias_free ks /\ (forall k, content t k <> [] -> hit k ks = false).
Proof.
  induction ks as [|k1 rest IH]; intros t t' Hs H; simpl in H.
  - split; [constructor|reflexivity].
  - destruct (BinarySearchTree.insert cmp true k1 d t) as [t1|e] eqn:I; [|discriminate].
    pose proof (insert_unique_vacant _ _ _ _ I) as V.
    destruct (insert_spec true k1 d t t1 Hs I) as (S1 & C1 & _).
    destruct (IH t1 t' S1 H) as [A1 B1].
    split.
    + constructor; [|exact A1].
      apply Forall_forall. intros b Hb E.
      assert (X : hit k1 rest = false).
      { apply B1. rewrite C1, cmp_refl. simpl.
        destruct (content t k1); discriminate. }
      assert (Y : hit k1 rest = true).
      { apply existsb_exists. exists b. split; [exact Hb|].
        apply Z.eqb_eq. exact E. }
      congruence.
    + intros k Hk. simpl.
      destruct (Z.eqb_spec (cmp k k1) 0) as [E|E].
      * exfalso. apply Hk. rewrite (content_compat t k k1 E). exact V.
      * simpl. apply B1. rewrite C1. destruct (content t k); [contradiction|discriminate].
Qed.

Lemma insertDoc_unique_alias_free (d : doc) (idx idx' : Index) :
  sorted (tree idx) -> unique idx = true ->
  IndexOps.insertDoc d idx = (idx', Ok tt) ->
  alias_free idx d.
Proof.
  intros Hs U H. apply insertDoc_ok in H. destruct H as [H _].
  rewrite U in H. exact (proj1 (insert_keys_unique _ _ _ _ Hs H)).
Qed.

Lemma insertDoc_fields (d : doc) (idx idx' : Index) (r : result unit) :
  IndexOps.insertDoc d idx = (idx', r) ->
  fieldName idx' = fieldName idx /\ unique idx' = unique idx
  /\ sparse idx' = sparse idx.
Proof.
  destruct r as [[]|e]; intros H.
  - apply insertDoc_ok in H. destruct H as [_ ->]. repeat split.
  - apply insertDoc_throw in H. destruct H as (? & ? & ? & ? & _ & _ & _ & ->).
    repeat split.
Qed.

Lemma for_each_insertDoc_unique (ds : list doc) :
  forall idx idx' r,
    for_each IndexOps.insertDoc ds idx = (idx', r) -> unique idx' = unique idx.
Proof.
  induction ds as [|d ds IH]; intros idx idx' r H; simpl in H.
  - injection H as <- _. reflexivity.
  - unfold bind in H. destruct (IndexOps.insertDoc d idx) as [idx1 [[]|e]] eqn:E.
    + rewrite (IH _ _ _ H). apply (insertDoc_fields _ _ _ _ E).
    + injection H as <- _. apply (insertDoc_fields _ _ _ _ E).
Qed.

Lemma insertDoc_throw_unique (d : doc) (idx idx' : Index) (e : error) :
  IndexOps.insertDoc d idx = (idx', Throw e) -> unique idx = true.
Proof.
  intros H. apply insertDoc_throw in H.
  destruct H as (pre & key & post & t1 & _ & _ & H2 & _).
  exact (proj1 (insert_throw _ _ _ _ _ H2)).
Qed.

(** A refused insertion leaves the documents under every key as they
    were, whatever the keys of the document. *)
Lemma insertDoc_refused_any (d : doc) (idx idx' : Index) (e : error) :
  wf_tree (tree idx) ->
  (forall k, absent d (content (tree idx) k)) ->
  IndexOps.insertDoc d idx = (idx', Throw e) ->
  fieldName idx' = fieldName idx /\ unique idx' = unique idx
  /\ sparse idx' = sparse idx
  /\ wf_tree (tree idx')
  /\ (forall k, content (tree idx') k = content (tree idx) k).
Proof.
  intros [Hs Hn] Hf H.
  pose proof (insertDoc_throw_unique _ _ _ _ H) as U.
  apply insertDoc_throw in H.
  destruct H as (pre & key & post & t1 & Hks & H1 & H2 & ->).
  rewrite U in H1.
  pose proof (proj1 (insert_keys_unique _ _ _ _ Hs H1)) as Hpre.
  destruct (insert_keys_spec _ _ _ _ _ Hs Hpre H1) as (S1 & C1 & N1).
  destruct (delete_keys_spec d pre t1 S1 Hpre) as (S2 & C2 & N2).
  assert (C : forall k, content (delete_keys d pre t1) k = content (tree idx) k).
  { intros k. rewrite C2, C1. destruct (hit k pre).
    - apply rem_app_fresh. apply Hf.
    - apply app_nil_r. }
  repeat split; auto.
  apply N2; [apply N1; exact Hn|].
  intros k Hin. rewrite C1, (hit_self _ _ Hin).
  rewrite without_app, without_self, app_nil_r, (without_absent _ _ (Hf k)).
  rewrite length_app. simpl. destruct (content (tree idx) k); [simpl; lia|discriminate].
Qed.

Lemma track_refused_any (idx0 idx idx' : Index) (R A : list doc) (d : doc) (e : error) :
  tracked idx0 R A idx ->
  (forall k, absent d (content (tree idx) k)) ->
  IndexOps.insertDoc d idx = (idx', Throw e) ->
  tracked idx0 R A idx'.
Proof.
  intros (F & U & S & W & C) Hf H.
  destruct (insertDoc_refused_any d idx idx' e W Hf H) as (F' & U' & S' & W' & C').
  unfold tracked. split; [congruence|]. split; [congruence|].
  split; [congruence|]. split; [exact W'|].
  intros k. rewrite C', C. reflexivity.
Qed.

End UniqueTrees.
Section LoopMaps.
Context {St X Y : Type}.

Lemma for_each_map (f : Y -> M St unit) (g : X -> Y) (l : list X) (s : St) :
  for_each (fun x => f (g x)) l s = for_each f (map g l) s.
Proof.
  revert s. induction l as [|x l IH]; intros s; simpl; [reflexivity|].
  unfold bind. destruct (f (g x) s) as [s1 [[]|e]]; [apply IH|reflexivity].
Qed.

Lemma for_try_map (f : Y -> M St unit) (g : X -> Y) (l : list X) (i : nat) (s : St) :
  for_try (fun x => f (g x)) l i s = for_try f (map g l) i s.
Proof.
  revert i s. induction l as [|x l IH]; intros i s; simpl; [reflexivity|].
  destruct (f (g x) s) as [s1 [[]|e]]; [apply IH|reflexivity].
Qed.

Lemma for_try_all_ok (f : X -> M St unit) (l : list X) :
  forall i s s', for_each f l s = (s', Ok tt) -> for_try f l i s = (s', Ok None).
Proof.
  induction l as [|x l IH]; intros i s s' H; simpl in *.
  - injection H as <-. reflexivity.
  - unfold bind in H. destruct (f x s) as [s1 [[]|e]]; [|discriminate].
    apply IH. exact H.
Qed.

End LoopMaps.

Section Phases.
Context {model : Model} {order : KeyOrder model}.

Lemma tracked_start (idx : Index) :
  wf_tree (tree idx) -> tracked idx [] [] idx.
Proof.
  intros W. unfold tracked. repeat split; try apply W.
  intros k. rewrite without_all_nil. simpl. rewrite app_nil_r. reflexivity.
Qed.

Lemma phase_insert (idx0 : Index) (R : list doc) :
  forall ds A idx idx',
    tracked idx0 R A idx ->
    Forall (alias_free idx0) ds ->
    for_each IndexOps.insertDoc ds idx = (idx', Ok tt) ->
    tracked idx0 R (A ++ ds) idx'.
Proof.
  induction ds as [|d ds IH]; intros A idx idx' T Ha H; simpl in H.
  - injection H as <-. rewrite app_nil_r. exact T.
  - inversion Ha as [|? ? Hd Ha']; subst.
    unfold bind in H.
    destruct (IndexOps.insertDoc d idx) as [idx1 [[]|e]] eqn:E; [|discriminate].
    pose proof (track_insert _ _ _ _ _ _ T Hd E) as T1.
    pose proof (IH _ _ _ T1 Ha' H) as T2.
    rewrite <- app_assoc in T2. exact T2.
Qed.

Lemma phase_insert_unique (idx0 : Index) (R : list doc) :
  unique idx0 = true ->
  forall ds A idx idx',
    tracked idx0 R A idx ->
    for_each IndexOps.insertDoc ds idx = (idx', Ok tt) ->
    tracked idx0 R (A ++ ds) idx' /\ Forall (alias_free idx0) ds.
Proof.
  intros Uq. induction ds as [|d ds IH]; intros A idx idx' T H; simpl in H.
  - injection H as <-. rewrite app_nil_r. split; [exact T|constructor].
  - unfold bind in H.
    destruct (IndexOps.insertDoc d idx) as [idx1 [[]|e]] eqn:E; [|discriminate].
    assert (Hd : alias_free idx0 d).
    { destruct T as (F & U & S & W & _).
      apply (alias_free_same idx0 idx); [congruence|congruence|].
      apply (insertDoc_unique_alias_free d idx idx1); [apply W|congruence|exact E]. }
    pose proof (track_insert _ _ _ _ _ _ T Hd E) as T1.
    destruct (IH _ _ _ T1 H) as [T2 Ha].
    rewrite <- app_assoc in T2. split; [exact T2|constructor; assumption].
Qed.

Lemma phase_remove_added (idx0 : Index) (R : list doc) :
  forall A idx idx' r,
    tracked idx0 R A idx ->
    Forall (alias_free idx0) A ->
    NoDup (map doc_ref A) ->
    (forall d, In d A -> forall k, absent d (without_all R (content (tree idx0) k))) ->
    refs_distinct idx0 ->
    for_each IndexOps.removeDoc A idx = (idx', r) ->
    r = Ok tt /\ tracked idx0 R [] idx'.
Proof.
  induction A as [|d A IH]; intros idx idx' r T Ha Hn Hf Hr H; simpl in H.
  - injection H as <- <-. auto.
  - inversion Ha as [|? ? Hd Ha']; subst.
    unfold bind in H.
    destruct (IndexOps.removeDoc d idx) as [idx1 r1] eqn:E.
    destruct (track_remove_added _ _ _ _ _ _ _ T Hd (or_introl eq_refl) Hn
                (Hf d (or_introl eq_refl)) Hr E) as [-> T1].
    rewrite (without_head d A Hn) in T1.
    simpl in Hn. inversion Hn; subst.
    apply (IH _ _ _ T1 Ha'); auto.
    intros x Hx. apply Hf. right. exact Hx.
Qed.

Lemma phase_remove_olds (idx0 : Index) :
  forall olds R idx idx' r,
    tracked idx0 R [] idx ->
    Forall (fun o => alias_free idx0 o /\ filed idx0 o) olds ->
    refs_distinct idx0 ->
    NoDup (map doc_ref (olds ++ R)) ->
    for_each IndexOps.removeDoc olds idx = (idx', r) ->
    r = Ok tt /\ tracked idx0 (rev olds ++ R) [] idx'.
Proof.
  induction olds as [|o olds IH]; intros R idx idx' r T Ho Hr Hn H; simpl in H.
  - injection H as <- <-. auto.
  - inversion Ho as [|? ? [Ha Hf] Ho']; subst.
    unfold bind in H.
    destruct (IndexOps.removeDoc o idx) as [idx1 r1] eqn:E.
    assert (Hab : absent o R).
    { simpl in Hn. inversion Hn as [|? ? Hx _]; subst.
      intros x Hx' Ex. apply Hx. rewrite <- Ex. apply in_map.
      apply in_or_app. right. exact Hx'. }
    destruct (track_remove_old _ _ _ _ _ _ T Ha Hf Hr Hab E) as [-> T1].
    assert (Hn1 : NoDup (map doc_ref (olds ++ o :: R))).
    { eapply Permutation_NoDup; [|exact Hn].
      apply Permutation_map. simpl. apply Permutation_middle. }
    destruct (IH _ _ _ _ T1 Ho' Hr Hn1 H) as [-> T2].
    split; [reflexivity|]. simpl. rewrite <- app_assoc. exact T2.
Qed.

Lemma existsb_ref_In (d : doc) (R : list doc) :
  In d R -> existsb (checkValueEquality d) R = true.
Proof.
  intros H. apply existsb_exists. exists d. split; [exact H|].
  unfold checkValueEquality. apply Nat.eqb_refl.
Qed.

Lemma phase_reinsert (idx0 : Index) (R : list doc) :
  refs_distinct idx0 -> unique_bound idx0 ->
  forall ds A idx,
    tracked idx0 R A idx ->
    Forall (fun o => alias_free idx0 o /\ filed idx0 o) (A ++ ds) ->
    NoDup (map doc_ref (A ++ ds)) ->
    (forall d, In d ds -> In d R) ->
    exists idx',
      for_each IndexOps.insertDoc ds idx = (idx', Ok tt)
      /\ tracked idx0 R (A ++ ds) idx'.
Proof.
  intros Hr Hu. induction ds as [|d ds IH]; intros A idx T Ho Hn HR; simpl.
  - exists idx. rewrite app_nil_r. auto.
  - assert (Hd : alias_free idx0 d /\ filed idx0 d).
    { rewrite Forall_forall in Ho. apply Ho. apply in_or_app. right. left.
      reflexivity. }
    destruct Hd as [Ha Hf].
    pose proof T as (F & U & S & W & C).
    destruct (insertDoc_succeeds d idx W (alias_free_same _ _ _ F S Ha)) as [idx1 E].
    { destruct (unique idx0) eqn:Uq; [right|left; congruence].
      intros key Hkey.
      rewrite (doc_keys_same _ _ _ F S) in Hkey. rewrite C.
      assert (Hh : hits idx0 key d = true) by (apply hit_self; exact Hkey).
      pose proof (proj1 (filed_content idx0 d key Hf) Hh) as Hin.
      pose proof (unique_bound_content idx0 key Hu Uq) as Hlen.
      assert (El : content (tree idx0) key = [d]).
      { destruct (content (tree idx0) key) as [|x [|y l]]; [destruct Hin| |simpl in Hlen; lia].
        destruct Hin as [->|[]]. reflexivity. }
      rewrite El. unfold without_all. simpl.
      rewrite (existsb_ref_In d R (HR d (or_introl eq_refl))). simpl.
      destruct (filter (hits idx0 key) A) as [|a l] eqn:Ef; [reflexivity|].
      exfalso.
      assert (Ia : In a (filter (hits idx0 key) A)) by (rewrite Ef; left; reflexivity).
      apply filter_In in Ia. destruct Ia as [IaA Iah].
      assert (Fa : filed idx0 a).
      { rewrite Forall_forall in Ho. apply Ho. apply in_or_app. left. exact IaA. }
      pose proof (proj1 (filed_content idx0 a key Fa) Iah) as Hina.
      rewrite El in Hina. destruct Hina as [<-|[]].
      rewrite map_app in Hn. apply NoDup_remove_2 in Hn.
      apply Hn. apply in_or_app. left. apply in_map. exact IaA. }
    unfold bind. rewrite E.
    pose proof (track_insert _ _ _ _ _ _ T Ha E) as T1.
    destruct (IH (A ++ [d]) idx1 T1) as (idx' & E' & T').
    + rewrite <- app_assoc. exact Ho.
    + rewrite <- app_assoc. exact Hn.
    + intros x Hx. apply HR. right. exact Hx.
    + exists idx'. rewrite <- app_assoc in T'. auto.
Qed.

End Phases.
Section BatchUpdate.
Context {model : Model} {order : KeyOrder model}.

Lemma NoDup_refs_app_nil (l : list doc) :
  NoDup (map doc_ref l) -> NoDup (map doc_ref (l ++ [])).
Proof. rewrite app_nil_r. auto. Qed.

Lemma fresh_absent_without (idx : Index) (R : list doc) (d : doc) (k : value) :
  fresh idx d -> absent d (without_all R (content (tree idx) k)).
Proof.
  intros H. eapply absent_incl; [apply without_all_incl|].
  apply fresh_content. exact H.
Qed.

Lemma absent_filter (d : doc) (f : doc -> bool) (l : list doc) :
  absent d l -> absent d (filter f l).
Proof.
  intros H. eapply absent_incl; [|exact H].
  intros x Hx. apply filter_In in Hx. tauto.
Qed.

Lemma absent_prefix (pre post : list doc) (d : doc) :
  NoDup (map doc_ref (pre ++ d :: post)) -> absent d pre.
Proof.
  intros H x Hx E. rewrite map_app in H. simpl in H.
  apply NoDup_remove_2 in H. apply H. apply in_or_app. left.
  rewrite <- E. apply in_map. exact Hx.
Qed.

Lemma NoDup_prefix {A} (pre post : list A) :
  NoDup (pre ++ post) -> NoDup pre.
Proof.
  induction pre as [|a pre IH]; simpl; intros H; [constructor|].
  inversion H; subst. constructor; [|auto].
  intros Hin. apply H2. apply in_or_app. left. exact Hin.
Qed.

Lemma update_batch_tracked (idx0 idx' : Index) (pairs : list pair) (r : result unit) :
  update_ready idx0 pairs ->
  IndexOps.updateMultipleDocs pairs idx0 = (idx', r) ->
  match r with
  | Ok _ => tracked idx0 (rev (map oldDoc pairs)) (map newDoc pairs) idx'
            /\ Forall (alias_free idx0) (map newDoc pairs)
  | Throw e => tracked idx0 (rev (map oldDoc pairs)) (map oldDoc pairs) idx'
               /\ unique idx0 = true
               /\ batch_phases pairs idx0 idx' e
  end.
Proof.
  intros (W & Hr & Hu & Ho & Hno & Hc & Hnc) H.
  unfold IndexOps.updateMultipleDocs, bind in H.
  destruct (for_each (fun p => IndexOps.removeDoc (oldDoc p)) pairs idx0)
    as [idx1 r1] eqn:E1.
  pose proof E1 as E1'. rewrite for_each_map in E1'.
  destruct (phase_remove_olds idx0 _ [] _ _ _ (tracked_start idx0 W) Ho Hr
              (NoDup_refs_app_nil _ Hno) E1') as [-> T1].
  rewrite app_nil_r in T1.
  destruct (for_try (fun p => IndexOps.insertDoc (newDoc p)) pairs 0 idx1)
    as [idx2 [[[e i]|]|e]] eqn:E2.
  - (* an insertion was refused *)
    destruct (for_try_some _ _ _ _ _ _ _ E2) as (pre & p & post & s1 & -> & -> & Hpre & Hp).
    simpl in *. rewrite firstn_length_app in H.
    rewrite map_app in Hc, Hnc. simpl in Hc, Hnc.
    pose proof (proj1 (Forall_app _ _ _) Hc) as [Hcpre Hcp].
    inversion Hcp as [|? ? [Hpf _] _]; subst.
    pose proof Hpre as Hpre'. rewrite for_each_map in Hpre'.
    assert (Uq : unique idx0 = true).
    { destruct T1 as (_ & <- & _).
      rewrite <- (for_each_insertDoc_unique _ _ _ _ Hpre').
      exact (insertDoc_throw_unique _ _ _ _ Hp). }
    destruct (phase_insert_unique idx0 _ Uq _ [] _ _ T1 Hpre') as [T2 Hapre].
    simpl in T2.
    assert (Hab : forall k, absent (newDoc p) (content (tree s1) k)).
    { intros k. destruct T2 as (_ & _ & _ & _ & C). rewrite C.
      apply absent_app.
      - apply fresh_absent_without. exact Hpf.
      - apply absent_filter. eapply absent_prefix. exact Hnc. }
    pose proof (track_refused_any _ _ _ _ _ _ _ T2 Hab Hp) as T3.
    destruct (for_each (fun p0 => IndexOps.removeDoc (newDoc p0)) pre idx2)
      as [idx3 r3] eqn:E3.
    pose proof E3 as E3'. rewrite for_each_map in E3'.
    assert (Hnpre : NoDup (map doc_ref (map newDoc pre))).
    { rewrite map_app in Hnc. exact (NoDup_prefix _ _ Hnc). }
    assert (Hfpre : forall d, In d (map newDoc pre) -> forall k,
                 absent d (without_all (rev (map oldDoc (pre ++ p :: post)))
                                       (content (tree idx0) k))).
    { intros d Hd k. apply fresh_absent_without.
      rewrite Forall_forall in Hcpre. apply (Hcpre d Hd). }
    destruct (phase_remove_added idx0 _ _ _ _ _ T3 Hapre Hnpre Hfpre Hr E3')
      as [-> T4].
    destruct (phase_reinsert idx0 _ Hr Hu (map oldDoc (pre ++ p :: post)) [] idx3 T4)
      as (idx4 & E4 & T5).
    { exact Ho. }
    { exact Hno. }
    { intros d Hd. apply in_rev in Hd. exact Hd. }
    rewrite <- for_each_map in E4. rewrite E4 in H. simpl in H.
    injection H as <- <-. simpl in T5.
    split; [exact T5|]. split; [exact Uq|].
    exists (List.length pre), p, idx1, s1, idx2, idx3.
    rewrite firstn_length_app.
    repeat split; auto.
    rewrite nth_error_app2 by lia. rewrite Nat.sub_diag. reflexivity.
  - (* every insertion went through *)
    simpl in H. injection H as <- <-.
    apply for_try_none in E2. rewrite for_each_map in E2.
    destruct (unique idx0) eqn:Uq.
    + exact (phase_insert_unique idx0 _ Uq _ [] _ _ T1 E2).
    + assert (Ha : Forall (alias_free idx0) (map newDoc pairs)).
      { eapply Forall_impl; [|exact Hc]. simpl. intros c [_ Hc']. auto. }
      split; [|exact Ha].
      exact (phase_insert idx0 _ _ [] _ _ T1 Ha E2).
  - exfalso. exact (for_try_never_throws _ _ _ _ _ _ E2).
Qed.

End BatchUpdate.
Section Restoration.
Context {model : Model} {order : KeyOrder model}.

Lemma filter_split {A} (f : A -> bool) (l : list A) :
  Permutation l (filter (fun x => negb (f x)) l ++ filter f l).
Proof.
  induction l as [|x l IH]; simpl; [constructor|].
  destruct (f x); simpl.
  - apply Permutation_cons_app. exact IH.
  - constructor. exact IH.
Qed.

Lemma NoDup_of_refs (l : list doc) : NoDup (map doc_ref l) -> NoDup l.
Proof. apply NoDup_map_inv. Qed.

(** Documents taken out and put back: every key holds what it held, up to
    the order of the documents under the key. *)
Lemma put_back_permutation (idx0 : Index) (olds : list doc) (k : value) :
  refs_distinct idx0 ->
  Forall (filed idx0) olds ->
  NoDup (map doc_ref olds) ->
  Permutation
    (without_all (rev olds) (content (tree idx0) k) ++ filter (hits idx0 k) olds)
    (content (tree idx0) k).
Proof.
  intros Hr Hf Hn. symmetry.
  etransitivity; [apply (filter_split (fun x => existsb (checkValueEquality x) (rev olds)))|].
  apply Permutation_app_head.
  pose proof (refs_distinct_content idx0 k Hr) as Hl.
  apply NoDup_Permutation.
  - apply NoDup_filter. apply NoDup_of_refs. exact Hl.
  - apply NoDup_filter. apply NoDup_of_refs. exact Hn.
  - intros x. rewrite !filter_In. split.
    + intros [Hx Hex]. apply existsb_exists in Hex.
      destruct Hex as (o & Ho & Eo). apply in_rev in Ho.
      unfold checkValueEquality in Eo. apply Nat.eqb_eq in Eo.
      rewrite Forall_forall in Hf.
      destruct (filed_content idx0 o k (Hf o Ho)) as [F1 F2].
      destruct (hits idx0 k o) eqn:Hh.
      * pose proof (F1 eq_refl) as Hin.
        assert (x = o) by (apply (NoDup_refs_inj _ _ _ Hl Hx Hin Eo)).
        subst. auto.
      * exfalso. exact (F2 eq_refl x Hx Eo).
    + intros [Hx Hh]. rewrite Forall_forall in Hf.
      split.
      * apply (proj1 (filed_content idx0 x k (Hf x Hx)) Hh).
      * apply existsb_ref_In. apply in_rev. rewrite rev_involutive. exact Hx.
Qed.

Lemma short_permutation {A} (l l' : list A) :
  (List.length l <= 1)%nat -> Permutation l' l -> l' = l.
Proof.
  intros Hl P. destruct l as [|a [|b l]]; [| |simpl in Hl; lia].
  - apply Permutation_nil. symmetry. exact P.
  - apply Permutation_length_1_inv. symmetry. exact P.
Qed.

Lemma tracked_put_back (idx0 idx : Index) (olds : list doc) :
  refs_distinct idx0 ->
  Forall (filed idx0) olds ->
  NoDup (map doc_ref olds) ->
  tracked idx0 (rev olds) olds idx ->
  forall k, Permutation (content (tree idx) k) (content (tree idx0) k).
Proof.
  intros Hr Hf Hn (_ & _ & _ & _ & C) k. rewrite C.
  apply put_back_permutation; assumption.
Qed.

Lemma same_content_same_index (idx0 idx : Index) :
  fieldName idx = fieldName idx0 -> unique idx = unique idx0 ->
  sparse idx = sparse idx0 ->
  wf_tree (tree idx0) -> wf_tree (tree idx) ->
  (forall k, content (tree idx) k = content (tree idx0) k) ->
  same_index idx0 idx.
Proof.
  intros F U S W0 W C. unfold same_index. repeat split; auto.
  unfold IndexOps.getAll. apply content_ext; assumption.
Qed.

Lemma tracked_put_back_unique (idx0 idx : Index) (olds : list doc) :
  wf_tree (tree idx0) ->
  refs_distinct idx0 -> unique_bound idx0 -> unique idx0 = true ->
  Forall (filed idx0) olds ->
  NoDup (map doc_ref olds) ->
  tracked idx0 (rev olds) olds idx ->
  same_index idx0 idx.
Proof.
  intros W0 Hr Hu Uq Hf Hn T.
  pose proof (tracked_put_back idx0 idx olds Hr Hf Hn T) as P.
  destruct T as (F & U & S & W & _).
  apply same_content_same_index; auto.
  intros k. apply short_permutation; [|apply P].
  apply unique_bound_content; assumption.
Qed.

Lemma tracked_untouched (idx0 idx : Index) :
  wf_tree (tree idx0) -> tracked idx0 [] [] idx -> same_index idx0 idx.
Proof.
  intros W0 (F & U & S & W & C).
  apply same_content_same_index; auto.
  intros k. rewrite C, without_all_nil. simpl. apply app_nil_r.
Qed.

Lemma filed_of_ready (idx0 : Index) (pairs : list pair) :
  update_ready idx0 pairs -> Forall (filed idx0) (map oldDoc pairs).
Proof.
  intros (_ & _ & _ & H & _). eapply Forall_impl; [|exact H]. simpl. tauto.
Qed.

(** The batch that undoes a batch: run on the outcome of a successful
    update it succeeds, and the old documents are back. *)
Lemma revert_batch_tracked (idx0 idx1 : Index) (pairs : list pair) :
  update_ready idx0 pairs ->
  Forall (alias_free idx0) (map newDoc pairs) ->
  tracked idx0 (rev (map oldDoc pairs)) (map newDoc pairs) idx1 ->
  exists idx2,
    IndexOps.revertUpdate (Batch pairs) idx1 = (idx2, Ok tt)
    /\ tracked idx0 (rev (map oldDoc pairs)) (map oldDoc pairs) idx2.
Proof.
  intros (W & Hr & Hu & Ho & Hno & Hc & Hnc) Ha T.
  unfold IndexOps.revertUpdate, IndexOps.update, IndexOps.updateMultipleDocs, bind.
  rewrite for_each_map, map_map. simpl.
  destruct (for_each IndexOps.removeDoc (map (fun x => newDoc x) pairs) idx1)
    as [idx2 r2] eqn:E2.
  assert (Hf : forall d, In d (map newDoc pairs) -> forall k,
             absent d (without_all (rev (map oldDoc pairs)) (content (tree idx0) k))).
  { intros d Hd k. apply fresh_absent_without.
    rewrite Forall_forall in Hc. apply (Hc d Hd). }
  destruct (phase_remove_added idx0 _ _ _ _ _ T Ha Hnc Hf Hr E2) as [-> T2].
  destruct (phase_reinsert idx0 _ Hr Hu (map oldDoc pairs) [] idx2 T2)
    as (idx3 & E3 & T3).
  { exact Ho. }
  { exact Hno. }
  { intros d Hd. apply in_rev in Hd. exact Hd. }
  exists idx3. split; [|exact T3].
  rewrite for_try_map, map_map. simpl.
  change (map (fun x : pair => oldDoc x) pairs) with (map oldDoc pairs).
  rewrite (for_try_all_ok _ _ 0 _ _ E3). reflexivity.
Qed.

Lemma update_replace_is_batch (o n : doc) (idx : Index) :
  IndexOps.update (Replace o n) idx
  = IndexOps.updateMultipleDocs [Pair o n] idx.
Proof.
  unfold IndexOps.update, IndexOps.updateMultipleDocs, bind, try_catch. simpl.
  unfold bind.
  destruct (IndexOps.removeDoc o idx) as [idx1 [[]|e]]; [|reflexivity].
  simpl. destruct (IndexOps.insertDoc n idx1) as [idx2 [[]|e]]; simpl; [reflexivity|].
  destruct (IndexOps.insertDoc o idx2) as [idx3 [[]|e']]; reflexivity.
Qed.

End Restoration.
Section BatchUpdateClaim.
Context {model : Model} {order : KeyOrder model}.

Lemma update_batch_ok_shape (pairs : list pair) (idx idx' : Index) :
  IndexOps.updateMultipleDocs pairs idx = (idx', Ok tt) ->
  exists idx1,
    for_each (fun p => IndexOps.removeDoc (oldDoc p)) pairs idx = (idx1, Ok tt)
    /\ for_each (fun p => IndexOps.insertDoc (newDoc p)) pairs idx1 = (idx', Ok tt).
Proof.
  unfold IndexOps.updateMultipleDocs, bind. intros H.
  destruct (for_each (fun p => IndexOps.removeDoc (oldDoc p)) pairs idx)
    as [idx1 [[]|e1]]; [|discriminate].
  exists idx1. split; [reflexivity|].
  destruct (for_try (fun p => IndexOps.insertDoc (newDoc p)) pairs 0 idx1)
    as [idx2 [[[e i]|]|e]] eqn:E2.
  - exfalso.
    destruct (for_each (fun p => IndexOps.removeDoc (newDoc p)) (firstn i pairs) idx2)
      as [idx3 [[]|e3]]; [|discriminate].
    destruct (for_each (fun p => IndexOps.insertDoc (oldDoc p)) pairs idx3)
      as [idx4 [[]|e4]]; discriminate.
  - apply for_try_none in E2. simpl in H. injection H as <-. exact E2.
  - discriminate.
Qed.

(** C2. [Index.updateMultipleDocs] is two-phase: a run that succeeds has
    removed every oldDoc and then inserted every newDoc, in order.  A run
    that fails has removed every oldDoc, inserted the newDocs before
    position [i], met the refusal at position [i], removed the newDocs it
    had inserted, re-inserted every oldDoc and thrown the error of the
    refusal; the index then holds under every key the documents it held
    before the call, and its in-order traversal is the one before the
    call.  The index is taken in a state its own operations build (sorted
    keys, no empty node, no document twice in a node, one document per
    node when unique); the old documents are the distinct documents it
    files, under keys that the order tells apart; the new documents are
    distinct objects that the index does not hold yet (filed, in an index
    that is not unique, under keys that the order tells apart). *)
Theorem updateMultipleDocs_two_phase_rollback
  (idx idx' : Index) (pairs : list pair) (r : result unit) :
  update_ready idx pairs ->
  IndexOps.updateMultipleDocs pairs idx = (idx', r) ->
  match r with
  | Ok _ =>
      exists idx1,
        for_each (fun p => IndexOps.removeDoc (oldDoc p)) pairs idx = (idx1, Ok tt)
        /\ for_each (fun p => IndexOps.insertDoc (newDoc p)) pairs idx1 = (idx', Ok tt)
  | Throw e => batch_phases pairs idx idx' e /\ same_index idx idx'
  end.
Proof.
  intros Hready H. destruct r as [[]|e].
  - apply update_batch_ok_shape. exact H.
  - pose proof (update_batch_tracked idx idx' pairs _ Hready H) as (T & Uq & Ph).
    split; [exact Ph|].
    destruct Hready as (W & Hr & Hu & Ho & Hno & _).
    apply (tracked_put_back_unique idx idx' (map oldDoc pairs)); auto.
    eapply Forall_impl; [|exact Ho]. simpl. tauto.
Qed.

End BatchUpdateClaim.

Section ObjectSet.
Context {A : Type}.

Lemma obj_get_obj_set_same (o : list (string * A)) (k : string) (x : A) :
  obj_get (obj_set o k x) k = Some x.
Proof.
  induction o as [|[k' x'] o IH]; simpl.
  - rewrite String.eqb_refl. reflexivity.
  - destruct (String.eqb k' k) eqn:E; simpl; rewrite E; [reflexivity|exact IH].
Qed.

Lemma obj_get_obj_set_other (o : list (string * A)) (k k' : string) (x : A) :
  k' <> k -> obj_get (obj_set o k x) k' = obj_get o k'.
Proof.
  intros N. induction o as [|[k1 x1] o IH]; simpl.
  - destruct (String.eqb_spec k k'); [congruence|reflexivity].
  - destruct (String.eqb_spec k1 k) as [->|N1]; simpl.
    + destruct (String.eqb_spec k k'); [congruence|reflexivity].
    + destruct (String.eqb k1 k'); [reflexivity|exact IH].
Qed.

Lemma map_fst_obj_set (o : list (string * A)) (k : string) (x y : A) :
  obj_get o k = Some y -> map fst (obj_set o k x) = map fst o.
Proof.
  induction o as [|[k1 x1] o IH]; simpl; [discriminate|].
  destruct (String.eqb_spec k1 k) as [->|N1]; simpl; [reflexivity|].
  intros H. rewrite (IH H). reflexivity.
Qed.

Lemma obj_get_In (o : list (string * A)) (k : string) (x : A) :
  obj_get o k = Some x -> In (k, x) o.
Proof.
  induction o as [|[k1 x1] o IH]; simpl; [discriminate|].
  destruct (String.eqb_spec k1 k) as [->|N1].
  - intros H. injection H as ->. left. reflexivity.
  - intros H. right. apply IH. exact H.
Qed.

Lemma obj_get_of_key (o : list (string * A)) (k : string) :
  In k (map fst o) -> exists x, obj_get o k = Some x.
Proof.
  induction o as [|[k1 x1] o IH]; simpl; [intros []|].
  destruct (String.eqb_spec k1 k) as [->|N1]; [eauto|].
  intros [H|H]; [congruence|apply IH; exact H].
Qed.

#[local] Abbreviation key_of := (fun e : Z * (string * A) => (fst e, fst (snd e))).

Lemma insert_index_key_keys (n : Z) (kv kv' : string * A) :
  fst kv = fst kv' ->
  forall acc acc',
    map key_of acc = map key_of acc' ->
    map key_of (insert_index_key n kv acc) = map key_of (insert_index_key n kv' acc').
Proof.
  intros E. induction acc as [|[m e] acc IH]; intros [|[m' e'] acc'] H;
    simpl in H; try discriminate.
  - simpl. rewrite E. reflexivity.
  - injection H as -> He H. simpl.
    destruct (n <? m'); simpl.
    + rewrite E, He, H. reflexivity.
    + rewrite He, (IH acc' H). reflexivity.
Qed.

Lemma indexed_keys (o o' : list (string * A)) :
  map fst o = map fst o' ->
  forall acc acc',
    map key_of acc = map key_of acc' ->
    map key_of
      (fold_left (fun acc kv =>
                    match array_index (fst kv) with
                    | Some n => insert_index_key n kv acc
                    | None => acc
                    end) o acc)
    = map key_of
        (fold_left (fun acc kv =>
                      match array_index (fst kv) with
                      | Some n => insert_index_key n kv acc
                      | None => acc
                      end) o' acc').
Proof.
  revert o'. induction o as [|kv o IH]; intros [|kv' o'] H acc acc' Ha;
    simpl in H; try discriminate; [exact Ha|].
  injection H as E H. simpl. apply IH; [exact H|].
  rewrite E. destruct (array_index (fst kv')); [|exact Ha].
  apply insert_index_key_keys; assumption.
Qed.

Lemma filter_keys (f : string -> bool) (o o' : list (string * A)) :
  map fst o = map fst o' ->
  map fst (filter (fun kv => f (fst kv)) o) = map fst (filter (fun kv => f (fst kv)) o').
Proof.
  revert o'. induction o as [|kv o IH]; intros [|kv' o'] H; simpl in H;
    try discriminate; [reflexivity|].
  injection H as E H. simpl. rewrite E.
  destruct (f (fst kv')); simpl; [rewrite E|]; rewrite (IH _ H); reflexivity.
Qed.

(** The keys of an object, and their order, depend on its keys alone. *)
Lemma Object_keys_fst (o o' : list (string * A)) :
  map fst o = map fst o' -> Object_keys o = Object_keys o'.
Proof.
  intros H. unfold Object_keys, own_entries. rewrite !map_app. f_equal.
  - pose proof (indexed_keys o o' H [] [] eq_refl) as K.
    apply (f_equal (map snd)) in K. rewrite !map_map in K. simpl in K.
    rewrite !map_map. exact K.
  - apply (filter_keys (fun k => match array_index k with
                                 | Some _ => false | None => true end)).
    exact H.
Qed.

Lemma Object_keys_obj_set (o : list (string * A)) (k : string) (x y : A) :
  obj_get o k = Some y -> Object_keys (obj_set o k x) = Object_keys o.
Proof. intros H. apply Object_keys_fst. eapply map_fst_obj_set. exact H. Qed.

Lemma obj_get_of_Object_key (o : list (string * A)) (k : string) :
  In k (Object_keys o) -> exists x, obj_get o k = Some x.
Proof. intros H. apply obj_get_of_key. apply In_Object_keys. exact H. Qed.

End ObjectSet.

Section StoreLoops.
Context {model : Model} {env : Env}.

Lemma store_rel_mono (rho rho' : string -> Index -> Index -> Prop) (db0 db : MemoryDB) :
  (forall name a b, rho name a b -> rho' name a b) ->
  store_rel rho db0 db -> store_rel rho' db0 db.
Proof.
  intros Hm (F & K & H). repeat split; try apply F; [exact K|].
  intros name idx0 H0. destruct (H name idx0 H0) as (idx & H1 & H2).
  exists idx. split; [exact H1|]. apply Hm. exact H2.
Qed.

Lemma store_rel_start (rho : string -> Index -> Index -> Prop) (db0 : MemoryDB) :
  (forall name idx0, obj_get (indexes db0) name = Some idx0 -> rho name idx0 idx0) ->
  store_rel rho db0 db0.
Proof.
  intros H. split; [apply same_frame_refl|]. split; [reflexivity|].
  intros name idx0 H0. exists idx0. auto.
Qed.

(** One operation on one index of a related store. *)
Lemma store_rel_step {X} (rho : string -> Index -> Index -> Prop)
  (db0 db db' : MemoryDB) (k : string) (op : M Index X) (r : result X) :
  store_rel rho db0 db ->
  In k (Object_keys (indexes db0)) ->
  MemoryDBOps.on_index k op db = (db', r) ->
  exists idx0 idx idx',
    obj_get (indexes db0) k = Some idx0
    /\ rho k idx0 idx
    /\ op idx = (idx', r)
    /\ forall Q : Index -> Index -> Prop,
         Q idx0 idx' ->
         store_rel (fun name => if String.eqb name k then Q else rho name) db0 db'.
Proof.
  intros (F & K & H) Hk Hrun.
  destruct (obj_get_of_Object_key _ _ Hk) as [idx0 H0].
  destruct (H k idx0 H0) as (idx & H1 & H2).
  unfold MemoryDBOps.on_index in Hrun. rewrite H1 in Hrun.
  destruct (op idx) as [idx' r'] eqn:E. injection Hrun as <- <-.
  exists idx0, idx, idx'. repeat split; auto; try apply F.
  - simpl. rewrite (Object_keys_obj_set _ _ _ _ H1). exact K.
  - intros name i0 Hi0. simpl.
    destruct (String.eqb_spec name k) as [->|N].
    + rewrite obj_get_obj_set_same. exists idx'. split; [reflexivity|].
      congruence.
    + rewrite (obj_get_obj_set_other _ _ _ _ N). apply H. exact Hi0.
Qed.

Lemma on_names_nil (Q : Index -> Index -> Prop) rho name a b :
  on_names [] Q rho name a b <-> rho name a b.
Proof. unfold on_names. simpl. tauto. Qed.

Lemma on_names_out (ks : list string) (Q : Index -> Index -> Prop) rho name :
  ~ In name ks -> on_names ks Q rho name = rho name.
Proof.
  intros N. unfold on_names.
  destruct (existsb (String.eqb name) ks) eqn:E; [|reflexivity].
  exfalso. apply N. apply existsb_exists in E. destruct E as (x & Hx & Ex).
  apply String.eqb_eq in Ex. subst. exact Hx.
Qed.

Lemma on_names_in (ks : list string) (Q : Index -> Index -> Prop) rho name :
  In name ks -> on_names ks Q rho name = Q.
Proof.
  intros N. unfold on_names.
  destruct (existsb (String.eqb name) ks) eqn:E; [reflexivity|].
  exfalso. assert (X : existsb (String.eqb name) ks = true).
  { apply existsb_exists. exists name. split; [exact N|apply String.eqb_refl]. }
  congruence.
Qed.

Lemma on_names_hit (ks : list string) (Q : Index -> Index -> Prop) rho name a b :
  In name ks -> on_names ks Q rho name a b -> Q a b.
Proof. intros H. rewrite (on_names_in ks Q rho name H). auto. Qed.

Lemma on_names_cons (k : string) (ks : list string) (Q : Index -> Index -> Prop)
  rho name a b :
  on_names ks Q (fun name => if String.eqb name k then Q else rho name) name a b ->
  on_names (k :: ks) Q rho name a b.
Proof.
  unfold on_names. simpl.
  destruct (String.eqb name k); simpl; [|auto].
  destruct (existsb (String.eqb name) ks); auto.
Qed.

(** A loop over index names whose operation succeeds at every name takes
    the indexes of these names from their relation to [Q]. *)
Lemma store_loop {P : Index -> Index -> Prop} (Q : Index -> Index -> Prop)
  (op : M Index unit) (db0 : MemoryDB) :
  (forall idx0 idx idx', P idx0 idx -> op idx = (idx', Ok tt) -> Q idx0 idx') ->
  forall ks rho db db',
    NoDup ks ->
    (forall k, In k ks -> In k (Object_keys (indexes db0))) ->
    (forall k a b, In k ks -> rho k a b -> P a b) ->
    store_rel rho db0 db ->
    for_each (fun k => MemoryDBOps.on_index k op) ks db = (db', Ok tt) ->
    store_rel (on_names ks Q rho) db0 db'.
Proof.
  intros Hop. induction ks as [|k ks IH]; intros rho db db' Hn Hin HP Hrel H;
    simpl in H.
  - injection H as <-. eapply store_rel_mono; [|exact Hrel].
    intros name a b. apply on_names_nil.
  - unfold bind in H.
    destruct (MemoryDBOps.on_index k op db) as [db1 [[]|e]] eqn:E; [|discriminate].
    inversion Hn as [|? ? Hk Hn']; subst.
    destruct (store_rel_step rho db0 db db1 k op _ Hrel (Hin k (or_introl eq_refl)) E)
      as (idx0 & idx & idx' & H0 & Hr & Ho & Hnext).
    pose proof (Hnext Q (Hop _ _ _ (HP _ _ _ (or_introl eq_refl) Hr) Ho)) as Hrel1.
    eapply store_rel_mono; [apply on_names_cons|].
    apply (IH _ db1 db' Hn'); auto.
    + intros x Hx. apply Hin. right. exact Hx.
    + intros x a b Hx. destruct (String.eqb_spec x k) as [->|N]; [contradiction|].
      apply HP. right. exact Hx.
Qed.

(** The same for an operation that cannot fail. *)
Lemma store_loop_total {P : Index -> Index -> Prop} (Q : Index -> Index -> Prop)
  (op : M Index unit) (db0 : MemoryDB) :
  (forall idx0 idx idx' r, P idx0 idx -> op idx = (idx', r) -> r = Ok tt /\ Q idx0 idx') ->
  forall ks rho db db' r,
    NoDup ks ->
    (forall k, In k ks -> In k (Object_keys (indexes db0))) ->
    (forall k a b, In k ks -> rho k a b -> P a b) ->
    store_rel rho db0 db ->
    for_each (fun k => MemoryDBOps.on_index k op) ks db = (db', r) ->
    r = Ok tt /\ store_rel (on_names ks Q rho) db0 db'.
Proof.
  intros Hop. induction ks as [|k ks IH]; intros rho db db' r Hn Hin HP Hrel H;
    simpl in H.
  - injection H as <- <-. split; [reflexivity|].
    eapply store_rel_mono; [|exact Hrel].
    intros name a b. apply on_names_nil.
  - unfold bind in H.
    destruct (MemoryDBOps.on_index k op db) as [db1 r1] eqn:E.
    inversion Hn as [|? ? Hk Hn']; subst.
    destruct (store_rel_step rho db0 db db1 k op _ Hrel (Hin k (or_introl eq_refl)) E)
      as (idx0 & idx & idx' & H0 & Hr & Ho & Hnext).
    destruct (Hop _ _ _ _ (HP _ _ _ (or_introl eq_refl) Hr) Ho) as [-> Hq].
    pose proof (Hnext Q Hq) as Hrel1.
    assert (Hin' : forall x, In x ks -> In x (Object_keys (indexes db0))).
    { intros x Hx. apply Hin. right. exact Hx. }
    assert (HP' : forall x a b, In x ks ->
                    (if String.eqb x k then Q else rho x) a b -> P a b).
    { intros x a b Hx. destruct (String.eqb_spec x k) as [->|N]; [contradiction|].
      apply HP. right. exact Hx. }
    destruct (IH _ db1 db' r Hn' Hin' HP' Hrel1 H) as [-> Hrel'].
    split; [reflexivity|].
    eapply store_rel_mono; [apply on_names_cons|]. exact Hrel'.
Qed.

(** The loop that stops at the first failure: the names before the
    failure are taken to [Q], the name of the failure to [F]. *)
Lemma store_try {P : Index -> Index -> Prop} (Q F : Index -> Index -> Prop)
  (op : M Index unit) (db0 : MemoryDB) :
  (forall idx0 idx idx', P idx0 idx -> op idx = (idx', Ok tt) -> Q idx0 idx') ->
  (forall idx0 idx idx' e, P idx0 idx -> op idx = (idx', Throw e) -> F idx0 idx') ->
  forall ks rho db db' res,
    NoDup ks ->
    (forall k, In k ks -> In k (Object_keys (indexes db0))) ->
    (forall k a b, In k ks -> rho k a b -> P a b) ->
    store_rel rho db0 db ->
    for_try (fun k => MemoryDBOps.on_index k op) ks 0 db = (db', Ok res) ->
    match res with
    | None => store_rel (on_names ks Q rho) db0 db'
    | Some (e, i) =>
        exists pre k post,
          ks = pre ++ k :: post
          /\ i = List.length pre
          /\ store_rel (on_names pre Q
                          (fun name => if String.eqb name k then F else rho name))
                       db0 db'
    end.
Proof.
  intros Hok Hfail ks rho db db' res Hn Hin HP Hrel H.
  destruct res as [[e i]|].
  - destruct (for_try_some _ _ _ _ _ _ _ H) as (pre & k & post & db1 & -> & -> & H1 & H2).
    exists pre, k, post. split; [reflexivity|]. split; [reflexivity|].
    assert (Hnpre : NoDup pre) by (eapply NoDup_prefix; exact Hn).
    assert (Hkpre : ~ In k pre).
    { apply NoDup_remove_2 in Hn. intros X. apply Hn. apply in_or_app. auto. }
    pose proof (store_loop (P := P) Q op db0 Hok pre rho db db1 Hnpre) as L.
    assert (Hrel1 : store_rel (on_names pre Q rho) db0 db1).
    { apply L; auto.
      - intros x Hx. apply Hin. apply in_or_app. auto.
      - intros x a b Hx. apply HP. apply in_or_app. auto. }
    assert (Hk : In k (Object_keys (indexes db0))).
    { apply Hin. apply in_or_app. right. left. reflexivity. }
    destruct (store_rel_step _ db0 db1 db' k op _ Hrel1 Hk H2)
      as (idx0 & idx & idx' & H0 & Hr & Ho & Hnext).
    rewrite (on_names_out pre Q rho k Hkpre) in Hr.
    assert (Hp : P idx0 idx).
    { apply (HP k); [apply in_or_app; right; left; reflexivity|exact Hr]. }
    eapply store_rel_mono; [|exact (Hnext F (Hfail _ _ _ _ Hp Ho))].
    intros name a b. unfold on_names. simpl.
    destruct (String.eqb_spec name k) as [->|N].
    + assert (X : existsb (String.eqb k) pre = false).
      { destruct (existsb (String.eqb k) pre) eqn:X; [exfalso|reflexivity].
        apply Hkpre. apply existsb_exists in X.
        destruct X as (x & Hx & Ex). apply String.eqb_eq in Ex. subst. exact Hx. }
      rewrite X. auto.
    + auto.
  - apply for_try_none in H.
    apply (store_loop (P := P) Q op db0 Hok ks rho db db'); auto.
Qed.

(** Only the relations of the names of the store matter. *)
Lemma store_rel_names (rho rho' : string -> Index -> Index -> Prop) (db0 db : MemoryDB) :
  (forall name a b, In name (Object_keys (indexes db0)) -> rho name a b -> rho' name a b) ->
  store_rel rho db0 db -> store_rel rho' db0 db.
Proof.
  intros Hm (F & K & H). repeat split; try apply F; [exact K|].
  intros name idx0 H0. destruct (H name idx0 H0) as (idx & H1 & H2).
  exists idx. split; [exact H1|]. apply Hm; [|exact H2].
  apply In_Object_keys. apply obj_get_In in H0.
  apply in_map_iff. exists (name, idx0). auto.
Qed.

End StoreLoops.
Section InsertRollback.
Context {model : Model} {env : Env} {order : KeyOrder model}.

Lemma Forall_without (P : doc -> Prop) (d : doc) (l : list doc) :
  Forall P l -> Forall P (without d l).
Proof.
  intros H. apply Forall_forall. intros x Hx. unfold without in Hx.
  apply filter_In in Hx. rewrite Forall_forall in H. apply H. apply Hx.
Qed.

Lemma inserting_ok (ds A : list doc) (d : doc) (idx0 idx idx' : Index) :
  In d ds ->
  inserting ds A idx0 idx ->
  IndexOps.insert (One d) idx = (idx', Ok tt) ->
  inserting ds (A ++ [d]) idx0 idx'.
Proof.
  intros Hd (Hready & Ha & T) H. simpl in H.
  assert (Had : alias_free idx0 d).
  { destruct (unique idx0) eqn:Uq.
    - destruct T as (F & U & S & W & _).
      apply (alias_free_same idx0 idx); [congruence|congruence|].
      apply (insertDoc_unique_alias_free d idx idx'); [apply W|congruence|exact H].
    - destruct Hready as (_ & _ & Hds). rewrite Forall_forall in Hds.
      apply (Hds d Hd). exact Uq. }
  split; [exact Hready|]. split.
  - apply Forall_app. split; [exact Ha|]. constructor; [exact Had|constructor].
  - exact (track_insert _ _ _ _ _ _ T Had H).
Qed.

Lemma inserting_refused (ds A : list doc) (d : doc) (idx0 idx idx' : Index) (e : error) :
  In d ds -> absent d A ->
  inserting ds A idx0 idx ->
  IndexOps.insert (One d) idx = (idx', Throw e) ->
  inserting ds A idx0 idx'.
Proof.
  intros Hd Hab (Hready & Ha & T) H. simpl in H.
  split; [exact Hready|]. split; [exact Ha|].
  apply (track_refused_any _ _ _ _ _ d e T); [|exact H].
  intros k. destruct T as (_ & _ & _ & _ & C). rewrite C.
  apply absent_app.
  - apply fresh_absent_without. destruct Hready as (_ & _ & Hds).
    rewrite Forall_forall in Hds. apply (Hds d Hd).
  - apply absent_filter. exact Hab.
Qed.

Lemma inserting_removed (ds A : list doc) (d : doc) (idx0 idx idx' : Index)
  (r : result unit) :
  In d ds -> In d A -> NoDup (map doc_ref A) ->
  inserting ds A idx0 idx ->
  IndexOps.remove (One d) idx = (idx', r) ->
  r = Ok tt /\ inserting ds (without d A) idx0 idx'.
Proof.
  intros Hd HdA Hn (Hready & Ha & T) H. simpl in H.
  pose proof Hready as (W & Hr & Hds).
  assert (Had : alias_free idx0 d).
  { rewrite Forall_forall in Ha. apply Ha. exact HdA. }
  assert (Hf : forall k, absent d (without_all [] (content (tree idx0) k))).
  { intros k. apply fresh_absent_without. rewrite Forall_forall in Hds.
    apply (Hds d Hd). }
  destruct (track_remove_added _ _ _ _ _ _ _ T Had HdA Hn Hf Hr H) as [-> T'].
  split; [reflexivity|]. split; [exact Hready|]. split; [|exact T'].
  apply Forall_without. exact Ha.
Qed.

Lemma without_last (d : doc) (A : list doc) :
  absent d A -> without d (A ++ [d]) = A.
Proof.
  intros H. rewrite without_app, (without_absent _ _ H), without_self.
  apply app_nil_r.
Qed.

Lemma NoDup_refs_snoc (d : doc) (A : list doc) :
  NoDup (map doc_ref A) -> absent d A -> NoDup (map doc_ref (A ++ [d])).
Proof.
  intros Hn Hab. rewrite map_app. simpl.
  apply (Permutation_NoDup (l := doc_ref d :: map doc_ref A));
    [apply Permutation_cons_append|].
  constructor; [|exact Hn].
  intros X. apply in_map_iff in X. destruct X as (x & Ex & Hx).
  exact (Hab x Hx Ex).
Qed.

End InsertRollback.
Section StoreInsertRollback.
Context {model : Model} {env : Env} {order : KeyOrder model}.

#[local] Abbreviation stage ds A := (store_rel (fun _ : string => inserting ds A)).

Lemma stage_keys (ds A : list doc) (db0 db : MemoryDB) :
  stage ds A db0 db -> Object_keys (indexes db) = Object_keys (indexes db0).
Proof. intros (_ & K & _). exact K. Qed.

(** [addToIndexes]: the document is in every index, or in none. *)
Lemma addToIndexes_stage (ds A : list doc) (d : doc) (db0 db db' : MemoryDB)
  (r : result unit) :
  NoDup (Object_keys (indexes db0)) ->
  In d ds -> absent d A -> NoDup (map doc_ref A) ->
  stage ds A db0 db ->
  MemoryDBOps.addToIndexes d db = (db', r) ->
  match r with
  | Ok _ => stage ds (A ++ [d]) db0 db'
  | Throw _ => stage ds A db0 db'
  end.
Proof.
  intros Hk Hd Hab Hn Hrel H.
  unfold MemoryDBOps.addToIndexes, bind, get in H.
  rewrite (stage_keys _ _ _ _ Hrel) in H.
  destruct (for_try (fun k => MemoryDBOps.on_index k (IndexOps.insert (One d)))
              (Object_keys (indexes db0)) 0 db) as [db1 [res|e]] eqn:E;
    [|exfalso; exact (for_try_never_throws _ _ _ _ _ _ E)].
  pose proof (store_try (P := inserting ds A) (inserting ds (A ++ [d]))
                (inserting ds A) (IndexOps.insert (One d)) db0
                (fun a b c => inserting_ok ds A d a b c Hd)
                (fun a b c e => inserting_refused ds A d a b c e Hd Hab)
                _ _ db db1 res Hk (fun k Hin => Hin) (fun k a b _ Hp => Hp) Hrel E)
    as Hres.
  destruct res as [[e i]|].
  - destruct Hres as (pre & k & post & Eks & -> & Hrel1).
    rewrite Eks, firstn_length_app in H.
    destruct (for_each (fun k0 => MemoryDBOps.on_index k0 (IndexOps.remove (One d)))
                pre db1) as [db2 r2] eqn:E2.
    assert (Hnpre : NoDup pre).
    { rewrite Eks in Hk. eapply NoDup_prefix. exact Hk. }
    assert (Hop : forall idx0 idx idx' r0,
               inserting ds (A ++ [d]) idx0 idx ->
               IndexOps.remove (One d) idx = (idx', r0) ->
               r0 = Ok tt /\ inserting ds A idx0 idx').
    { intros idx0 idx idx' r0 Hp Ho.
      assert (HdA : In d (A ++ [d])) by (apply in_or_app; right; left; reflexivity).
      destruct (inserting_removed ds (A ++ [d]) d idx0 idx idx' r0 Hd HdA
                  (NoDup_refs_snoc d A Hn Hab) Hp Ho) as [-> Hq].
      rewrite (without_last d A Hab) in Hq. auto. }
    assert (Hin' : forall x, In x pre -> In x (Object_keys (indexes db0))).
    { intros x Hx. rewrite Eks. apply in_or_app. auto. }
    destruct (store_loop_total (P := inserting ds (A ++ [d])) (inserting ds A)
                (IndexOps.remove (One d)) db0 Hop pre _ db1 db2 r2 Hnpre Hin'
                (fun x a b Hx => on_names_hit pre _ _ x a b Hx)
                Hrel1 E2) as [-> Hrel2].
    simpl in H. injection H as <- <-.
    eapply store_rel_mono; [|exact Hrel2].
    intros name a b. unfold on_names.
    destruct (existsb (String.eqb name) pre); [auto|].
    destruct (String.eqb name k); auto.
  - simpl in H. injection H as <- <-.
    eapply store_rel_names; [|exact Hres].
    intros name a b Hin. rewrite (on_names_in _ _ _ name Hin). auto.
Qed.

(** [removeFromIndexes] takes the document out of every index. *)
Lemma removeFromIndexes_stage (ds A : list doc) (d : doc) (db0 db db' : MemoryDB)
  (r : result unit) :
  NoDup (Object_keys (indexes db0)) ->
  In d ds -> In d A -> NoDup (map doc_ref A) ->
  stage ds A db0 db ->
  MemoryDBOps.removeFromIndexes d db = (db', r) ->
  r = Ok tt /\ stage ds (without d A) db0 db'.
Proof.
  intros Hk Hd HdA Hn Hrel H.
  unfold MemoryDBOps.removeFromIndexes, bind, get in H.
  rewrite (stage_keys _ _ _ _ Hrel) in H.
  destruct (store_loop_total (P := inserting ds A) (inserting ds (without d A))
              (IndexOps.remove (One d)) db0
              (fun idx0 idx idx' r0 => inserting_removed ds A d idx0 idx idx' r0 Hd HdA Hn)
              _ _ db db' r Hk (fun k Hin => Hin) (fun k a b _ Hp => Hp) Hrel H)
    as [-> Hrel2].
  split; [reflexivity|].
  eapply store_rel_names; [|exact Hrel2].
  intros name a b Hin. rewrite (on_names_in _ _ _ name Hin). auto.
Qed.

Lemma adds_stage (ds : list doc) (db0 : MemoryDB) :
  NoDup (Object_keys (indexes db0)) ->
  forall pre A db db',
    incl pre ds -> NoDup (map doc_ref (A ++ pre)) ->
    stage ds A db0 db ->
    for_each MemoryDBOps.addToIndexes pre db = (db', Ok tt) ->
    stage ds (A ++ pre) db0 db'.
Proof.
  intros Hk. induction pre as [|d pre IH]; intros A db db' Hin Hn Hrel H; simpl in H.
  - injection H as <-. rewrite app_nil_r. exact Hrel.
  - unfold bind in H.
    destruct (MemoryDBOps.addToIndexes d db) as [db1 [[]|e]] eqn:E; [|discriminate].
    assert (Hab : absent d A) by (eapply absent_prefix; exact Hn).
    assert (HnA : NoDup (map doc_ref A)).
    { rewrite map_app in Hn. eapply NoDup_prefix. exact Hn. }
    pose proof (addToIndexes_stage ds A d db0 db db1 _ Hk
                  (Hin d (or_introl eq_refl)) Hab HnA Hrel E) as Hrel1.
    simpl in Hrel1.
    replace (A ++ d :: pre) with ((A ++ [d]) ++ pre)
      by (rewrite <- app_assoc; reflexivity).
    apply (IH (A ++ [d]) db1 db'); auto.
    + intros x Hx. apply Hin. right. exact Hx.
    + rewrite <- app_assoc. exact Hn.
Qed.

Lemma removes_stage (ds : list doc) (db0 : MemoryDB) :
  NoDup (Object_keys (indexes db0)) ->
  forall pre db db' r,
    incl pre ds -> NoDup (map doc_ref pre) ->
    stage ds pre db0 db ->
    for_each MemoryDBOps.removeFromIndexes pre db = (db', r) ->
    r = Ok tt /\ stage ds [] db0 db'.
Proof.
  intros Hk. induction pre as [|d pre IH]; intros db db' r Hin Hn Hrel H; simpl in H.
  - injection H as <- <-. auto.
  - unfold bind in H.
    destruct (MemoryDBOps.removeFromIndexes d db) as [db1 r1] eqn:E.
    destruct (removeFromIndexes_stage ds (d :: pre) d db0 db db1 r1 Hk
                (Hin d (or_introl eq_refl)) (or_introl eq_refl) Hn Hrel E)
      as [-> Hrel1].
    rewrite (without_head d pre Hn) in Hrel1.
    simpl in Hn. inversion Hn; subst.
    apply (IH db1 db' r); auto.
    intros x Hx. apply Hin. right. exact Hx.
Qed.

Lemma stage_start (ds : list doc) (db0 : MemoryDB) :
  store_insert_ready db0 ds -> stage ds [] db0 db0.
Proof.
  intros (_ & _ & Hall). apply store_rel_start. intros name idx0 H0.
  rewrite Forall_forall in Hall. apply obj_get_In in H0.
  pose proof (Hall _ H0) as Hr. simpl in Hr.
  split; [exact Hr|]. split; [constructor|].
  apply tracked_start. apply Hr.
Qed.

Lemma stage_end (ds : list doc) (db0 db : MemoryDB) :
  stage ds [] db0 db -> indexes_related same_index db0 db.
Proof.
  apply store_rel_mono. intros _ a b ((W & _) & _ & T).
  apply tracked_untouched; assumption.
Qed.

Lemma insertMultipleDocsInCache_stage (ds : list doc) (db0 db' : MemoryDB) (e : error) :
  store_insert_ready db0 ds ->
  MemoryDBOps._insertMultipleDocsInCache ds db0 = (db', Throw e) ->
  stage ds [] db0 db'.
Proof.
  intros Hready H. pose proof Hready as (Hk & Hn & _).
  pose proof (stage_start ds db0 Hready) as Hrel.
  unfold MemoryDBOps._insertMultipleDocsInCache, bind in H.
  destruct (for_try MemoryDBOps.addToIndexes ds 0 db0) as [db1 [[[e1 i]|]|e1]] eqn:E;
    [| discriminate | exfalso; exact (for_try_never_throws _ _ _ _ _ _ E)].
  destruct (for_try_some _ _ _ _ _ _ _ E) as (pre & d & post & db2 & Eds & -> & H1 & H2).
  simpl in H. rewrite Eds, firstn_length_app in H.
  assert (Hpre : incl pre ds).
  { intros x Hx. rewrite Eds. apply in_or_app. auto. }
  assert (Hnpre : NoDup (map doc_ref pre)).
  { rewrite Eds, map_app in Hn. eapply NoDup_prefix. exact Hn. }
  pose proof (adds_stage ds db0 Hk pre [] db0 db2 Hpre Hnpre Hrel H1) as Hrel2.
  simpl in Hrel2.
  assert (Hd : In d ds).
  { rewrite Eds. apply in_or_app. right. left. reflexivity. }
  assert (Hab : absent d pre).
  { rewrite Eds in Hn. eapply absent_prefix. exact Hn. }
  pose proof (addToIndexes_stage ds pre d db0 db2 db1 _ Hk Hd Hab Hnpre Hrel2 H2)
    as Hrel1.
  simpl in Hrel1.
  destruct (for_each MemoryDBOps.removeFromIndexes pre db1) as [db3 r3] eqn:E3.
  destruct (removes_stage ds db0 Hk pre db1 db3 r3 Hpre Hnpre Hrel1 E3) as [-> Hrel3].
  injection H as <- _. exact Hrel3.
Qed.

Lemma insertInCache_rolls_back (arg : docs) (db0 db' : MemoryDB) (e : error) :
  store_insert_ready db0 (docs_list arg) ->
  MemoryDBOps._insertInCache arg db0 = (db', Throw e) ->
  indexes_related same_index db0 db'.
Proof.
  intros Hready H. apply (stage_end (docs_list arg)).
  destruct arg as [d|ds]; simpl in *.
  - pose proof Hready as (Hk & Hn & _).
    exact (addToIndexes_stage [d] [] d db0 db0 db' _ Hk (or_introl eq_refl)
             (fun x Hx => match Hx with end) (NoDup_nil _)
             (stage_start [d] db0 Hready) H).
  - exact (insertMultipleDocsInCache_stage ds db0 db' e Hready H).
Qed.

End StoreInsertRollback.
Section StoreUpdateRollback.
Context {model : Model} {env : Env} {order : KeyOrder model}.

Lemma update_is_batch (arg : updates) (idx : Index) :
  IndexOps.update arg idx = IndexOps.updateMultipleDocs (pairs_list arg) idx.
Proof. destruct arg; [apply update_replace_is_batch|reflexivity]. Qed.

Lemma revertUpdate_is_batch (arg : updates) (idx : Index) :
  IndexOps.revertUpdate arg idx
  = IndexOps.revertUpdate (Batch (pairs_list arg)) idx.
Proof.
  destruct arg as [o n|pairs]; [|reflexivity].
  unfold IndexOps.revertUpdate. rewrite update_replace_is_batch. reflexivity.
Qed.

Lemma restored_refl (idx : Index) : wf_tree (tree idx) -> restored idx idx.
Proof.
  intros W. unfold restored. repeat split; auto.
Qed.

Lemma restored_put_back (idx0 idx : Index) (pairs : list pair) :
  update_ready idx0 pairs ->
  tracked idx0 (rev (map oldDoc pairs)) (map oldDoc pairs) idx ->
  restored idx0 idx.
Proof.
  intros Hready T. pose proof (filed_of_ready _ _ Hready) as Hf.
  destruct Hready as (W & Hr & Hu & _ & Hno & _).
  pose proof T as (F & U & S & _).
  unfold restored. split; [exact F|]. split; [exact U|]. split; [exact S|]. split.
  - apply (tracked_put_back idx0 idx (map oldDoc pairs)); assumption.
  - intros Uq. apply (tracked_put_back_unique idx0 idx (map oldDoc pairs)); assumption.
Qed.

(** The stages of an index in the course of [updateIndexes]. *)
#[local] Abbreviation untouched pairs :=
  (fun idx0 idx : Index => update_ready idx0 pairs /\ idx = idx0).
#[local] Abbreviation updated pairs :=
  (fun idx0 idx : Index =>
     update_ready idx0 pairs
     /\ Forall (alias_free idx0) (map newDoc pairs)
     /\ tracked idx0 (rev (map oldDoc pairs)) (map newDoc pairs) idx).
#[local] Abbreviation put_back pairs :=
  (fun idx0 idx : Index =>
     update_ready idx0 pairs
     /\ tracked idx0 (rev (map oldDoc pairs)) (map oldDoc pairs) idx).

Lemma updateIndexes_rolls_back (arg : updates) (db0 db' : MemoryDB) (e : error) :
  store_update_ready db0 (pairs_list arg) ->
  MemoryDBOps.updateIndexes arg db0 = (db', Throw e) ->
  indexes_related restored db0 db'.
Proof.
  intros (Hk & Hall) H. set (pairs := pairs_list arg) in *.
  assert (Hrel : store_rel (fun _ => untouched pairs) db0 db0).
  { apply store_rel_start. intros name idx0 H0. split; [|reflexivity].
    rewrite Forall_forall in Hall. apply obj_get_In in H0. apply (Hall _ H0). }
  unfold MemoryDBOps.updateIndexes, bind, get in H.
  destruct (for_try (fun k => MemoryDBOps.on_index k (IndexOps.update arg))
              (Object_keys (indexes db0)) 0 db0) as [db1 [res|e1]] eqn:E;
    [|exfalso; exact (for_try_never_throws _ _ _ _ _ _ E)].
  assert (Hok : forall idx0 idx idx',
             untouched pairs idx0 idx -> IndexOps.update arg idx = (idx', Ok tt) ->
             updated pairs idx0 idx').
  { intros idx0 idx idx' [Hready ->] Ho. rewrite update_is_batch in Ho.
    destruct (update_batch_tracked idx0 idx' pairs _ Hready Ho) as [T Ha]. auto. }
  assert (Hfail : forall idx0 idx idx' e0,
             untouched pairs idx0 idx -> IndexOps.update arg idx = (idx', Throw e0) ->
             put_back pairs idx0 idx').
  { intros idx0 idx idx' e0 [Hready ->] Ho. rewrite update_is_batch in Ho.
    destruct (update_batch_tracked idx0 idx' pairs _ Hready Ho) as (T & _). auto. }
  pose proof (store_try (P := untouched pairs) (updated pairs) (put_back pairs)
                (IndexOps.update arg) db0 Hok Hfail
                _ _ db0 db1 res Hk (fun k Hin => Hin) (fun k a b _ Hp => Hp) Hrel E)
    as Hres.
  destruct res as [[e1 i]|]; [|discriminate].
  destruct Hres as (pre & k & post & Eks & -> & Hrel1).
  rewrite Eks, firstn_length_app in H.
  destruct (for_each (fun k0 => MemoryDBOps.on_index k0 (IndexOps.revertUpdate arg))
              pre db1) as [db2 r2] eqn:E2.
  assert (Hnpre : NoDup pre).
  { rewrite Eks in Hk. eapply NoDup_prefix. exact Hk. }
  assert (Hop : forall idx0 idx idx' r0,
             updated pairs idx0 idx ->
             IndexOps.revertUpdate arg idx = (idx', r0) ->
             r0 = Ok tt /\ put_back pairs idx0 idx').
  { intros idx0 idx idx' r0 (Hready & Ha & T) Ho.
    rewrite revertUpdate_is_batch in Ho.
    destruct (revert_batch_tracked idx0 idx pairs Hready Ha T) as (idx2 & Er & T2).
    fold pairs in Ho. rewrite Er in Ho. injection Ho as <- <-. auto. }
  assert (Hin' : forall x, In x pre -> In x (Object_keys (indexes db0))).
  { intros x Hx. rewrite Eks. apply in_or_app. auto. }
  destruct (store_loop_total (P := updated pairs) (put_back pairs)
              (IndexOps.revertUpdate arg) db0 Hop pre _ db1 db2 r2 Hnpre Hin'
              (fun x a b Hx => on_names_hit pre _ _ x a b Hx)
              Hrel1 E2) as [-> Hrel2].
  simpl in H. injection H as <- _.
  eapply store_rel_mono; [|exact Hrel2].
  intros name a b. unfold on_names.
  destruct (existsb (String.eqb name) pre).
  - intros [Hready T]. exact (restored_put_back a b pairs Hready T).
  - destruct (String.eqb name k).
    + intros [Hready T]. exact (restored_put_back a b pairs Hready T).
    + intros [Hready ->]. apply restored_refl. apply Hready.
Qed.

(** Removing a document from the indexes cannot fail. *)
Lemma removeFromIndexes_never_fails (d : doc) (db db' : MemoryDB) (r : result unit) :
  MemoryDBOps.removeFromIndexes d db = (db', r) -> r = Ok tt.
Proof.
  unfold MemoryDBOps.removeFromIndexes, bind, get. intros H.
  change (IndexOps.remove (One d)) with (IndexOps.removeDoc d) in H.
  assert (G : forall ks s s' r0,
             (forall k, In k ks -> In k (Object_keys (indexes s))) ->
             for_each (fun i => MemoryDBOps.on_index i (IndexOps.removeDoc d)) ks s
             = (s', r0) -> r0 = Ok tt).
  { induction ks as [|k ks IH]; intros s s' r0 Hin Hrun; simpl in Hrun.
    - injection Hrun as _ <-. reflexivity.
    - unfold bind in Hrun.
      destruct (MemoryDBOps.on_index k (IndexOps.removeDoc d) s) as [s1 r1] eqn:E.
      unfold MemoryDBOps.on_index in E.
      destruct (obj_get_of_Object_key _ _ (Hin k (or_introl eq_refl))) as [idx Hidx].
      rewrite Hidx, removeDoc_run in E.
      injection E as <- <-.
      refine (IH _ s' r0 _ Hrun).
      intros x Hx. simpl. rewrite (Object_keys_obj_set _ _ _ _ Hidx).
      apply Hin. right. exact Hx. }
  apply (G _ _ _ _ (fun k Hk => Hk) H).
Qed.

End StoreUpdateRollback.
Section FailedMutations.
Context {model : Model} {env : Env} {order : KeyOrder model}.

(** C1 (amended). A failed insertion in the cache, of one document or of a
    batch, leaves every index as it was: the same settings, the same
    documents under every key, the same in-order traversal; the inserts
    made before the failure, in the indexes before the failing one and
    for the documents before the failing one, have been rolled back.  A
    failed [updateIndexes] leaves every index with the documents it held
    under every key; the in-order traversal is the one before the call
    for a unique index, while a non-unique index may hold the documents
    of one key in another order.  Removing a document from the indexes
    never fails.  The store is taken with well-formed indexes under
    distinct names; inserted documents are distinct new objects, and so
    are the new documents of an update, whose old documents are the
    distinct documents the indexes file; no index files an old document,
    and no non-unique index files an inserted or a new document, under
    two keys that compare equal. *)
Theorem failed_mutation_restores_indexes (db db' : MemoryDB) (e : error) :
  (forall arg : docs,
      store_insert_ready db (docs_list arg) ->
      MemoryDBOps._insertInCache arg db = (db', Throw e) ->
      indexes_related same_index db db')
  /\ (forall arg : updates,
         store_update_ready db (pairs_list arg) ->
         MemoryDBOps.updateIndexes arg db = (db', Throw e) ->
         indexes_related restored db db')
  /\ (forall (d : doc) (r : result unit),
         MemoryDBOps.removeFromIndexes d db = (db', r) -> r = Ok tt).
Proof.
  split; [|split].
  - intros arg Hready H. exact (insertInCache_rolls_back arg db db' e Hready H).
  - intros arg Hready H. exact (updateIndexes_rolls_back arg db db' e Hready H).
  - intros d r H. exact (removeFromIndexes_never_fails d db db' r H).
Qed.

End FailedMutations.

Section IndexExtras.
Context {model : Model} {env : Env} {order : KeyOrder model}.

Lemma getMatching_plain (k : value) (idx : Index) :
  isArray k = false -> IndexOps.getMatching k idx = content (tree idx) k.
Proof. destruct k; try reflexivity. discriminate. Qed.

Lemma alias_free_of_insert (d : doc) (idx idx' : Index) :
  wf_tree (tree idx) ->
  (unique idx = false -> alias_free idx d) ->
  IndexOps.insertDoc d idx = (idx', Ok tt) ->
  alias_free idx d.
Proof.
  intros W Ha H. destruct (unique idx) eqn:U; [|auto].
  apply (insertDoc_unique_alias_free d idx idx'); [apply W|exact U|exact H].
Qed.

(** X1. A document that [insert] accepted is found by [getMatching] under
    each of its keys, after the documents the key found before; no other
    key finds it. *)
Theorem insert_then_getMatching (d : doc) (idx idx' : Index) :
  wf_tree (tree idx) ->
  (unique idx = false -> alias_free idx d) ->
  IndexOps.insertDoc d idx = (idx', Ok tt) ->
  forall k,
    isArray k = false ->
    IndexOps.getMatching k idx'
    = IndexOps.getMatching k idx ++ (if hits idx k d then [d] else [])
    /\ (In k (doc_keys idx d) -> In d (IndexOps.getMatching k idx')).
Proof.
  intros W Ha H k Hk.
  pose proof (alias_free_of_insert d idx idx' W Ha H) as Had.
  destruct (insertDoc_content d idx idx' W Had H) as (_ & _ & _ & _ & C).
  rewrite !getMatching_plain by exact Hk. split; [apply C|].
  intros Hin. rewrite C. unfold hits. rewrite (hit_self _ _ Hin).
  apply in_or_app. right. left. reflexivity.
Qed.

(** X2. Inserting a new document in an index and removing it again gives
    the index back: same documents under every key, same traversal. *)
Theorem insert_then_remove_restores (d : doc) (idx idx1 : Index) :
  wf_tree (tree idx) -> refs_distinct idx -> fresh idx d ->
  (unique idx = false -> alias_free idx d) ->
  IndexOps.insertDoc d idx = (idx1, Ok tt) ->
  exists idx2,
    IndexOps.removeDoc d idx1 = (idx2, Ok tt) /\ same_index idx idx2.
Proof.
  intros W Hr Hf Ha H.
  pose proof (alias_free_of_insert d idx idx1 W Ha H) as Had.
  pose proof (track_insert idx idx idx1 [] [] d (tracked_start idx W) Had H) as T.
  simpl in T.
  destruct (IndexOps.removeDoc d idx1) as [idx2 r] eqn:E.
  assert (Hn : NoDup (map doc_ref [d])) by (repeat constructor; intros []).
  destruct (track_remove_added idx idx1 idx2 [] [d] d r T Had (or_introl eq_refl) Hn
              (fun k => fresh_absent_without idx [] d k Hf) Hr E) as [-> T2].
  rewrite without_self in T2.
  exists idx2. split; [reflexivity|]. apply tracked_untouched; assumption.
Qed.

(** X3. A unique index refuses a document that has a key under which the
    index already holds a document: [insert] throws the unique-violation
    error of one of the keys of the document, and the index is as
    before. *)
Theorem unique_index_refuses_taken_key (d : doc) (idx : Index) (key : value) :
  wf_tree (tree idx) -> unique idx = true -> fresh idx d ->
  In key (doc_keys idx d) -> content (tree idx) key <> [] ->
  exists idx' k,
    IndexOps.insertDoc d idx = (idx', Throw (UniqueViolated k))
    /\ In k (doc_keys idx d)
    /\ same_index idx idx'.
Proof.
  intros W U Hf Hkey Htaken.
  destruct (IndexOps.insertDoc d idx) as [idx' [[]|e]] eqn:E.
  - exfalso. apply insertDoc_ok in E. destruct E as [E _]. rewrite U in E.
    destruct (insert_keys_unique d _ _ _ (proj1 W) E) as [_ Hv].
    specialize (Hv key Htaken). rewrite (hit_self _ _ Hkey) in Hv. discriminate.
  - destruct (insertDoc_refused_any d idx idx' e W
                (fun k => fresh_content idx d k Hf) E) as (F & U' & S & W' & C).
    apply insertDoc_throw in E.
    destruct E as (pre & k & post & t1 & Hks & _ & Hi & _).
    destruct (insert_throw _ _ _ _ _ Hi) as (_ & -> & _).
    exists idx', k. split; [reflexivity|]. split.
    + rewrite Hks. apply in_or_app. right. left. reflexivity.
    + apply same_content_same_index; assumption.
Qed.

Lemma insertMultipleDocs_tracked (idx idx' : Index) (ds : list doc) (r : result unit) :
  insert_ready idx ds -> NoDup (map doc_ref ds) ->
  IndexOps.insertMultipleDocs ds idx = (idx', r) ->
  match r with
  | Ok _ => tracked idx [] ds idx'
  | Throw _ => tracked idx [] [] idx'
  end.
Proof.
  intros (W & Hr & Hds) Hn H.
  pose proof (tracked_start idx W) as T0.
  unfold IndexOps.insertMultipleDocs, bind in H.
  destruct (for_try IndexOps.insertDoc ds 0 idx) as [idx1 [[[e i]|]|e]] eqn:E.
  - destruct (for_try_some _ _ _ _ _ _ _ E) as (pre & x & post & s1 & -> & -> & Hpre & Hx).
    simpl in H. rewrite firstn_length_app in H.
    assert (Uq : unique idx = true).
    { rewrite <- (for_each_insertDoc_unique _ _ _ _ Hpre).
      exact (insertDoc_throw_unique _ _ _ _ Hx). }
    destruct (phase_insert_unique idx [] Uq pre [] idx s1 T0 Hpre) as [T1 Hapre].
    simpl in T1.
    assert (Hfx : fresh idx x).
    { rewrite Forall_forall in Hds. apply (Hds x). apply in_or_app. right. left.
      reflexivity. }
    assert (Hab : forall k, absent x (content (tree s1) k)).
    { intros k. destruct T1 as (_ & _ & _ & _ & C). rewrite C. apply absent_app.
      - apply fresh_absent_without. exact Hfx.
      - apply absent_filter. eapply absent_prefix. exact Hn. }
    pose proof (track_refused_any idx s1 idx1 [] pre x e T1 Hab Hx) as T2.
    destruct (for_each IndexOps.removeDoc pre idx1) as [idx2 r2] eqn:E2.
    assert (Hnpre : NoDup (map doc_ref pre)).
    { rewrite map_app in Hn. eapply NoDup_prefix. exact Hn. }
    assert (Hfpre : forall y, In y pre -> forall k,
                 absent y (without_all [] (content (tree idx) k))).
    { intros y Hy k. apply fresh_absent_without. rewrite Forall_forall in Hds.
      apply (Hds y). apply in_or_app. left. exact Hy. }
    destruct (phase_remove_added idx [] pre idx1 idx2 r2 T2 Hapre Hnpre Hfpre Hr E2)
      as [-> T3].
    simpl in H. injection H as <- <-. exact T3.
  - simpl in H. injection H as <- <-. apply for_try_none in E.
    destruct (unique idx) eqn:Uq.
    + exact (proj1 (phase_insert_unique idx [] Uq ds [] idx idx1 T0 E)).
    + assert (Ha : Forall (alias_free idx) ds).
      { eapply Forall_impl; [|exact Hds]. simpl. intros c [_ Hc]. auto. }
      exact (phase_insert idx [] ds [] idx idx1 T0 Ha E).
  - exfalso. exact (for_try_never_throws _ _ _ _ _ _ E).
Qed.

(** X4. [insertMultipleDocs] is all or nothing: when it succeeds every
    document of the batch is in the index, a key finding what it found
    followed by the documents of the batch filed under it, in the order
    of the batch; when a document is refused the documents inserted
    before it are taken out again and the index is as before. *)
Theorem insertMultipleDocs_all_or_nothing (idx idx' : Index) (ds : list doc)
  (r : result unit) :
  insert_ready idx ds -> NoDup (map doc_ref ds) ->
  IndexOps.insertMultipleDocs ds idx = (idx', r) ->
  match r with
  | Ok _ =>
      forall k, content (tree idx') k
                = content (tree idx) k ++ filter (hits idx k) ds
  | Throw _ => same_index idx idx'
  end.
Proof.
  intros Hready Hn H.
  pose proof (insertMultipleDocs_tracked idx idx' ds r Hready Hn H) as T.
  destruct r as [[]|e].
  - intros k. destruct T as (_ & _ & _ & _ & C). rewrite C, without_all_nil.
    reflexivity.
  - apply tracked_untouched; [apply Hready|exact T].
Qed.

Lemma fresh_in_empty (idx : Index) (d : doc) : fresh (IndexOps.set_tree idx []) d.
Proof. constructor. Qed.

(** X5. [reset(newData)] forgets what the index held.  When the new
    documents go in, a key finds exactly the new documents filed under
    it; when one of them is refused the index is left empty, not as it
    was before the call. *)
Theorem reset_forgets_the_index (idx idx' : Index) (ds : list doc) (r : result unit) :
  NoDup (map doc_ref ds) ->
  (unique idx = false -> Forall (alias_free idx) ds) ->
  IndexOps.reset (Some (Many ds)) idx = (idx', r) ->
  match r with
  | Ok _ => forall k, content (tree idx') k = filter (hits idx k) ds
  | Throw _ => IndexOps.getAll idx' = [] /\ forall k, content (tree idx') k = []
  end.
Proof.
  intros Hn Ha H.
  unfold IndexOps.reset, bind, get, put in H. simpl in H.
  assert (Hready : insert_ready (IndexOps.set_tree idx []) ds).
  { split; [split; constructor|]. split; [constructor|].
    apply Forall_forall. intros d Hd. split; [apply fresh_in_empty|].
    intros U. specialize (Ha U). rewrite Forall_forall in Ha. exact (Ha d Hd). }
  pose proof (insertMultipleDocs_tracked _ idx' ds r Hready Hn H) as T.
  destruct r as [[]|e]; destruct T as (_ & _ & _ & W' & C).
  - intros k. rewrite C. reflexivity.
  - assert (C0 : forall k, content (tree idx') k = []).
    { intros k. rewrite C. reflexivity. }
    split; [|exact C0].
    destruct (tree idx') as [|[k0 d0] rest] eqn:Et; [unfold IndexOps.getAll; rewrite Et; reflexivity|].
    exfalso. specialize (C0 k0). rewrite content_cons, cmp_refl in C0.
    simpl in C0. destruct W' as [_ Wn]. inversion Wn; subst.
    simpl in *. contradiction.
Qed.

(** X6. [remove(doc)] of a document the index files takes the pointers to
    the document out of the data of every key and leaves the other
    documents in place, in their order. *)
Theorem remove_takes_the_document_out (d : doc) (idx idx' : Index) (r : result unit) :
  wf_tree (tree idx) -> refs_distinct idx ->
  alias_free idx d -> filed idx d ->
  IndexOps.removeDoc d idx = (idx', r) ->
  r = Ok tt
  /\ forall k, content (tree idx') k = without d (content (tree idx) k)
               /\ absent d (content (tree idx') k).
Proof.
  intros W Hr Ha Hf H.
  destruct (track_remove_old idx idx idx' [] d r (tracked_start idx W) Ha Hf Hr
              (fun x Hx => match Hx with end) H) as [-> (_ & _ & _ & _ & C)].
  split; [reflexivity|]. intros k.
  assert (E : content (tree idx') k = without d (content (tree idx) k)).
  { rewrite C, without_all_cons, without_all_nil. apply app_nil_r. }
  split; [exact E|]. rewrite E. apply absent_without.
Qed.

(** X7. [remove(doc)] deletes the node of a key of the document when the
    node holds at most one document, whichever document that is: the
    pointer is compared only in a node that holds several documents. *)
Theorem remove_deletes_a_lone_document (d : doc) (idx idx' : Index) (r : result unit)
  (key : value) :
  sorted (tree idx) -> alias_free idx d ->
  In key (doc_keys idx d) ->
  (List.length (content (tree idx) key) <= 1)%nat ->
  IndexOps.removeDoc d idx = (idx', r) ->
  r = Ok tt /\ content (tree idx') key = [].
Proof.
  intros Hs Ha Hin Hlen H.
  destruct (removeDoc_content d idx idx' r Hs Ha H) as (-> & _ & _ & _ & _ & C & _).
  split; [reflexivity|]. rewrite C. unfold hits. rewrite (hit_self _ _ Hin).
  unfold rem. destruct (Nat.ltb_spec 1 (List.length (content (tree idx) key)));
    [lia|reflexivity].
Qed.

(** X8. [revertUpdate] undoes [update] on an index that is ready for the
    update: the index is well formed, it files the old documents, whose
    keys are pairwise different, and the new documents are new objects
    whose keys are pairwise different when the index is not unique.  After
    an update that succeeded, the revert succeeds and every key finds the
    documents it found before the update, in the same order when the
    index is unique.  (A new document filed twice under keys that compare
    equal is outside this: its removal can take another document along,
    as for a failed insertion.) *)
Theorem update_then_revertUpdate_restores (arg : updates) (idx idx1 : Index) :
  update_ready idx (pairs_list arg) ->
  IndexOps.update arg idx = (idx1, Ok tt) ->
  exists idx2,
    IndexOps.revertUpdate arg idx1 = (idx2, Ok tt) /\ restored idx idx2.
Proof.
  intros Hready H. rewrite update_is_batch in H.
  destruct (update_batch_tracked idx idx1 (pairs_list arg) _ Hready H) as [T Ha].
  destruct (revert_batch_tracked idx idx1 (pairs_list arg) Hready Ha T)
    as (idx2 & E & T2).
  exists idx2. split.
  - rewrite revertUpdate_is_batch. exact E.
  - exact (restored_put_back idx idx2 (pairs_list arg) Hready T2).
Qed.

(** X9. [update(oldDoc, newDoc)] on one couple: when the insertion of the
    new document is refused, the old document is inserted again and the
    error is thrown; the index is unique and is as it was before the
    call. *)
Theorem failed_single_update_restores (o n : doc) (idx idx' : Index) (e : error) :
  update_ready idx [Pair o n] ->
  IndexOps.update (Replace o n) idx = (idx', Throw e) ->
  unique idx = true
  /\ same_index idx idx'
  /\ exists idx1 idx2,
       IndexOps.removeDoc o idx = (idx1, Ok tt)
       /\ IndexOps.insertDoc n idx1 = (idx2, Throw e)
       /\ IndexOps.insertDoc o idx2 = (idx', Ok tt).
Proof.
  intros Hready H.
  rewrite update_replace_is_batch in H.
  destruct (update_batch_tracked idx idx' [Pair o n] _ Hready H) as (T & Uq & Ph).
  split; [exact Uq|]. split.
  - destruct Hready as (W & Hr & Hu & Ho & Hno & _).
    apply (tracked_put_back_unique idx idx' [o]); auto.
    eapply Forall_impl; [|exact Ho]. simpl. tauto.
  - destruct Ph as (i & p & idx1 & idx2 & idx3 & idx4 & Hp & H1 & H2 & H3 & H4 & H5).
    destruct i as [|i]; [|destruct i; discriminate].
    simpl in Hp. injection Hp as <-. simpl in *. unfold bind, ret in *.
    destruct (IndexOps.removeDoc o idx) as [j1 [[]|e1]] eqn:E1; [|discriminate].
    injection H1 as ->. injection H2 as ->. injection H4 as ->.
    destruct (IndexOps.insertDoc o idx4) as [j2 [[]|e2]] eqn:E5; [|discriminate].
    injection H5 as ->.
    exists idx2, idx4. auto.
Qed.

End IndexExtras.

Section OwnEntries.
Context {A : Type}.

#[local] Abbreviation is_index := (fun kv : string * A =>
  match array_index (fst kv) with Some _ => true | None => false end).

Lemma insert_index_key_perm (n : Z) (kv : string * A) (l : list (Z * (string * A))) :
  Permutation (map snd (insert_index_key n kv l)) (kv :: map snd l).
Proof.
  induction l as [|[m kv'] l IH]; simpl; [reflexivity|].
  destruct (n <? m); simpl; [reflexivity|].
  rewrite IH. apply perm_swap.
Qed.

Lemma indexed_entries_perm (o : list (string * A)) :
  forall acc,
    Permutation
      (map snd (fold_left (fun acc kv =>
                             match array_index (fst kv) with
                             | Some n => insert_index_key n kv acc
                             | None => acc
                             end) o acc))
      (map snd acc ++ filter is_index o).
Proof.
  induction o as [|kv o IH]; intros acc; simpl; [rewrite app_nil_r; reflexivity|].
  rewrite IH. destruct (array_index (fst kv)) as [n|]; [|reflexivity].
  rewrite insert_index_key_perm. simpl. apply Permutation_middle.
Qed.

(** The enumeration of the own properties of an object visits each
    property once. *)
Lemma own_entries_perm (o : list (string * A)) : Permutation (own_entries o) o.
Proof.
  unfold own_entries. rewrite indexed_entries_perm. simpl.
  etransitivity; [apply Permutation_app_comm|]. symmetry.
  etransitivity; [apply (filter_split is_index)|].
  apply Permutation_app_tail. apply Permutation_refl' .
  apply filter_ext. intros kv. destruct (array_index (fst kv)); reflexivity.
Qed.

Lemma In_obj_set (o : list (string * A)) (k : string) (x : A) (kv : string * A) :
  In kv (obj_set o k x) -> kv = (k, x) \/ In kv o.
Proof.
  induction o as [|[k1 x1] o IH]; simpl.
  - intros [<-|[]]. auto.
  - destruct (String.eqb_spec k1 k) as [->|N]; simpl.
    + intros [<-|H]; auto.
    + intros [<-|H]; auto. destruct (IH H); auto.
Qed.

Lemma NoDup_keys_obj_set (o : list (string * A)) (k : string) (x : A) :
  NoDup (map fst o) -> NoDup (map fst (obj_set o k x)).
Proof.
  induction o as [|[k1 x1] o IH]; simpl; intros H.
  - constructor; [intros []|constructor].
  - inversion H as [|? ? H1 H2]; subst.
    destruct (String.eqb_spec k1 k) as [->|N]; simpl.
    + constructor; assumption.
    + constructor; [|apply IH; exact H2].
      intros X. apply in_map_iff in X. destruct X as ([k2 x2] & E & Hin).
      simpl in E. subst k2. apply In_obj_set in Hin.
      destruct Hin as [Hin|Hin]; [congruence|].
      apply H1. apply in_map_iff. exists (k1, x2). auto.
Qed.

Lemma keys_obj_set (o : list (string * A)) (k k' : string) (x : A) :
  In k' (map fst o) \/ k' = k -> In k' (map fst (obj_set o k x)).
Proof.
  induction o as [|[k1 x1] o IH]; simpl.
  - intros [[]| ->]. auto.
  - destruct (String.eqb_spec k1 k) as [->|N]; simpl.
    + intros [[H|H]|H]; auto.
    + intros [[H|H]|H]; auto.
Qed.

End OwnEntries.

Section MatchingArrays.
Context {model : Model} {env : Env}.

#[local] Abbreviation id_key := (fun d : doc => property_key (get_field d "_id")).
#[local] Abbreviation file_all :=
  (fold_left (fun (acc : list (string * doc)) d => obj_set_object acc (id_key d) d)).
#[local] Abbreviation well_keyed := (fun acc : list (string * doc) =>
  NoDup (map fst acc)
  /\ forall kv, In kv acc -> fst kv = id_key (snd kv) /\ fst kv <> "__proto__").

(** The object [_res] of [getMatching]: every entry sits under the [_id]
    of its document and comes from the documents filed; no entry sits
    under ["__proto__"]. *)
Lemma file_all_spec (ds : list doc) :
  forall acc,
    well_keyed acc ->
    well_keyed (file_all ds acc)
    /\ (forall kv, In kv (file_all ds acc) -> In kv acc \/ In (snd kv) ds)
    /\ (forall k, In k (map fst acc) \/ (In k (map id_key ds) /\ k <> "__proto__") ->
                  In k (map fst (file_all ds acc))).
Proof.
  induction ds as [|d ds IH]; intros acc [Hn Hk]; simpl.
  - split; [split; assumption|]. split; [intros kv H; auto|].
    intros k [H|[[] _]]. exact H.
  - assert (W : well_keyed (obj_set_object acc (id_key d) d)).
    { unfold obj_set_object.
      destruct (String.eqb_spec (property_key (get_field d "_id")) "__proto__") as [E|N]; [split; assumption|].
      split; [apply NoDup_keys_obj_set; exact Hn|].
      intros kv H. apply In_obj_set in H. destruct H as [->|H]; [|auto].
      split; [reflexivity|exact N]. }
    destruct (IH _ W) as (W' & I & K).
    split; [exact W'|]. split.
    + intros kv H. destruct (I kv H) as [H1|H1]; auto.
      revert H1. unfold obj_set_object.
      destruct (String.eqb (property_key (get_field d "_id")) "__proto__"); intros H1; [auto|].
      apply In_obj_set in H1. destruct H1 as [->|H1]; auto.
    + intros k H. apply K.
      assert (Hacc : In k (map fst acc) ->
                     In k (map fst (obj_set_object acc (id_key d) d))).
      { intros Hin. unfold obj_set_object.
        destruct (String.eqb (property_key (get_field d "_id")) "__proto__"); [exact Hin|].
        apply keys_obj_set. auto. }
      destruct H as [H|[[H|H] Hp]]; auto.
      left. unfold obj_set_object.
      destruct (String.eqb_spec (property_key (get_field d "_id")) "__proto__") as [E|N]; [congruence|].
      apply keys_obj_set. auto.
Qed.

Lemma matches_spec (t : BinarySearchTree.tree) (elts : list value) :
  forall acc,
    well_keyed acc ->
    let res := fold_left
                 (fun acc v' => file_all (IndexOps.getMatching_in t v') acc)
                 elts acc in
    well_keyed res
    /\ (forall kv, In kv res ->
                   In kv acc
                   \/ exists v, In v elts
                                /\ In (snd kv) (IndexOps.getMatching_in t v))
    /\ (forall k, In k (map fst acc)
                  \/ (exists v d, In v elts
                                  /\ In d (IndexOps.getMatching_in t v)
                                  /\ k = id_key d
                                  /\ k <> "__proto__") ->
                  In k (map fst res)).
Proof.
  induction elts as [|v elts IH]; intros acc W; simpl.
  - split; [exact W|]. split; [intros kv H; auto|].
    intros k [H|(v & d & [] & _)]. exact H.
  - destruct (file_all_spec (IndexOps.getMatching_in t v) acc W) as (W1 & I1 & K1).
    destruct (IH _ W1) as (W' & I & K).
    split; [exact W'|]. split.
    + intros kv H. destruct (I kv H) as [H1|(v' & Hv' & H1)].
      * destruct (I1 kv H1) as [H2|H2]; [auto|].
        right. exists v. auto.
      * right. exists v'. auto.
    + intros k H. apply K.
      destruct H as [H|(v' & d & Hv' & Hd & Ek & Hp)].
      * left. apply K1. auto.
      * destruct Hv' as [Ev|Hv'].
        -- left. apply K1. right. subst v' k. split; [|exact Hp].
           apply (in_map id_key). exact Hd.
        -- right. exists v', d. auto.
Qed.

(** X10. [getMatching] of an array of values returns the documents that
    one of the values finds, one document per [_id]: no two documents
    returned have the same [_id], every document returned is found by a
    value of the array, and every document found by a value of the array
    is represented by a document with its [_id].  The [_id]s are compared
    as property keys, and a document whose [_id] reads ["__proto__"] as a
    key is never returned. *)
Theorem getMatching_of_array (idx : Index) (a : nat) (elts : list value) :
  let res := IndexOps.getMatching (VArr a elts) idx in
  let key := fun d => property_key (get_field d "_id") in
  NoDup (map key res)
  /\ (forall d, In d res ->
                key d <> "__proto__"
                /\ exists v, In v elts /\ In d (IndexOps.getMatching v idx))
  /\ (forall v d, In v elts -> In d (IndexOps.getMatching v idx) ->
                  key d <> "__proto__" ->
                  exists d', In d' res /\ key d' = key d).
Proof.
  cbv zeta. unfold IndexOps.getMatching. cbn [IndexOps.getMatching_in].
  destruct (matches_spec (tree idx) elts []
              (conj (NoDup_nil _) (fun kv (H : In kv []) => match H with end)))
    as ((N & E0) & I & K).
  cbv zeta in N, E0, I, K.
  set (res := fold_left _ elts []) in *.
  assert (P : Permutation (own_entries res) res) by apply own_entries_perm.
  assert (E : map id_key (map snd (own_entries res)) = map fst (own_entries res)).
  { rewrite map_map. apply map_ext_in. intros kv Hkv. symmetry.
    apply E0. apply In_own_entries. exact Hkv. }
  split; [|split].
  - rewrite E.
    eapply Permutation_NoDup; [|exact N]. symmetry. apply Permutation_map. exact P.
  - intros d Hd. apply in_map_iff in Hd. destruct Hd as (kv & <- & Hkv).
    apply (proj1 (In_own_entries _ _)) in Hkv.
    destruct (E0 kv Hkv) as [Ek Hp]. split; [rewrite <- Ek; exact Hp|].
    destruct (I kv Hkv) as [[]|H]. exact H.
  - intros v d Hv Hd Hp.
    assert (Hk : In (id_key d) (map fst res)).
    { apply K. right. exists v, d. auto. }
    apply in_map_iff in Hk. destruct Hk as (kv & Ek & Hkv).
    exists (snd kv). split.
    + apply in_map. apply In_own_entries. exact Hkv.
    + rewrite <- Ek. symmetry. apply E0. exact Hkv.
Qed.

End MatchingArrays.

Section ObjectDelete.
Context {A : Type}.

Lemma obj_delete_absent (o : list (string * A)) (k : string) :
  obj_get o k = None -> obj_delete o k = o.
Proof.
  induction o as [|[k1 x1] o IH]; simpl; [reflexivity|].
  destruct (String.eqb k1 k); [discriminate|]. intros H. rewrite (IH H). reflexivity.
Qed.

Lemma obj_delete_obj_set (o : list (string * A)) (k : string) (x : A) :
  obj_delete (obj_set o k x) k = obj_delete o k.
Proof.
  induction o as [|[k1 x1] o IH]; simpl.
  - rewrite String.eqb_refl. reflexivity.
  - destruct (String.eqb k1 k) eqn:E; simpl; rewrite E; [reflexivity|].
    rewrite IH. reflexivity.
Qed.

Lemma obj_set_obj_set (o : list (string * A)) (k : string) (x y : A) :
  obj_set (obj_set o k x) k y = obj_set o k y.
Proof.
  induction o as [|[k1 x1] o IH]; simpl.
  - rewrite String.eqb_refl. reflexivity.
  - destruct (String.eqb k1 k) eqn:E; simpl; rewrite E; [reflexivity|].
    rewrite IH. reflexivity.
Qed.

Lemma obj_get_None_key (o : list (string * A)) (k : string) :
  obj_get o k = None <-> ~ In k (map fst o).
Proof.
  induction o as [|[k1 x1] o IH]; simpl; [tauto|].
  destruct (String.eqb_spec k1 k) as [->|N].
  - split; [discriminate|]. intros H. exfalso. auto.
  - rewrite IH. tauto.
Qed.

End ObjectDelete.

Section EnsureIndex.
Context {model : Model} {env : Env} {order : KeyOrder model}.

Lemma insertMultipleDocs_ok_tracked (idx idx' : Index) (ds : list doc) :
  wf_tree (tree idx) ->
  (unique idx = false -> Forall (alias_free idx) ds) ->
  IndexOps.insertMultipleDocs ds idx = (idx', Ok tt) ->
  tracked idx [] ds idx'.
Proof.
  intros W Ha H. unfold IndexOps.insertMultipleDocs, bind in H.
  destruct (for_try IndexOps.insertDoc ds 0 idx) as [idx1 [[[e i]|]|e]] eqn:E.
  - destruct (for_each IndexOps.removeDoc (firstn i ds) idx1) as [idx2 [[]|e2]];
      discriminate.
  - simpl in H. injection H as <-. apply for_try_none in E.
    destruct (unique idx) eqn:Uq.
    + exact (proj1 (phase_insert_unique idx [] Uq ds [] idx idx1
                      (tracked_start idx W) E)).
    + exact (phase_insert idx [] ds [] idx idx1 (tracked_start idx W)
               (Ha eq_refl) E).
  - discriminate.
Qed.

(** The run of [ensureIndex] on a field that has no index yet, up to the
    insertion of the data in the new index. *)
Lemma ensureIndex_run (options : IndexOptions) (f : string) (db : MemoryDB)
  (idx_id : Index) :
  opt_fieldName options = Some f -> f <> "" ->
  obj_get (indexes db) f = None -> inherited f = false ->
  obj_get (indexes db) "_id" = Some idx_id ->
  let ttl := match opt_expireAfterSeconds options with
             | Some seconds => obj_set (ttlIndexes db) f seconds
             | None => ttlIndexes db
             end in
  let build := IndexOps.insert (Many (IndexOps.getAll idx_id))
                 (IndexOps.new f (MemoryDBOps.or_false (opt_unique options))
                               (MemoryDBOps.or_false (opt_sparse options))) in
  MemoryDBOps.ensureIndex options db
  = match snd build with
    | Throw e => (MemoryDBOps.set_ttlIndexes db ttl, Throw e)
    | Ok _ =>
        MemoryDBOps.persist [VObj 0 [("$$indexCreated", MemoryDBOps.options_value options)]]
          (MemoryDBOps.set_ttlIndexes
             (MemoryDBOps.set_indexes db (obj_set (indexes db) f (fst build))) ttl)
    end.
Proof.
  intros Hf Hne Hnew Hinh Hid ttl build.
  assert (Hfid : "_id" <> f) by (intros <-; congruence).
  unfold MemoryDBOps.ensureIndex. rewrite Hf.
  destruct f as [|c f']; [congruence|].
  set (f := String c f') in *.
  unfold bind at 1, get at 1. rewrite Hnew, Hinh.
  unfold bind at 1, put at 1.
  set (ix1 := obj_set (indexes db) f _).
  assert (Hrun : forall s : MemoryDB,
             indexes s = ix1 ->
             try_catch
               (data <- MemoryDBOps.getAllData ;;
                MemoryDBOps.on_index f (IndexOps.insert (Many data)))
               (fun e =>
                  self <- get ;;
                  put (MemoryDBOps.set_indexes self (obj_delete (indexes self) f)) ;;
                  throw e) s
             = match snd build with
               | Throw e => (MemoryDBOps.set_indexes s (indexes db), Throw e)
               | Ok _ => (MemoryDBOps.set_indexes s (obj_set (indexes db) f (fst build)),
                          Ok tt)
               end).
  { intros s Hs. unfold try_catch, bind at 1, MemoryDBOps.getAllData.
    rewrite read_index_run, Hs. unfold ix1.
    rewrite (obj_get_obj_set_other _ _ _ _ Hfid), Hid.
    unfold MemoryDBOps.on_index. rewrite Hs. unfold ix1.
    rewrite obj_get_obj_set_same. fold build.
    destruct build as [idx' [[]|e]]; cbn [fst snd].
    - rewrite obj_set_obj_set. reflexivity.
    - unfold bind, get, put, throw. cbn.
      rewrite obj_set_obj_set, obj_delete_obj_set, (obj_delete_absent _ _ Hnew).
      reflexivity. }
  destruct (opt_expireAfterSeconds options) as [seconds|].
  - unfold bind at 1. unfold bind at 1, get at 1. unfold put at 1.
    unfold bind at 1. rewrite Hrun by reflexivity.
    destruct build as [idx' [[]|e]]; cbn [fst snd]; [reflexivity|].
    destruct db; reflexivity.
  - unfold bind at 1, ret at 1. unfold bind at 1. rewrite Hrun by reflexivity.
    destruct build as [idx' [[]|e]]; cbn [fst snd].
    + destruct db; reflexivity.
    + destruct db; reflexivity.
Qed.

(** X11. On a field that has no index and whose name no object inherits
    from [Object.prototype]: when the data does not fit the new index (a
    unique index on a field that two documents share), [ensureIndex]
    hands the error of the insertion to its callback and deletes the
    index it had created: the indexes are those before the call.  The
    TTL registered for the field is not taken back. *)
Theorem failed_ensureIndex_deletes_the_index
  (options : IndexOptions) (f : string) (db : MemoryDB) (idx_id idx' : Index)
  (e : error) :
  opt_fieldName options = Some f -> f <> "" ->
  obj_get (indexes db) f = None -> inherited f = false ->
  obj_get (indexes db) "_id" = Some idx_id ->
  IndexOps.insert (Many (IndexOps.getAll idx_id))
    (IndexOps.new f (MemoryDBOps.or_false (opt_unique options)) (MemoryDBOps.or_false (opt_sparse options)))
  = (idx', Throw e) ->
  exists db',
    MemoryDBOps.ensureIndex options db = (db', Throw e)
    /\ indexes db' = indexes db
    /\ ttlIndexes db'
       = match opt_expireAfterSeconds options with
         | Some seconds => obj_set (ttlIndexes db) f seconds
         | None => ttlIndexes db
         end.
Proof.
  intros Hf Hne Hnew Hinh Hid Hbuild.
  rewrite (ensureIndex_run options f db idx_id Hf Hne Hnew Hinh Hid).
  cbv zeta. rewrite Hbuild. cbn [snd]. eexists. split; [reflexivity|].
  split; reflexivity.
Qed.

(** X12. A successful [ensureIndex] on a field that has no index and
    whose name no object inherits from [Object.prototype] adds an index
    with the settings asked for, in which every key finds the documents
    of the store that are filed under it, in the order of the [_id]
    index; the other indexes are left alone.  In an index that is not
    unique the keys of a document are supposed pairwise different. *)
Theorem ensureIndex_builds_the_index
  (options : IndexOptions) (f : string) (db db' : MemoryDB) (idx_id : Index) :
  opt_fieldName options = Some f -> f <> "" ->
  obj_get (indexes db) f = None -> inherited f = false ->
  obj_get (indexes db) "_id" = Some idx_id ->
  (MemoryDBOps.or_false (opt_unique options) = false ->
   Forall (alias_free (IndexOps.new f false (MemoryDBOps.or_false (opt_sparse options))))
          (IndexOps.getAll idx_id)) ->
  MemoryDBOps.ensureIndex options db = (db', Ok tt) ->
  exists idx',
    obj_get (indexes db') f = Some idx'
    /\ fieldName idx' = f
    /\ unique idx' = MemoryDBOps.or_false (opt_unique options)
    /\ sparse idx' = MemoryDBOps.or_false (opt_sparse options)
    /\ (forall k, content (tree idx') k
                  = filter (hits idx' k) (IndexOps.getAll idx_id))
    /\ (forall name, name <> f ->
                     obj_get (indexes db') name = obj_get (indexes db) name).
Proof.
  intros Hf Hne Hnew Hinh Hid Ha H.
  rewrite (ensureIndex_run options f db idx_id Hf Hne Hnew Hinh Hid) in H.
  cbv zeta in H.
  destruct (IndexOps.insert (Many (IndexOps.getAll idx_id)) _) as [idx' [[]|e]] eqn:E;
    cbn [fst snd] in H; [|discriminate].
  unfold MemoryDBOps.persist in H.
  destruct (persistNewState _); [discriminate|]. injection H as <-.
  simpl in E.
  assert (T : tracked (IndexOps.new f (MemoryDBOps.or_false (opt_unique options))
                                    (MemoryDBOps.or_false (opt_sparse options)))
                      [] (IndexOps.getAll idx_id) idx').
  { apply insertMultipleDocs_ok_tracked; [split; constructor| |exact E].
    simpl. intros U. rewrite U in Ha. exact (Ha eq_refl). }
  destruct T as (F & U & S & _ & C). simpl in F, U, S.
  exists idx'. cbn. rewrite obj_get_obj_set_same.
  split; [reflexivity|]. split; [exact F|]. split; [exact U|]. split; [exact S|].
  split.
  - intros k. rewrite C. simpl. apply filter_ext. intros d.
    symmetry. apply hits_same; simpl; congruence.
  - intros name N. apply obj_get_obj_set_other. exact N.
Qed.

End EnsureIndex.

Section Candidates.
Context {model : Model} {env : Env}.

Lemma intersection_from_none (a b : list string) :
  (forall x, In x a -> ~ In x b) ->
  forall seen, intersection_from a b seen = [].
Proof.
  induction a as [|x a IH]; intros H seen; simpl; [reflexivity|].
  destruct (existsb (String.eqb x) seen); [apply IH; intros y Hy; apply H; right; exact Hy|].
  destruct (existsb (String.eqb x) b) eqn:E.
  - exfalso. apply existsb_exists in E. destruct E as (y & Hy & Ey).
    apply String.eqb_eq in Ey. subst y. exact (H x (or_introl eq_refl) Hy).
  - apply IH. intros y Hy. apply H. right. exact Hy.
Qed.

Lemma intersection_filter_none (p : string -> bool) (a b : list string) :
  (forall x, In x a -> ~ In x b) -> intersection (filter p a) b = [].
Proof.
  intros H. apply intersection_from_none. intros x Hx.
  apply filter_In in Hx. apply H. apply Hx.
Qed.

(** X13. A query none of whose keys names an index has every document of
    the store for candidates: the index probe falls back on the data of
    the [_id] index. *)
Theorem candidates_without_index_are_all_data (query : value) (db : MemoryDB) :
  (forall k, In k (MemoryDBOps.query_keys query) -> obj_get (indexes db) k = None) ->
  MemoryDBOps.candidates_from_indexes query db = MemoryDBOps.getAllData db.
Proof.
  intros H.
  assert (G : forall k, In k (MemoryDBOps.query_keys query) ->
                        ~ In k (Object_keys (indexes db))).
  { intros k Hk X. apply (proj1 (In_Object_keys _ _)) in X.
    apply (proj1 (obj_get_None_key _ _) (H k Hk)). exact X. }
  unfold MemoryDBOps.candidates_from_indexes, bind at 1, get at 1.
  rewrite !(intersection_filter_none _ _ _ G). reflexivity.
Qed.

Lemma Object_keys_single {A} (k : string) (x : A) : Object_keys [(k, x)] = [k].
Proof.
  unfold Object_keys, own_entries. simpl.
  destruct (array_index k); reflexivity.
Qed.

(** X14. A query on one indexed field with a plain value (a string, a
    number, a boolean, a date or null) has for candidates the documents
    that the index of the field files under this value, and no other
    document of the store. *)
Theorem candidates_of_a_plain_query_come_from_the_index
  (k : string) (v : value) (r : nat) (db : MemoryDB) (idx : Index) :
  MemoryDBOps.is_basic v = true ->
  obj_get (indexes db) k = Some idx ->
  MemoryDBOps.candidates_from_indexes (VObj r [(k, v)]) db
  = (db, Ok (content (tree idx) v)).
Proof.
  intros Hv Hidx.
  assert (Hk : existsb (String.eqb k) (Object_keys (indexes db)) = true).
  { apply existsb_exists. exists k. split; [|apply String.eqb_refl].
    apply In_Object_keys. apply obj_get_In in Hidx.
    apply in_map_iff. exists (k, idx). auto. }
  unfold MemoryDBOps.candidates_from_indexes, bind at 1, get at 1.
  unfold MemoryDBOps.query_keys. rewrite Object_keys_single.
  assert (Hu : intersection
                 (filter (fun k0 => MemoryDBOps.is_basic (value_prop (VObj r [(k, v)]) k0))
                         [k])
                 (Object_keys (indexes db)) = [k]).
  { simpl. rewrite String.eqb_refl, Hv. unfold intersection. simpl.
    rewrite Hk. reflexivity. }
  rewrite Hu, read_index_run, Hidx. simpl. rewrite String.eqb_refl.
  f_equal. f_equal. destruct v; try reflexivity; discriminate.
Qed.

End Candidates.

Section StoreRoundTrip.
Context {model : Model} {env : Env} {order : KeyOrder model}.

(** X15. [removeFromIndexes] undoes [addToIndexes] on a store that is
    ready for the insertion: its indexes are well formed, and the
    document is a new object whose keys, in every index that is not
    unique, are pairwise different.  The document added to the indexes
    and removed from them again leaves every index as it was.  (A
    document filed twice under keys that compare equal is outside this:
    its removal can take another document along.) *)
Theorem addToIndexes_then_removeFromIndexes (d : doc) (db db1 : MemoryDB) :
  store_insert_ready db [d] ->
  MemoryDBOps.addToIndexes d db = (db1, Ok tt) ->
  exists db2,
    MemoryDBOps.removeFromIndexes d db1 = (db2, Ok tt)
    /\ indexes_related same_index db db2.
Proof.
  intros Hready H. pose proof Hready as (Hk & Hn & _).
  pose proof (addToIndexes_stage [d] [] d db db db1 _ Hk (or_introl eq_refl)
                (fun x Hx => match Hx with end) (NoDup_nil _)
                (stage_start [d] db Hready) H) as S1.
  simpl in S1.
  destruct (MemoryDBOps.removeFromIndexes d db1) as [db2 r] eqn:E.
  destruct (removeFromIndexes_stage [d] [d] d db db1 db2 r Hk (or_introl eq_refl)
              (or_introl eq_refl) Hn S1 E) as [-> S2].
  rewrite without_self in S2.
  exists db2. split; [reflexivity|]. exact (stage_end [d] db db2 S2).
Qed.

End StoreRoundTrip.

Section Preparation.
Context {model : Model} {env : Env}.

Lemma deepCopy_heap (b : bool) (v : value) :
  forall h,
    (h + match v with VDate _ _ | VArr _ _ | VObj _ _ => 1 | _ => 0 end
     <= snd (deepCopy b v h))%nat.
Proof.
  induction v as [| | | | | |a elts IH|a fs IH] using value_induction;
    intros h; simpl; try lia.
  - match goal with
    | |- context [?F elts (S h)] =>
        assert (H : forall l k,
                   Forall (fun v => forall h,
                             (h + match v with
                                  | VDate _ _ | VArr _ _ | VObj _ _ => 1 | _ => 0
                                  end <= snd (deepCopy b v h))%nat) l ->
                   (k <= snd (F l k))%nat)
    end.
    { induction l as [|x l IHl]; intros k Hl; [simpl; lia|].
      inversion Hl as [|? ? Hx Hl']; subst.
      specialize (Hx k). destruct (deepCopy b x k) as [x' h1].
      specialize (IHl h1 Hl').
      match goal with
      | |- context [let (_, _) := ?G in _] => destruct G as [rest' h2]
      end.
      simpl in *. lia. }
    specialize (H elts (S h) IH).
    match goal with
    | |- context [let (_, _) := ?G in _] => destruct G as [elts' h']
    end.
    simpl in *. lia.
  - match goal with
    | |- context [?F fs (S h)] =>
        assert (H : forall l k,
                   Forall (fun kv : string * value =>
                             forall h,
                               (h + match snd kv with
                                    | VDate _ _ | VArr _ _ | VObj _ _ => 1 | _ => 0
                                    end <= snd (deepCopy b (snd kv) h))%nat) l ->
                   (k <= snd (F l k))%nat)
    end.
    { induction l as [|[key x] l IHl]; intros k Hl; [simpl; lia|].
      inversion Hl as [|? ? Hx Hl']; subst.
      specialize (Hx k). simpl in Hx.
      destruct (negb b || strict_key key).
      - destruct (deepCopy b x k) as [x' h1].
        specialize (IHl h1 Hl').
        match goal with
        | |- context [let (_, _) := ?G in _] => destruct G as [rest' h2]
        end.
        simpl in *. lia.
      - apply IHl. exact Hl'. }
    specialize (H fs (S h) IH).
    match goal with
    | |- context [let (_, _) := ?G in _] => destruct G as [fs' h']
    end.
    simpl in *. lia.
Qed.

Lemma deepCopyDoc_heap (d : doc) (h : nat) : (h < snd (deepCopyDoc d h))%nat.
Proof.
  pose proof (deepCopy_heap false (doc_value d) h) as H.
  unfold deepCopyDoc. unfold doc_value in *.
  destruct (deepCopy false (VObj (doc_ref d) (doc_fields d)) h) as [v h'].
  simpl in *. lia.
Qed.

Lemma get_prop_set_prop_other (fs : list (string * value)) (j k : string) (v : value) :
  k <> j -> get_prop (set_prop fs j v) k = get_prop fs k.
Proof.
  intros N. induction fs as [|[k1 v1] fs IH]; simpl.
  - destruct (String.eqb_spec j k); [congruence|reflexivity].
  - destruct (String.eqb_spec k1 j) as [->|N1]; simpl.
    + destruct (String.eqb_spec j k); [congruence|reflexivity].
    + destruct (String.eqb k1 k); [reflexivity|exact IH].
Qed.

Lemma get_prop_erase (fs fs' : list (string * value)) (k : string) :
  map (fun kv : string * value => (fst kv, erase (snd kv))) fs'
  = map (fun kv : string * value => (fst kv, erase (snd kv))) fs ->
  erase (get_prop fs' k) = erase (get_prop fs k).
Proof.
  revert fs'. induction fs as [|[k1 v1] fs IH]; intros [|[k2 v2] fs'] H;
    simpl in H; try discriminate; [reflexivity|].
  injection H as -> Hv H. simpl. destruct (String.eqb k1 k); [exact Hv|auto].
Qed.

(** Drawing an identifier moves the generator on and nothing else. *)
Lemma createNewId_within_frame (depth : nat) :
  forall (db db' : MemoryDB) (r : result string),
    MemoryDBOps.createNewId_within depth db = (db', r) ->
    indexes db' = indexes db /\ same_frame db db'.
Proof.
  induction depth as [|depth IH]; intros db db' r H; simpl in H.
  - injection H as <- _. split; [reflexivity|apply same_frame_refl].
  - unfold bind at 1, get at 1 in H. unfold bind at 1, put at 1 in H.
    unfold bind at 1 in H. rewrite read_index_run in H.
    cbn [indexes MemoryDBOps.set_drawn] in H.
    destruct (obj_get (indexes db) "_id") as [idx|].
    + destruct (0 <? List.length _)%nat.
      * destruct (IH _ _ _ H) as [Hi Hf]. split; [exact Hi|].
        eapply same_frame_trans; [|exact Hf]. repeat split.
      * injection H as <- _. split; [reflexivity|repeat split].
    + injection H as <- _. split; [reflexivity|repeat split].
Qed.

(** X16. A document prepared for insertion is a copy placed at the first
    free address of the heap, which is no longer free afterwards; it
    carries an [_id]: the one of the document given when there is one, a
    new one otherwise; and it has passed [checkObject]. *)
Theorem prepared_document_is_a_checked_copy (d d' : doc) (db db' : MemoryDB) :
  MemoryDBOps.prepareDoc d db = (db', Ok d') ->
  doc_ref d' = heap db
  /\ (heap db < heap db')%nat
  /\ get_field d' "_id" <> VUndefined
  /\ (get_field d "_id" <> VUndefined ->
      erase (get_field d' "_id") = erase (get_field d "_id"))
  /\ checkObject (doc_value d') = Ok tt.
Proof.
  intros H.
  pose proof (deepCopyDoc_spec d (heap db)) as [Href Hera].
  pose proof (deepCopyDoc_heap d (heap db)) as Hheap.
  unfold MemoryDBOps.prepareDoc, MemoryDBOps.alloc, MemoryDBOps.createNewId in H.
  unfold bind at 1 in H.
  destruct (deepCopyDoc d (heap db)) as [c h1]. cbn [fst snd] in *.
  assert (Hc : erase (get_field c "_id") = erase (get_field d "_id")).
  { unfold get_field. apply get_prop_erase.
    unfold doc_value in Hera. simpl in Hera. injection Hera as Hera. exact Hera. }
  assert (Hundef : strict_equal (get_field c "_id") VUndefined = true ->
                   get_field d "_id" = VUndefined).
  { intros E. destruct (get_field c "_id"); try discriminate.
    simpl in Hc. destruct (get_field d "_id"); simpl in Hc; congruence. }
  unfold bind at 1 in H.
  destruct (strict_equal (get_field c "_id") VUndefined) eqn:Eid.
  - unfold bind at 1 in H.
    destruct (MemoryDBOps.createNewId_within call_stack_size
                (MemoryDBOps.set_heap db h1)) as [db2 [id|e]] eqn:Ecn;
      [|discriminate].
    destruct (createNewId_within_frame _ _ _ _ Ecn) as [_ (_ & Hts & _ & Hh2)].
    cbn in Hh2, Hts.
    unfold ret at 1, bind, get, ret in H. cbn in H. rewrite Hts, Hh2 in H.
    repeat match type of H with
           | context [if ?b then _ else _] => destruct b
           end;
      match type of H with
      | context [checkObject ?v] => destruct (checkObject v) as [[]|e] eqn:Ec
      end; try discriminate; injection H as <- <-; cbn;
      (split; [exact Href|]); (split; [lia|]);
      unfold get_field; cbn;
      rewrite ?get_prop_set_prop_other by discriminate;
      rewrite get_prop_set_prop_same;
      (split; [discriminate|]); (split; [|exact Ec]);
      intros X; exfalso; apply X; apply Hundef; reflexivity.
  - unfold ret at 1, bind, get, ret in H. cbn in H.
    assert (Hdef : get_field c "_id" <> VUndefined).
    { intros X. rewrite X in Eid. discriminate. }
    repeat match type of H with
           | context [if ?b then _ else _] => destruct b
           end;
      match type of H with
      | context [checkObject ?v] => destruct (checkObject v) as [[]|e] eqn:Ec
      end; try discriminate; injection H as <- <-; cbn;
      (split; [exact Href|]); (split; [lia|]);
      unfold get_field in *; cbn;
      rewrite ?get_prop_set_prop_other by discriminate;
      (split; [exact Hdef|]); (split; [intros _; exact Hc|exact Ec]).
Qed.

End Preparation.

Section CursorExtras.
Context {model : Model} {env : Env}.

Lemma collect_window (self : Cursor) (m : doc -> bool) (s : nat) :
  _sort self = None ->
  CursorOps.skip_or_zero self = s ->
  forall candidates skipped added,
    (forall c, In c candidates -> match_doc c (query self) = Ok (m c)) ->
    (skipped <= s)%nat ->
    (forall n, _limit self = Some (S n) -> (added <= n)%nat) ->
    CursorOps.collect self candidates skipped added
    = Ok (let l := skipn (s - skipped) (filter m candidates) in
          match _limit self with
          | Some (S n) => firstn (S n - added) l
          | _ => l
          end).
Proof.
  intros Hsort Hs.
  induction candidates as [|c cs IH]; intros skipped added Hm Hsk Hlim.
  - simpl. rewrite skipn_nil. destruct (_limit self) as [[|n]|]; try reflexivity.
    rewrite firstn_nil. reflexivity.
  - cbn [CursorOps.collect filter]. rewrite (Hm c (or_introl eq_refl)).
    assert (Hm' : forall x, In x cs -> match_doc x (query self) = Ok (m x)).
    { intros x Hx. apply Hm. right. exact Hx. }
    destruct (m c); [|apply IH; assumption].
    rewrite Hsort.
    assert (Hstill : CursorOps.still_skipping self skipped = (skipped <? s)%nat).
    { unfold CursorOps.still_skipping, CursorOps.skip_or_zero in *.
      destruct (_skip self) as [n|]; subst s.
      - destruct (Nat.ltb_spec skipped n), (Nat.ltb_spec 0 n); simpl; try reflexivity; lia.
      - destruct (Nat.ltb_spec skipped 0); [lia|reflexivity]. }
    rewrite Hstill. destruct (Nat.ltb_spec skipped s) as [L|L].
    + rewrite (IH (S skipped) added Hm' L Hlim). cbv zeta.
      replace (s - skipped)%nat with (S (s - S skipped)) by lia. reflexivity.
    + assert (Es : (s - skipped = 0)%nat) by lia.
      unfold CursorOps.limit_reached.
      destruct (_limit self) as [[|n]|] eqn:El.
      * cbn [Nat.ltb Nat.leb andb].
        rewrite (IH skipped (S added) Hm' Hsk); [|intros n Hn; discriminate].
        cbv beta iota zeta. rewrite Es. reflexivity.
      * specialize (Hlim n eq_refl).
        remember (S n - added)%nat as w eqn:Ew.
        cbn [Nat.ltb Nat.leb andb].
        destruct (Nat.leb_spec n added) as [L1|L1].
        -- assert (w = 1%nat) by lia. subst w. cbv zeta. rewrite Es, H. reflexivity.
        -- rewrite (IH skipped (S added) Hm' Hsk);
             [|intros n' Hn'; injection Hn' as <-; lia].
           cbv beta iota zeta. rewrite Es.
           assert (Ew' : w = S (S n - S added)) by lia.
           rewrite Ew'. reflexivity.
      * rewrite (IH skipped (S added) Hm' Hsk); [|intros n Hn; discriminate].
        cbv beta iota zeta. rewrite Es. reflexivity.
Qed.

(** X17. Without a sort, the cursor keeps the matching candidates in
    their order, leaves out the first [skip] of them and stops after
    [limit] documents; [limit(0)] is no limit, and the candidates behind
    the last document kept are not examined. *)
Theorem unsorted_cursor_skips_then_limits (self : Cursor) (m : doc -> bool)
  (candidates : list doc) :
  _sort self = None ->
  (forall c, In c candidates -> match_doc c (query self) = Ok (m c)) ->
  CursorOps.collect self candidates 0 0
  = Ok (let l := skipn (CursorOps.skip_or_zero self) (filter m candidates) in
        match _limit self with
        | Some (S n) => firstn (S n) l
        | _ => l
        end).
Proof.
  intros Hsort Hm.
  rewrite (collect_window self m _ Hsort eq_refl candidates 0 0 Hm).
  - cbv zeta. rewrite Nat.sub_0_r. destruct (_limit self) as [[|n]|]; reflexivity.
  - lia.
  - intros n _. lia.
Qed.

Lemma collect_same (c1 c2 : Cursor) :
  query c1 = query c2 -> _sort c1 = _sort c2 -> _skip c1 = _skip c2 ->
  _limit c1 = _limit c2 ->
  forall candidates skipped added,
    CursorOps.collect c1 candidates skipped added
    = CursorOps.collect c2 candidates skipped added.
Proof.
  intros Hq Hs Hk Hl. induction candidates as [|c cs IH]; intros skipped added;
    [reflexivity|].
  simpl. rewrite Hq, Hs. unfold CursorOps.still_skipping, CursorOps.limit_reached.
  rewrite Hk, Hl, !IH. reflexivity.
Qed.

Lemma deepCopyDocs_spec (ds : list doc) :
  forall h,
    let copies := fst (deepCopyDocs ds h) in
    let h' := snd (deepCopyDocs ds h) in
    Forall2 (fun d c => erase (doc_value c) = erase (doc_value d)) ds copies
    /\ Forall (fun c => (h <= doc_ref c < h')%nat) copies
    /\ NoDup (map doc_ref copies)
    /\ (h <= h')%nat.
Proof.
  induction ds as [|d ds IH]; intros h; simpl.
  - repeat split; try constructor.
  - pose proof (deepCopyDoc_spec d h) as [Href Hera].
    pose proof (deepCopyDoc_heap d h) as Hh.
    destruct (deepCopyDoc d h) as [c h1]. cbn [fst snd] in *.
    specialize (IH h1). cbv zeta in IH.
    destruct (deepCopyDocs ds h1) as [cs h2]. cbn [fst snd] in *.
    destruct IH as (F2 & Fr & Nd & Hle).
    split; [constructor; assumption|]. split; [|split; [|lia]].
    + constructor; [lia|]. eapply Forall_impl; [|exact Fr]. simpl. intros x Hx. lia.
    + simpl. constructor; [|exact Nd]. intros X. apply in_map_iff in X.
      destruct X as (x & Ex & Hx). rewrite Forall_forall in Fr.
      specialize (Fr x Hx). lia.
Qed.

(** The run of a cursor that neither sorts nor projects. *)
Lemma exec_plain (c : Cursor) (db : MemoryDB) :
  _sort c = None ->
  _projection c = None \/ _projection c = Some [] ->
  StoreOps.exec c db
  = match MemoryDBOps.getCandidates (query c) false db with
    | (db1, Throw e) => (db1, Throw e)
    | (db1, Ok candidates) =>
        match CursorOps.collect c candidates 0 0 with
        | Throw e => (db1, Throw e)
        | Ok res =>
            let (s, r) := CursorOps.run_handler (execFn c) res (c, db1) in
            (snd s, r)
        end
    end.
Proof.
  intros Hs Hp.
  unfold StoreOps.exec, CursorOps._exec.
  unfold bind at 1, get at 1. cbn [fst snd].
  unfold bind at 1, CursorOps.on_db at 1. cbn [fst snd].
  destruct (MemoryDBOps.getCandidates (query c) false db) as [db1 [cands|e]];
    [|reflexivity].
  destruct (CursorOps.collect c cands 0 0) as [res|e]; [|reflexivity].
  unfold bind at 1, get at 1. cbn [fst snd].
  unfold CursorOps.sorted_and_sliced. rewrite Hs.
  unfold bind at 1, CursorOps.on_cursor at 1. cbn [fst snd].
  assert (Hproj : CursorOps.project res (heap db1) c = (c, Ok (res, heap db1))).
  { unfold CursorOps.project, bind, get. destruct Hp as [-> | ->]; reflexivity. }
  rewrite Hproj. unfold bind at 1, CursorOps.on_db at 1, bind at 1, get at 1, put at 1.
  cbn [fst snd]. rewrite set_heap_same. reflexivity.
Qed.

(** X18. [count(query)] is the number of documents that [find(query)]
    returns on the same store: the two calls fail together, with the same
    error, or yield a number and as many documents. *)
Theorem count_is_the_number_found (q : value) (db : MemoryDB) :
  match StoreOps.exec (StoreOps.count q) db,
        StoreOps.exec (StoreOps.find q []) db with
  | (db1, Ok (Count n)), (db2, Ok (Docs ds)) =>
      n = List.length ds /\ indexes db1 = indexes db2
  | (db1, Throw e1), (db2, Throw e2) => e1 = e2 /\ db1 = db2
  | _, _ => False
  end.
Proof.
  rewrite (exec_plain (StoreOps.count q) db eq_refl (or_introl eq_refl)).
  rewrite (exec_plain (StoreOps.find q []) db eq_refl (or_intror eq_refl)).
  change (query (StoreOps.find q [])) with (query (StoreOps.count q)).
  destruct (MemoryDBOps.getCandidates (query (StoreOps.count q)) false db)
    as [db1 [cands|e]]; [|split; reflexivity].
  rewrite (collect_same (StoreOps.find q []) (StoreOps.count q)
             eq_refl eq_refl eq_refl eq_refl).
  destruct (CursorOps.collect (StoreOps.count q) cands 0 0) as [res|e];
    [|split; reflexivity].
  unfold CursorOps.run_handler, bind, ret, CursorOps.on_db, MemoryDBOps.alloc.
  cbn.
  pose proof (deepCopyDocs_spec res (heap db1)) as (F2 & _).
  destruct (deepCopyDocs res (heap db1)) as [copies h']. cbn in *.
  split; [exact (Forall2_length F2)|reflexivity].
Qed.

(** X19. [find] hands out copies: the documents returned have the
    content of the documents that the cursor selected, and sit at
    addresses of their own, pairwise distinct and free before the call,
    so that no document of the store can be reached through them. *)
Theorem find_hands_out_copies (docs : list doc) (c : Cursor) (db : MemoryDB) :
  exists copies h',
    CursorOps.run_handler (Some FindHandler) docs (c, db)
    = ((c, MemoryDBOps.set_heap db h'), Ok (Docs copies))
    /\ Forall2 (fun d c => erase (doc_value c) = erase (doc_value d)) docs copies
    /\ Forall (fun c => (heap db <= doc_ref c < h')%nat) copies
    /\ NoDup (map doc_ref copies).
Proof.
  pose proof (deepCopyDocs_spec docs (heap db)) as (F2 & Fr & Nd & _).
  exists (fst (deepCopyDocs docs (heap db))), (snd (deepCopyDocs docs (heap db))).
  split; [|auto].
  unfold CursorOps.run_handler, bind, ret, CursorOps.on_db, MemoryDBOps.alloc.
  cbn. destruct (deepCopyDocs docs (heap db)); reflexivity.
Qed.

Lemma get_prop_delete_prop_same (fs : list (string * value)) (k : string) :
  get_prop (delete_prop fs k) k = VUndefined.
Proof.
  induction fs as [|[k' v] fs IH]; simpl; [reflexivity|].
  destruct (String.eqb k' k) eqn:E; [exact IH|]. simpl. rewrite E. exact IH.
Qed.

(** X20. [project] rewrites the projection of the cursor: after one run
    with a projection that is not empty, the cursor keeps the projection
    without its [_id] entry, also when the run failed.  A second run on
    the same cursor therefore returns every document with its [_id], even
    when the projection given was [{_id: 0, ...}]. *)
Theorem project_forgets_the_id_exclusion (self self' : Cursor)
  (p : list (string * value)) (candidates : list doc) (h : nat)
  (r : result (list doc * nat)) :
  _projection self = Some p ->
  Object_keys p <> [] ->
  CursorOps.project candidates h self = (self', r) ->
  _projection self' = Some (delete_prop p "_id")
  /\ forall (candidates2 res : list doc) (h2 h' : nat) (self'' : Cursor),
       CursorOps.project candidates2 h2 self' = (self'', Ok (res, h')) ->
       Forall2 (fun c r => get_field r "_id" = get_field c "_id") candidates2 res.
Proof.
  intros Hp Hne H.
  assert (H1 : _projection self' = Some (delete_prop p "_id")).
  { unfold CursorOps.project, bind, get, put in H. rewrite Hp in H.
    destruct (Object_keys p) as [|k ks]; [congruence|]. cbn [List.length Nat.eqb] in H.
    destruct (CursorOps.check_actions _ _ _) as [action|e];
      [destruct (CursorOps.project_all _ _ _ _ _) as [res|e]|];
      injection H as <- _; reflexivity. }
  split; [exact H1|].
  intros candidates2 res h2 h' self'' H2.
  unfold CursorOps.project, bind, get, put in H2. rewrite H1 in H2.
  destruct (Object_keys (delete_prop p "_id")) as [|k ks] eqn:Ek.
  { cbn in H2. injection H2 as _ <- _. clear. induction candidates2; constructor; auto. }
  cbn [List.length Nat.eqb] in H2.
  rewrite get_prop_delete_prop_same in H2. cbn [strict_equal negb] in H2.
  destruct (CursorOps.check_actions _ _ _) as [action|e]; [|discriminate].
  destruct (CursorOps.project_all _ _ _ _ _) as [[res' h'']|e] eqn:E; [|discriminate].
  injection H2 as _ <- _.
  exact (project_all_ids true _ _ _ _ _ _ E).
Qed.

End CursorExtras.

Section UpdateExtras.
Context {model : Model} {env : Env}.

Lemma prepare_modifications_spec (ts multi : bool) (q uq : value) (m : doc -> bool) :
  forall candidates n0 h mods n h',
    (forall c, In c candidates -> match_doc c q = Ok (m c)) ->
    StoreOps.prepare_modifications ts multi q uq candidates n0 h = Ok (mods, n, h') ->
    n = (n0 + List.length mods)%nat
    /\ map oldDoc mods
       = (if multi then filter m candidates
          else if Nat.eqb n0 0 then firstn 1 (filter m candidates) else [])
    /\ (ts = true ->
        Forall (fun p =>
                  get_field (newDoc p) "createdAt" = get_field (oldDoc p) "createdAt"
                  /\ exists a, get_field (newDoc p) "updatedAt" = VDate a Date_now)
               mods).
Proof.
  induction candidates as [|c cs IH]; intros n0 h mods n h' Hm H; simpl in H.
  - injection H as <- <- _. simpl. rewrite Nat.add_0_r.
    repeat split; [destruct multi, (Nat.eqb n0 0); reflexivity|constructor].
  - rewrite (Hm c (or_introl eq_refl)) in H.
    assert (Hm' : forall x, In x cs -> match_doc x q = Ok (m x)).
    { intros x Hx. apply Hm. right. exact Hx. }
    cbn [filter].
    destruct (m c && (multi || Nat.eqb n0 0)) eqn:Ec.
    + apply andb_prop in Ec as [Emc Eor]. rewrite Emc.
      destruct (modify c uq h) as [[modifiedDoc h1]|e]; [|discriminate].
      destruct (StoreOps.prepare_modifications ts multi q uq cs (S n0) _)
        as [[[mods1 n1] h2]|e] eqn:E; [|discriminate].
      injection H as <- <- <-.
      destruct (IH _ _ _ _ _ Hm' E) as (Hn & Hold & Hts).
      split; [simpl; lia|]. split.
      * cbn [map oldDoc]. rewrite Hold.
        destruct multi; [reflexivity|]. simpl in Eor. rewrite Eor.
        cbn [Nat.eqb firstn]. reflexivity.
      * intros ->. constructor; [|exact (Hts eq_refl)].
        cbn [newDoc oldDoc fst]. unfold get_field, set_field. cbn [doc_fields].
        split.
        -- rewrite get_prop_set_prop_other by discriminate.
           apply get_prop_set_prop_same.
        -- exists h1. apply get_prop_set_prop_same.
    + destruct (IH _ _ _ _ _ Hm' H) as (Hn & Hold & Hts).
      split; [exact Hn|]. split; [|exact Hts].
      rewrite Hold. apply andb_false_iff in Ec as [->|Eor]; [reflexivity|].
      apply orb_false_iff in Eor as [-> ->].
      destruct (m c); reflexivity.
Qed.

(** X21. The update loop modifies every matching candidate with the
    [multi] option and only the first one without it, in the order of
    the candidates; [numAffected] is the number of documents modified.
    On a store that stamps its documents, a modified document keeps the
    [createdAt] of the document it replaces and gets the present instant
    as [updatedAt]. *)
Theorem update_modifies_first_or_all_matches (ts multi : bool) (q uq : value)
  (m : doc -> bool) (candidates : list doc) (h h' : nat) (mods : list pair) (n : nat) :
  (forall c, In c candidates -> match_doc c q = Ok (m c)) ->
  StoreOps.prepare_modifications ts multi q uq candidates 0 h = Ok (mods, n, h') ->
  n = List.length mods
  /\ map oldDoc mods
     = (if multi then filter m candidates else firstn 1 (filter m candidates))
  /\ (ts = true ->
      Forall (fun p =>
                get_field (newDoc p) "createdAt" = get_field (oldDoc p) "createdAt"
                /\ exists a, get_field (newDoc p) "updatedAt" = VDate a Date_now)
             mods).
Proof.
  intros Hm H. exact (prepare_modifications_spec ts multi q uq m _ _ _ _ _ _ Hm H).
Qed.

Lemma prepare_modifications_none (ts multi : bool) (q uq : value) :
  forall candidates n0 h,
    (forall c, In c candidates -> match_doc c q = Ok false) ->
    StoreOps.prepare_modifications ts multi q uq candidates n0 h = Ok ([], n0, h).
Proof.
  induction candidates as [|c cs IH]; intros n0 h Hm; simpl; [reflexivity|].
  rewrite (Hm c (or_introl eq_refl)). cbn [andb].
  apply IH. intros x Hx. apply Hm. right. exact Hx.
Qed.

Lemma update_nothing (idx : Index) : IndexOps.update (Batch []) idx = (idx, Ok tt).
Proof. reflexivity. Qed.

Lemma updateIndexes_nothing (db : MemoryDB) :
  MemoryDBOps.updateIndexes (Batch []) db = (db, Ok tt).
Proof.
  unfold MemoryDBOps.updateIndexes, bind at 1, get at 1.
  assert (G : forall ks i,
             (forall k, In k ks -> In k (Object_keys (indexes db))) ->
             for_try (fun k => MemoryDBOps.on_index k (IndexOps.update (Batch []))) ks i db
             = (db, Ok None)).
  { induction ks as [|k ks IH]; intros i Hin; [reflexivity|].
    cbn [for_try]. unfold MemoryDBOps.on_index at 1.
    destruct (obj_get_of_Object_key _ _ (Hin k (or_introl eq_refl))) as [idx Hidx].
    rewrite Hidx, update_nothing, (obj_set_obj_get_same _ _ _ Hidx), set_indexes_same.
    apply IH. intros x Hx. apply Hin. right. exact Hx. }
  unfold bind. rewrite (G _ 0%nat (fun k H => H)). reflexivity.
Qed.

(** Without a TTL index the search for candidates removes nothing. *)
Lemma getCandidates_without_ttl (q : value) (db db1 : MemoryDB)
  (r : result (list doc)) :
  ttlIndexes db = [] ->
  MemoryDBOps.getCandidates q false db = (db1, r) -> db1 = db.
Proof.
  intros Httl H. unfold MemoryDBOps.getCandidates in H. unfold bind at 1 in H.
  destruct (MemoryDBOps.candidates_from_indexes q db) as [s [docs|e]] eqn:E;
    pose proof (candidates_from_indexes_state _ _ _ _ E) as ->;
    [|injection H as <- _; reflexivity].
  unfold bind at 1, get at 1 in H. rewrite Httl in H.
  assert (Hnone : filter (fun d => negb (MemoryDBOps.valid_doc [] d)) docs = []).
  { clear. induction docs as [|d docs IH]; [reflexivity|]. exact IH. }
  rewrite Hnone in H. cbn in H. injection H as <- _. reflexivity.
Qed.

(** X22. An update that matches no document and does not upsert leaves
    the store as the search for candidates left it: beyond the removal of
    the expired documents, which this search performs, no index is
    touched, so that a store without a TTL index is exactly as before; an
    empty list of records is handed to the persistence layer, and the
    report counts no document. *)
Theorem update_without_match_changes_nothing (q uq : value) (options : UpdateOptions)
  (db db1 : MemoryDB) (candidates : list doc) :
  truthy (upsert options) = false ->
  MemoryDBOps.getCandidates q false db = (db1, Ok candidates) ->
  (forall c, In c candidates -> match_doc c q = Ok false) ->
  StoreOps._update q uq options db
  = (db1,
     match persistNewState [] with
     | Some e => Throw e
     | None =>
         Ok (mkUpdateResult 0 (upsert options)
               (if truthy (returnUpdatedDocs options) && truthy (multi options)
                then UpdatedDocs [] else UpdatedUndefined))
     end)
  /\ (ttlIndexes db = [] -> db1 = db).
Proof.
  intros Hup Hc Hm.
  split; [|intros Httl; exact (getCandidates_without_ttl _ _ _ _ Httl Hc)].
  unfold StoreOps._update. rewrite Hup. cbn [negb].
  unfold StoreOps.perform_update.
  unfold bind at 1. rewrite Hc.
  unfold bind at 1, get at 1.
  rewrite (prepare_modifications_none _ _ _ _ _ _ _ Hm).
  unfold bind at 1, put at 1. rewrite set_heap_same.
  unfold bind at 1. rewrite updateIndexes_nothing.
  cbn [map]. unfold bind at 1, MemoryDBOps.persist.
  destruct (persistNewState []) as [e|]; [reflexivity|].
  unfold ret at 1.
  destruct (truthy (returnUpdatedDocs options)); cbn [negb andb]; [|reflexivity].
  unfold bind, MemoryDBOps.alloc, ret. cbn. rewrite set_heap_same.
  destruct (truthy (multi options)); reflexivity.
Qed.

(** X23. [_remove] takes out every matching candidate with the [multi]
    option and only the first one without it: the store is the one that
    [removeFromIndexes] leaves for these documents in turn, one
    [$$deleted] record per document goes to the persistence layer, and
    the number returned is their number.  When the query can be
    evaluated on every candidate, only the persistence layer can make
    the removal fail. *)
Theorem remove_takes_first_or_all_matches (q : value) (multi : bool) (m : doc -> bool)
  (db db1 : MemoryDB) (candidates : list doc) :
  MemoryDBOps.candidates_from_indexes q db = (db1, Ok candidates) ->
  (forall c, In c candidates -> match_doc c q = Ok (m c)) ->
  exists db',
    for_each MemoryDBOps.removeFromIndexes
      (if multi then filter m candidates else firstn 1 (filter m candidates)) db1
    = (db', Ok tt)
    /\ MemoryDBOps._remove q multi db
       = (db',
          let removed :=
            if multi then filter m candidates else firstn 1 (filter m candidates) in
          match persistNewState
                  (map (fun d => VObj 0 [("$$deleted", VBool true);
                                         ("_id", get_field d "_id")]) removed) with
          | Some e => Throw e
          | None => Ok (List.length removed)
          end).
Proof.
  intros Hc Hm. unfold MemoryDBOps._remove.
  unfold bind at 1. rewrite Hc.
  match goal with
  | |- context [bind (?f candidates 0%nat [])] => set (each := f)
  end.
  set (tomb := fun d => VObj 0 [("$$deleted", VBool true); ("_id", get_field d "_id")]).
  set (sel := fun (n0 : nat) (l : list doc) =>
                if multi then filter m l
                else if Nat.eqb n0 0 then firstn 1 (filter m l) else []).
  assert (G : forall cs n0 recs s,
             (forall c, In c cs -> match_doc c q = Ok (m c)) ->
             exists s',
               for_each MemoryDBOps.removeFromIndexes (sel n0 cs) s = (s', Ok tt)
               /\ each cs n0 recs s
                  = (s', Ok ((n0 + List.length (sel n0 cs))%nat,
                             recs ++ map tomb (sel n0 cs)))).
  { induction cs as [|c cs IH]; intros n0 recs s Hcs.
    - exists s. unfold sel. destruct multi, (Nat.eqb n0 0); cbn;
        rewrite Nat.add_0_r, app_nil_r; split; reflexivity.
    - assert (Hcs' : forall x, In x cs -> match_doc x q = Ok (m x)).
      { intros x Hx. apply Hcs. right. exact Hx. }
      cbn [each]. rewrite (Hcs c (or_introl eq_refl)).
      destruct (m c && (multi || Nat.eqb n0 0)) eqn:Ec.
      + apply andb_prop in Ec as [Emc Eor].
        unfold bind at 1.
        destruct (MemoryDBOps.removeFromIndexes c s) as [s1 r1] eqn:Er.
        pose proof (removeFromIndexes_never_fails _ _ _ _ Er) as ->.
        destruct (IH (S n0) (recs ++ [tomb c]) s1 Hcs') as (s' & Hloop & Hrun).
        exists s'.
        assert (Hsel : sel n0 (c :: cs) = c :: sel (S n0) cs).
        { unfold sel. cbn [filter]. rewrite Emc. destruct multi; [reflexivity|].
          simpl in Eor. rewrite Eor. reflexivity. }
        rewrite Hsel. split.
        * cbn [for_each]. unfold bind. rewrite Er. exact Hloop.
        * fold each. change (VObj 0 [("$$deleted", VBool true); ("_id", get_field c "_id")])
            with (tomb c). rewrite Hrun. cbn [List.length map].
          rewrite <- app_assoc. cbn [app].
          replace (S n0 + List.length (sel (S n0) cs))%nat
            with (n0 + S (List.length (sel (S n0) cs)))%nat by lia.
          reflexivity.
      + fold each. destruct (IH n0 recs s Hcs') as (s' & Hloop & Hrun).
        exists s'.
        assert (Hsel : sel n0 (c :: cs) = sel n0 cs).
        { unfold sel. cbn [filter].
          apply andb_false_iff in Ec as [->|Eor]; [reflexivity|].
          apply orb_false_iff in Eor as [-> ->]. destruct (m c); reflexivity. }
        rewrite Hsel. split; assumption. }
  destruct (G candidates 0%nat [] db1 Hm) as (db' & Hloop & Hrun).
  exists db'. split.
  - unfold sel in Hloop. cbn [Nat.eqb] in Hloop. exact Hloop.
  - unfold bind at 1. rewrite Hrun. cbn [fst snd app Nat.add].
    unfold sel. cbn [Nat.eqb]. unfold bind, MemoryDBOps.persist.
    fold tomb.
    destruct (persistNewState _); reflexivity.
Qed.

End UpdateExtras.

Section ExecutorFacts.
Context {task : Type}.

#[local] Abbreviation pushes :=
  (fold_left (fun (e : ExecutorOps.Executor) (p : task * bool) =>
                ExecutorOps.push (fst p) (snd p) e)).

Lemma queue_all (l : list task) :
  forall e : ExecutorOps.Executor,
    fold_left (fun s t => ExecutorOps.queue_push t s) l e
    = ExecutorOps.mkExecutor (ExecutorOps.buffer e) (ExecutorOps.ready e)
        (ExecutorOps.queue e ++ l).
Proof.
  induction l as [|t l IH]; intros e; simpl.
  - rewrite app_nil_r. destruct e; reflexivity.
  - rewrite IH. simpl. rewrite <- app_assoc. reflexivity.
Qed.

Lemma pushes_before_ready (ps : list (task * bool)) :
  forall e : ExecutorOps.Executor,
    ExecutorOps.ready e = false ->
    pushes ps e
    = ExecutorOps.mkExecutor
        (ExecutorOps.buffer e ++ map fst (filter (fun p => negb (snd p)) ps))
        false
        (ExecutorOps.queue e ++ map fst (filter snd ps)).
Proof.
  induction ps as [|[t f] ps IH]; intros e He; simpl.
  - rewrite !app_nil_r. destruct e; simpl in *; congruence.
  - rewrite IH.
    + unfold ExecutorOps.push, ExecutorOps.queue_push. rewrite He.
      destruct f; simpl; rewrite <- ?app_assoc; reflexivity.
    + unfold ExecutorOps.push, ExecutorOps.queue_push. rewrite He.
      destruct f; simpl; exact He || reflexivity.
Qed.

Lemma pushes_when_ready (ps : list (task * bool)) :
  forall e : ExecutorOps.Executor,
    ExecutorOps.ready e = true ->
    pushes ps e
    = ExecutorOps.mkExecutor (ExecutorOps.buffer e) true
        (ExecutorOps.queue e ++ map fst ps).
Proof.
  induction ps as [|[t f] ps IH]; intros e He; simpl.
  - rewrite app_nil_r. destruct e; simpl in *; congruence.
  - rewrite IH.
    + unfold ExecutorOps.push, ExecutorOps.queue_push. rewrite He. simpl.
      rewrite <- app_assoc. reflexivity.
    + unfold ExecutorOps.push, ExecutorOps.queue_push. rewrite He. reflexivity.
Qed.

(** X24. No task is lost, run twice or run out of turn: of the tasks
    pushed before [processBuffer], the forced ones are queued in the order
    of their arrival, the buffered ones follow them in the order of their
    arrival, and every task pushed afterwards is queued behind them,
    whatever its flag; the buffer is empty from then on. *)
Theorem executor_queues_every_task_once (before after : list (task * bool)) :
  let e := pushes after (ExecutorOps.processBuffer (pushes before ExecutorOps.new)) in
  ExecutorOps.queue e
  = map fst (filter snd before)
    ++ map fst (filter (fun p => negb (snd p)) before)
    ++ map fst after
  /\ ExecutorOps.buffer e = []
  /\ ExecutorOps.ready e = true.
Proof.
  cbv zeta. rewrite (pushes_before_ready before ExecutorOps.new eq_refl).
  unfold ExecutorOps.processBuffer. cbn [ExecutorOps.buffer ExecutorOps.queue
                                         ExecutorOps.ready ExecutorOps.new app].
  rewrite queue_all. cbn [ExecutorOps.buffer ExecutorOps.queue ExecutorOps.ready].
  rewrite pushes_when_ready by reflexivity.
  cbn [ExecutorOps.buffer ExecutorOps.queue ExecutorOps.ready].
  rewrite <- app_assoc. repeat split.
Qed.

End ExecutorFacts.

Section WorkerFacts.

Lemma assign_last {A} (l : list A) (y x : A) :
  ExecutorOps.assign (l ++ [y]) (List.length (l ++ [y]) - 1) x = l ++ [x].
Proof.
  induction l as [|a l IH]; [reflexivity|].
  cbn [app List.length]. rewrite Nat.sub_succ, Nat.sub_0_r.
  rewrite length_app in *. cbn [List.length] in *.
  replace (List.length l + 1)%nat with (S (List.length l)) in * by lia.
  cbn [ExecutorOps.assign]. f_equal.
  rewrite Nat.sub_succ, Nat.sub_0_r in IH. exact IH.
Qed.

Lemma nth_last {A} (l : list A) (y d : A) :
  nth (List.length (l ++ [y]) - 1) (l ++ [y]) d = y.
Proof.
  rewrite length_app. cbn [List.length].
  replace (List.length l + 1 - 1)%nat with (List.length l) by lia.
  rewrite app_nth2 by lia. rewrite Nat.sub_diag. reflexivity.
Qed.

(** X25. The function of a task is always called with a callback of the
    worker as its last argument, so that the queue is told when the task
    is over.  A function in last position is wrapped and called in its
    turn; a falsy value in last position is replaced by the callback and
    never reaches the function of the task; in every other case the
    arguments are passed as they are and the callback is added. *)
Theorem worker_always_passes_a_callback (arguments : list argument) :
  match rev arguments with
  | Function f :: front =>
      ExecutorOps.worker_arguments arguments
      = map Given (rev front) ++ [CallbackThen f]
  | Value v :: front =>
      ExecutorOps.worker_arguments arguments
      = if truthy v then map Given arguments ++ [Done]
        else map Given (rev front) ++ [Done]
  | [] => ExecutorOps.worker_arguments arguments = [Done]
  end.
Proof.
  destruct (rev arguments) as [|a front] eqn:E.
  - apply (f_equal (@rev _)) in E. rewrite rev_involutive in E. subst. reflexivity.
  - apply (f_equal (@rev _)) in E. rewrite rev_involutive in E. cbn [rev] in E.
    subst arguments. unfold ExecutorOps.worker_arguments.
    rewrite nth_last, map_app. cbn [map].
    destruct a as [f|v].
    + apply assign_last.
    + unfold ExecutorOps.falsy.
      assert (Hl : Nat.eqb (List.length (rev front ++ [Value v])) 0 = false).
      { rewrite length_app. cbn [List.length]. apply Nat.eqb_neq. lia. }
      rewrite Hl. cbn [negb]. rewrite andb_true_r.
      destruct (truthy v); cbn [negb]; [reflexivity|].
      apply assign_last.
Qed.

End WorkerFacts.

Section ResetIndexes.
Context {model : Model} {env : Env}.

(** X26. [resetIndexes()] without data empties every index of the store
    and keeps the settings of each; the names of the indexes and the rest
    of the store are as before. *)
Theorem resetIndexes_empties_every_index (db : MemoryDB) :
  NoDup (Object_keys (indexes db)) ->
  exists db',
    MemoryDBOps.resetIndexes None db = (db', Ok tt)
    /\ indexes_related (fun idx0 idx => idx = IndexOps.set_tree idx0 []) db db'.
Proof.
  intros Hn. unfold MemoryDBOps.resetIndexes, bind, get.
  destruct (for_each (fun i => MemoryDBOps.on_index i (IndexOps.reset None))
              (Object_keys (indexes db)) db) as [db' r] eqn:E.
  destruct (store_loop_total (P := fun idx0 idx => idx = idx0)
              (fun idx0 idx => idx = IndexOps.set_tree idx0 [])
              (IndexOps.reset None) db
              (fun idx0 idx idx' r0 (Hp : idx = idx0)
                   (Hr : IndexOps.reset None idx = (idx', r0)) =>
                 match Hp in _ = y return r0 = Ok tt /\ idx' = IndexOps.set_tree y [] with
                 | eq_refl =>
                     conj (f_equal snd (eq_sym Hr)) (f_equal fst (eq_sym Hr))
                 end)
              _ (fun _ a b => b = a) db db' r Hn (fun k H => H)
              (fun k a b _ H => H)
              (store_rel_start _ db (fun _ _ _ => eq_refl)) E) as [-> Hrel].
  exists db'. split; [reflexivity|].
  eapply store_rel_names; [|exact Hrel].
  intros name a b Hin. rewrite (on_names_in _ _ _ name Hin). auto.
Qed.

End ResetIndexes.

Section InheritedNames.
Context {model : Model} {env : Env}.

(** X27. [ensureIndex] on a field whose name every object inherits from
    [Object.prototype] ([constructor], [toString], [__proto__], ...)
    finds something under this name in [this.indexes] and reports success
    at once: no index is created, no TTL is registered, nothing is
    persisted, whatever the options. *)
Theorem ensureIndex_inherited_name_is_a_no_op (options : IndexOptions) (f : string)
  (db : MemoryDB) :
  opt_fieldName options = Some f ->
  In f Object_prototype_names ->
  MemoryDBOps.ensureIndex options db = (db, Ok tt)
  /\ (obj_get (indexes db) f = None ->
      ~ In f (Object_keys (indexes (fst (MemoryDBOps.ensureIndex options db))))).
Proof.
  intros Hf Hin.
  assert (Hinh : inherited f = true).
  { unfold inherited. apply existsb_exists. exists f. split; [exact Hin|].
    apply String.eqb_refl. }
  assert (Hne : f <> "").
  { intros ->. repeat (destruct Hin as [Hin|Hin]; [discriminate Hin|]). exact Hin. }
  assert (Hrun : MemoryDBOps.ensureIndex options db = (db, Ok tt)).
  { unfold MemoryDBOps.ensureIndex. rewrite Hf.
    destruct f as [|c f']; [congruence|].
    unfold bind, get. destruct (obj_get (indexes db) (String c f')); [reflexivity|].
    rewrite Hinh. reflexivity. }
  split; [exact Hrun|].
  intros Hnone. rewrite Hrun. cbn [fst]. intros X.
  destruct (obj_get_of_Object_key _ _ X) as [idx Hidx]. congruence.
Qed.

End InheritedNames.

Section NewIdentifiers.
Context {model : Model} {env : Env}.

Lemma createNewId_within_spec (depth : nat) :
  forall (db db' : MemoryDB) (id : string),
    MemoryDBOps.createNewId_within depth db = (db', Ok id) ->
    exists idx,
      obj_get (indexes db) "_id" = Some idx
      /\ indexes db' = indexes db
      /\ (drawn db < drawn db')%nat
      /\ id = uid (drawn db' - 1)
      /\ IndexOps.getMatching (VStr id) idx = []
      /\ forall n, (drawn db <= n)%nat -> (n < drawn db' - 1)%nat ->
                   IndexOps.getMatching (VStr (uid n)) idx <> [].
Proof.
  induction depth as [|depth IH]; intros db db' id H; simpl in H; [discriminate|].
  unfold bind at 1, get at 1 in H. unfold bind at 1, put at 1 in H.
  unfold bind at 1 in H. rewrite read_index_run in H.
  cbn [indexes MemoryDBOps.set_drawn] in H.
  destruct (obj_get (indexes db) "_id") as [idx|] eqn:Eid; [|discriminate].
  exists idx. split; [reflexivity|].
  destruct (IndexOps.getMatching (VStr (uid (drawn db))) idx) as [|x found] eqn:Ef.
  - cbn in H. injection H as <- <-. cbn.
    split; [reflexivity|]. split; [lia|]. rewrite Nat.sub_0_r.
    split; [reflexivity|]. split; [exact Ef|]. intros n H1 H2. lia.
  - cbn [List.length Nat.ltb Nat.leb] in H.
    destruct (IH _ _ _ H) as (idx' & Hidx' & Hi & Hd & Hid & Hun & Hall).
    cbn in Hidx', Hi, Hd, Hall. rewrite Eid in Hidx'. injection Hidx' as <-.
    split; [exact Hi|]. split; [lia|]. split; [exact Hid|]. split; [exact Hun|].
    intros n H1 H2. destruct (Nat.eq_dec n (drawn db)) as [->|N].
    + rewrite Ef. discriminate.
    + apply Hall; lia.
Qed.

(** X28. The identifier that [createNewId] returns is not in use: it is
    the last one drawn from the generator, the [_id] index holds no
    document under it, and every identifier drawn before it during the
    call was refused because the index holds a document under it.  The
    call moves the generator on and leaves the indexes alone. *)
Theorem createNewId_returns_an_unused_id (db db' : MemoryDB) (id : string) :
  MemoryDBOps.createNewId db = (db', Ok id) ->
  exists idx,
    obj_get (indexes db) "_id" = Some idx
    /\ indexes db' = indexes db
    /\ (drawn db < drawn db')%nat
    /\ id = uid (drawn db' - 1)
    /\ IndexOps.getMatching (VStr id) idx = []
    /\ forall n, (drawn db <= n)%nat -> (n < drawn db' - 1)%nat ->
                 IndexOps.getMatching (VStr (uid n)) idx <> [].
Proof. apply createNewId_within_spec. Qed.

End NewIdentifiers.

(* ================================================================== *)
(** * Concrete runs *)

Import Examples.

(** The keys of a concrete document in a concrete index. *)
Ltac known_keys :=
  repeat match goal with
         | |- context [doc_keys ?i ?d] =>
             let v := eval vm_compute in (doc_keys i d) in
             change (doc_keys i d) with v
         end.

(** The side conditions on a concrete store, step by step. *)
Ltac settle :=
  repeat match goal with
         | |- _ /\ _ => split
         | |- Forall _ _ => constructor
         | |- StronglySorted _ _ => constructor
         | |- NoDup _ => constructor
         | |- ForallOrdPairs _ _ => constructor
         | |- absent _ _ => intro
         | |- ~ _ => intro
         | |- _ -> _ => intro
         | |- forall _, _ => intro
         | H : In _ (_ :: _) |- _ => destruct H as [H|H]; [try subst|]
         | H : In _ [] |- _ => destruct H
         | H : In _ (snd _) |- _ => simpl in H
         | H : _ \/ _ |- _ => destruct H
         | H : _ = ?x |- _ => is_var x; subst x
         | H : doc_ref _ = doc_ref _ |- _ => vm_compute in H; discriminate H
         | H : False |- _ => destruct H
         | H : _ = _ |- _ => discriminate H
         | H : hits _ _ _ = false |- _ => vm_compute in H; discriminate H
         | H : In _ (doc_keys ?i ?d) |- _ =>
             let v := eval vm_compute in (doc_keys i d) in
             change (doc_keys i d) with v in H
         | |- _ < _ => vm_compute; reflexivity
         | |- (_ <= _)%nat => simpl; lia
         | |- In _ (content _ _) => vm_compute; auto
         end.

(** The witness of C9: a fresh store and [ensureIndex({fieldName: "_id"})]. *)
Lemma ensureIndex_existing_field_unchanged_witness :
  MemoryDBOps.ensureIndex (mkIndexOptions (Some "_id") (Some false) None (Some 5))
                          Examples.empty_store
  = (Examples.empty_store, Ok tt).
Proof.
  apply (ensureIndex_existing_field_unchanged Examples.empty_store _ "_id"
           (IndexOps.new "_id" true false)).
  - reflexivity.
  - discriminate.
  - reflexivity.
Defined.

(** C3 (what the code does). The projection sends every array to
    ["$null"], so array elements are not told apart: of the two arrays in
    [{_id:"a", f:[[1],[2]]}] only the first is kept, and the document is
    indexed under [[1]] alone. *)
Theorem projectForUnique_collapses_arrays :
  (forall r l, projectForUnique (VArr r l) = VStr "$null")
  /\ uniq [VArr 12 [VNum 1]; VArr 13 [VNum 2]] projectForUnique = [VArr 12 [VNum 1]]
  /\ IndexOps.insert (One Examples.nested_arrays) (IndexOps.new "f" false false)
     = (mkIndex "f" false false [(VArr 12 [VNum 1], [Examples.nested_arrays])], Ok tt).
Proof.
  split; [reflexivity|]. split; reflexivity.
Qed.

(** The counterexample of C5: the store holds [{_id:"1", n:3}] among
    others; [update({_id:"1"}, {$set:{v:1}}, {upsert:true})] finds it,
    updates it, and reports [upsert: true]. *)
Lemma update_report_upsert_counterexample :
  exists db' r,
    StoreOps._update (by_id "1") set_v_1 upsert_true three_docs = (db', Ok r)
    /\ numAffected r = 1%nat
    /\ report_upsert r = VBool true
    /\ report_upsert r <> VBool false.
Proof.
  eexists. eexists. split; [vm_compute; reflexivity|].
  split; [reflexivity|]. split; [reflexivity|]. discriminate.
Qed.

(** The witness of C5, on the same call. *)
Lemma update_report_echoes_upsert_option_witness :
  exists db' r,
    StoreOps._update (by_id "1") set_v_1 upsert_true three_docs = (db', Ok r)
    /\ report_upsert r = VBool true.
Proof.
  eexists. eexists. split; [vm_compute; reflexivity|].
  eapply (update_report_echoes_upsert_option (by_id "1") set_v_1 upsert_true
            three_docs).
  - vm_compute. reflexivity.
  - right. eexists. eexists. vm_compute. reflexivity.
Defined.

(** The witness of C6: of the two stamped documents only the recent one is
    handed on. *)
Lemma getCandidates_drops_expired_documents_witness :
  let old := Doc 1 [("_id", VStr "old"); ("t", VDate 2 0)] in
  let new := Doc 4 [("_id", VStr "new"); ("t", VDate 5 999000)] in
  snd (MemoryDBOps.getCandidates (VObj 0 []) false ttl_store) = Ok [new]
  /\ forall d,
       In d [new]
       <-> In d [new; old]
           /\ negb (MemoryDBOps.valid_doc (ttlIndexes ttl_store) d) = false.
Proof.
  intros old new. split; [vm_compute; reflexivity|].
  assert (Hprobe : snd (MemoryDBOps.candidates_from_indexes (VObj 0 []) ttl_store)
                   = Ok [new; old]) by (vm_compute; reflexivity).
  assert (Hrun : MemoryDBOps.getCandidates (VObj 0 []) false ttl_store
                 = (fst (MemoryDBOps.getCandidates (VObj 0 []) false ttl_store),
                    Ok [new])) by (vm_compute; reflexivity).
  destruct (getCandidates_drops_expired_documents _ _ _ _ _ Hprobe Hrun)
    as (_ & _ & _ & H).
  exact (H _ eq_refl).
Defined.

(** The witness of C8: the projection [{a: 1, b: 0}] on any cursor. *)
Lemma projection_is_consistent_and_keeps_id_by_default_witness :
  snd (CursorOps.project [doc_n 5 "1" 3] 9
         (CursorOps.projection [("a", VNum 1); ("b", VNum 0)]
                               (CursorOps.new (VObj 0 []) None)))
  = Throw InconsistentProjection.
Proof.
  apply (proj1 projection_is_consistent_and_keeps_id_by_default _
           [("a", VNum 1); ("b", VNum 0)] "a" "b").
  - reflexivity.
  - discriminate.
  - discriminate.
  - reflexivity.
  - reflexivity.
Defined.

(** The witness of C10: on the store of three documents, [findOne({n: 7})]
    finds nothing and [findOne({n: 1})] finds [{_id:"2", n:1}], of which
    it returns a copy made at the first free address. *)
Lemma findOne_yields_null_or_a_copy_witness :
  StoreOps.exec (StoreOps.findOne (VObj 0 [("n", VNum 7)]) []) three_docs
  = (three_docs, Ok Null)
  /\ StoreOps.exec (StoreOps.findOne (VObj 0 [("n", VNum 1)]) []) three_docs
     = (MemoryDBOps.set_heap three_docs 11, Ok (OneDoc (doc_n 10 "2" 1))).
Proof.
  split.
  - assert (Hc : MemoryDBOps.getCandidates (VObj 0 [("n", VNum 7)]) false three_docs
                 = (three_docs, Ok the_three))
      by (vm_compute; reflexivity).
    apply (proj1 (findOne_yields_null_or_a_copy (VObj 0 [("n", VNum 7)]) []
                    three_docs _ _ Hc)).
    + intros d Hd.
      repeat (destruct Hd as [<-|Hd]; [vm_compute; reflexivity|]). destruct Hd.
    + exists VUndefined. reflexivity.
  - assert (Hc : MemoryDBOps.getCandidates (VObj 0 [("n", VNum 1)]) false three_docs
                 = (three_docs, Ok the_three))
      by (vm_compute; reflexivity).
    refine (eq_trans
              (proj1 (proj1 (proj2 (findOne_yields_null_or_a_copy
                                      (VObj 0 [("n", VNum 1)]) [] three_docs _ _ Hc))
                        [doc_n 1 "1" 3] [doc_n 5 "3" 2] (doc_n 3 "2" 1)
                        eq_refl _ _ eq_refl)) _).
    + intros x [<-|[]]. vm_compute. reflexivity.
    + vm_compute. reflexivity.
    + vm_compute. reflexivity.
Defined.



(** The witness of C2: the unique index on [n] holding 1 and 2, and the
    batch that moves both documents to 5; the second insertion is refused
    and the index is back to 1 and 2. *)
Lemma unique_n_run :
  unique_n = mkIndex "n" true false
               [(VNum 1, [doc_n 1 "1" 1]); (VNum 2, [doc_n 2 "2" 2])].
Proof. vm_compute. reflexivity. Qed.

Lemma updateMultipleDocs_two_phase_rollback_witness :
  update_ready unique_n colliding_pairs
  /\ exists idx',
       IndexOps.updateMultipleDocs colliding_pairs unique_n
       = (idx', Throw (UniqueViolated (VNum 5)))
       /\ batch_phases colliding_pairs unique_n idx' (UniqueViolated (VNum 5))
       /\ same_index unique_n idx'.
Proof.
  assert (R : update_ready unique_n colliding_pairs).
  { rewrite unique_n_run.
    unfold update_ready, wf_tree, sorted, no_empty_node, refs_distinct,
      unique_bound, fresh, filed, alias_free, colliding_pairs. simpl.
    settle; known_keys; settle. }
  split; [exact R|].
  exists unique_n.
  assert (E : IndexOps.updateMultipleDocs colliding_pairs unique_n
              = (unique_n, Throw (UniqueViolated (VNum 5))))
    by (vm_compute; reflexivity).
  split; [exact E|].
  exact (updateMultipleDocs_two_phase_rollback (order := spec_model_order)
           unique_n unique_n colliding_pairs _ R E).
Defined.


(** C1 (as stated) fails on an update.  The documents [{_id:"1"}] and
    [{_id:"2"}] share the key [1] of the plain index on [a]; the update of
    the first one to [b = 2] is refused by the unique index on [b], after
    the index on [a] has been updated.  The revert takes the new document
    out of the index on [a] and appends the old one: the traversal of
    this index was 1, 2 and is 2, 1 after the failed update. *)
Lemma failed_update_reorders_index_counterexample :
  let run := StoreOps._update (by_id "1") set_b_2 no_options shared_key_store in
  snd run = Throw (UniqueViolated (VNum 2))
  /\ ids_in_order "a" shared_key_store = Some [VStr "1"; VStr "2"]
  /\ ids_in_order "a" (fst run) = Some [VStr "2"; VStr "1"].
Proof. vm_compute. repeat split. Qed.

(** Outside the hypotheses of C1 (amended): a document filed twice under
    keys that compare equal.  [{_id:"d", tags:[{a:1},{a:1}], u:1}] goes
    twice into the node of [{_id:"x"}] in the index on [tags], is refused
    by the unique index on [u], and its removal from the index on [tags]
    deletes the node: the index has lost [{_id:"x"}]. *)
Lemma failed_insert_drops_other_document :
  let run := MemoryDBOps._insert (One (tagged 0 "d" [tag_a 0; tag_a 0] 1)) tags_store in
  snd run = Throw (UniqueViolated (VNum 1))
  /\ ids_in_order "tags" tags_store = Some [VStr "x"]
  /\ ids_in_order "tags" (fst run) = Some [].
Proof. vm_compute. repeat split. Qed.

(** The witness of C1 (amended): in the store above, the insertion of a
    document whose [b] is taken and the update of [{_id:"1"}] to [b = 2]
    both fail in the unique index on [b]. *)
Lemma shared_key_store_run :
  shared_key_store
  = mkMemoryDB
      [("_id", mkIndex "_id" true false
                 [(VStr "1", [doc_ab 1 "1" 1 1]); (VStr "2", [doc_ab 3 "2" 1 2])]);
       ("a", mkIndex "a" false false
               [(VNum 1, [doc_ab 1 "1" 1 1; doc_ab 3 "2" 1 2])]);
       ("b", mkIndex "b" true false
               [(VNum 1, [doc_ab 1 "1" 1 1]); (VNum 2, [doc_ab 3 "2" 1 2])])]
      [] false None 7 0.
Proof. vm_compute. reflexivity. Qed.

Lemma failed_mutation_restores_indexes_witness :
  (let run := MemoryDBOps._insertInCache (One taken_b) shared_key_store in
   snd run = Throw (UniqueViolated (VNum 2))
   /\ indexes_related same_index shared_key_store (fst run))
  /\ (let run := MemoryDBOps._insertInCache (Many batch_b) shared_key_store in
      snd run = Throw (UniqueViolated (VNum 2))
      /\ indexes_related same_index shared_key_store (fst run))
  /\ (let run := MemoryDBOps.updateIndexes (Batch pairs_1) shared_key_store in
      snd run = Throw (UniqueViolated (VNum 2))
      /\ indexes_related restored shared_key_store (fst run)).
Proof.
  assert (Ri : store_insert_ready shared_key_store [taken_b]).
  { rewrite shared_key_store_run.
    unfold store_insert_ready, insert_ready, wf_tree, sorted, no_empty_node,
      refs_distinct, fresh, alias_free, taken_b. simpl.
    split; [|split].
    - vm_compute. settle.
    - settle.
    - settle; known_keys; settle. }
  assert (Rb : store_insert_ready shared_key_store batch_b).
  { rewrite shared_key_store_run.
    unfold store_insert_ready, insert_ready, wf_tree, sorted, no_empty_node,
      refs_distinct, fresh, alias_free, batch_b. simpl.
    split; [|split].
    - vm_compute. settle.
    - settle.
    - settle; known_keys; settle. }
  assert (Ru : store_update_ready shared_key_store pairs_1).
  { rewrite shared_key_store_run.
    unfold store_update_ready, update_ready, wf_tree, sorted, no_empty_node,
      refs_distinct, unique_bound, fresh, filed, alias_free, pairs_1. simpl.
    split.
    - vm_compute. settle.
    - settle; known_keys; settle. }
  split; [|split].
  - split; [vm_compute; reflexivity|].
    refine (proj1 (failed_mutation_restores_indexes (order := spec_model_order)
                     shared_key_store _ (UniqueViolated (VNum 2)))
              (One taken_b) Ri _).
    vm_compute. reflexivity.
  - split; [vm_compute; reflexivity|].
    refine (proj1 (failed_mutation_restores_indexes (order := spec_model_order)
                     shared_key_store _ (UniqueViolated (VNum 2)))
              (Many batch_b) Rb _).
    vm_compute. reflexivity.
  - split; [vm_compute; reflexivity|].
    refine (proj1 (proj2 (failed_mutation_restores_indexes (order := spec_model_order)
                            shared_key_store _ (UniqueViolated (VNum 2))))
              (Batch pairs_1) Ru _).
    vm_compute. reflexivity.
Defined.

(** The side conditions of the index operations on a concrete index. *)
Ltac index_ready :=
  unfold update_ready, insert_ready, wf_tree, sorted, no_empty_node,
    refs_distinct, unique_bound, fresh, filed, alias_free;
  simpl; settle; known_keys; settle.

(** The witness of X1: [{_id:"3", n:3}] goes into the unique index on [n]
    and is found under 3. *)
Lemma insert_then_getMatching_witness :
  let d := doc_n 3 "3" 3 in
  let idx' := fst (IndexOps.insertDoc d unique_n) in
  IndexOps.getMatching (VNum 3) idx' = [d]
  /\ In d (IndexOps.getMatching (VNum 3) idx').
Proof.
  cbv zeta.
  assert (E : IndexOps.insertDoc (doc_n 3 "3" 3) unique_n
              = (fst (IndexOps.insertDoc (doc_n 3 "3" 3) unique_n), Ok tt))
    by (vm_compute; reflexivity).
  assert (W : wf_tree (tree unique_n)) by (rewrite unique_n_run; index_ready).
  assert (A : unique unique_n = false -> alias_free unique_n (doc_n 3 "3" 3))
    by (intros H; vm_compute in H; discriminate H).
  destruct (insert_then_getMatching (order := spec_model_order)
              (doc_n 3 "3" 3) unique_n _ W A E (VNum 3) eq_refl) as [H1 H2].
  split; [exact H1|]. apply H2. vm_compute. auto.
Defined.

(** The witness of X2: the same insertion, undone. *)
Lemma insert_then_remove_restores_witness :
  exists idx2,
    IndexOps.removeDoc (doc_n 3 "3" 3) (fst (IndexOps.insertDoc (doc_n 3 "3" 3) unique_n))
    = (idx2, Ok tt)
    /\ same_index unique_n idx2.
Proof.
  apply (insert_then_remove_restores (order := spec_model_order)).
  - rewrite unique_n_run; index_ready.
  - rewrite unique_n_run; index_ready.
  - rewrite unique_n_run; index_ready.
  - intros H; vm_compute in H; discriminate H.
  - vm_compute; reflexivity.
Defined.

(** The witness of X3: [n = 1] is taken in the unique index on [n]. *)
Lemma unique_index_refuses_taken_key_witness :
  exists idx' k,
    IndexOps.insertDoc (doc_n 3 "3" 1) unique_n = (idx', Throw (UniqueViolated k))
    /\ In k (doc_keys unique_n (doc_n 3 "3" 1))
    /\ same_index unique_n idx'.
Proof.
  apply (unique_index_refuses_taken_key (order := spec_model_order)
           (doc_n 3 "3" 1) unique_n (VNum 1)).
  - rewrite unique_n_run; index_ready.
  - reflexivity.
  - rewrite unique_n_run; index_ready.
  - vm_compute. auto.
  - vm_compute. discriminate.
Defined.

(** The witness of X4: the second document of the batch has a key that is
    taken. *)
Lemma insertMultipleDocs_all_or_nothing_witness :
  same_index unique_n
    (fst (IndexOps.insertMultipleDocs [doc_n 3 "3" 3; doc_n 4 "4" 1] unique_n)).
Proof.
  assert (E : IndexOps.insertMultipleDocs [doc_n 3 "3" 3; doc_n 4 "4" 1] unique_n
              = (fst (IndexOps.insertMultipleDocs [doc_n 3 "3" 3; doc_n 4 "4" 1] unique_n),
                 Throw (UniqueViolated (VNum 1))))
    by (vm_compute; reflexivity).
  refine (insertMultipleDocs_all_or_nothing (order := spec_model_order)
            unique_n _ [doc_n 3 "3" 3; doc_n 4 "4" 1] _ _ _ E).
  - rewrite unique_n_run; index_ready.
  - simpl; settle.
Defined.

(** The witness of X5: two new documents with the same [n] for a unique
    index; the reset fails and the index is empty. *)
Lemma reset_forgets_the_index_witness :
  let idx' := fst (IndexOps.reset (Some (Many [doc_n 3 "3" 5; doc_n 4 "4" 5])) unique_n) in
  IndexOps.getAll idx' = [] /\ forall k, content (tree idx') k = [].
Proof.
  cbv zeta.
  assert (E : IndexOps.reset (Some (Many [doc_n 3 "3" 5; doc_n 4 "4" 5])) unique_n
              = (fst (IndexOps.reset (Some (Many [doc_n 3 "3" 5; doc_n 4 "4" 5])) unique_n),
                 Throw (UniqueViolated (VNum 5))))
    by (vm_compute; reflexivity).
  refine (reset_forgets_the_index (order := spec_model_order)
            unique_n _ [doc_n 3 "3" 5; doc_n 4 "4" 5] _ _ _ E).
  - simpl; settle.
  - intros H; vm_compute in H; discriminate H.
Defined.

(** The witness of X6: [{_id:"1", n:1}] is taken out of the unique index
    on [n]. *)
Lemma remove_takes_the_document_out_witness :
  let idx' := fst (IndexOps.removeDoc (doc_n 1 "1" 1) unique_n) in
  content (tree idx') (VNum 1) = without (doc_n 1 "1" 1) (content (tree unique_n) (VNum 1))
  /\ absent (doc_n 1 "1" 1) (content (tree idx') (VNum 1)).
Proof.
  cbv zeta.
  refine (proj2 (remove_takes_the_document_out (order := spec_model_order)
                   (doc_n 1 "1" 1) unique_n _ (Ok tt) _ _ _ _ _) (VNum 1)).
  - rewrite unique_n_run; index_ready.
  - rewrite unique_n_run; index_ready.
  - rewrite unique_n_run; index_ready.
  - rewrite unique_n_run; index_ready.
  - vm_compute; reflexivity.
Defined.

(** The witness of X7: the removal of a document that the index does not
    hold, [{_id:"9", n:1}], deletes the node of [{_id:"1", n:1}]. *)
Lemma remove_deletes_a_lone_document_witness :
  content (tree (fst (IndexOps.removeDoc (doc_n 9 "9" 1) unique_n))) (VNum 1) = []
  /\ content (tree unique_n) (VNum 1) = [doc_n 1 "1" 1].
Proof.
  split; [|vm_compute; reflexivity].
  refine (proj2 (remove_deletes_a_lone_document (order := spec_model_order)
                   (doc_n 9 "9" 1) unique_n _ (Ok tt) (VNum 1) _ _ _ _ _)).
  - rewrite unique_n_run; index_ready.
  - rewrite unique_n_run; index_ready.
  - vm_compute. auto.
  - vm_compute. lia.
  - vm_compute; reflexivity.
Defined.

(** The witness of X8: [{_id:"1"}] moves from [n = 1] to [n = 5] and
    back. *)
Lemma update_then_revertUpdate_restores_witness :
  let arg := Batch [Pair (doc_n 1 "1" 1) (doc_n 3 "1" 5)] in
  exists idx2,
    IndexOps.revertUpdate arg (fst (IndexOps.update arg unique_n)) = (idx2, Ok tt)
    /\ restored unique_n idx2.
Proof.
  cbv zeta.
  apply (update_then_revertUpdate_restores (order := spec_model_order)).
  - rewrite unique_n_run; index_ready.
  - vm_compute; reflexivity.
Defined.

(** The witness of X9: [{_id:"1"}] cannot move to [n = 2], which is
    taken. *)
Lemma failed_single_update_restores_witness :
  let run := IndexOps.update (Replace (doc_n 1 "1" 1) (doc_n 3 "1" 2)) unique_n in
  snd run = Throw (UniqueViolated (VNum 2))
  /\ same_index unique_n (fst run).
Proof.
  cbv zeta. split; [vm_compute; reflexivity|].
  refine (proj1 (proj2 (failed_single_update_restores (order := spec_model_order)
                          (doc_n 1 "1" 1) (doc_n 3 "1" 2) unique_n _
                          (UniqueViolated (VNum 2)) _ _))).
  - rewrite unique_n_run; index_ready.
  - vm_compute; reflexivity.
Defined.

Lemma three_docs_run :
  three_docs
  = mkMemoryDB
      [("_id", mkIndex "_id" true false
                 [(VStr "1", [doc_n 1 "1" 3]); (VStr "2", [doc_n 3 "2" 1]);
                  (VStr "3", [doc_n 5 "3" 2])])]
      [] false None 10 0.
Proof. vm_compute. reflexivity. Qed.

(** The witness of X11: a unique index on [n] cannot be built on two
    documents with [n = 7]; the index is deleted, its TTL stays. *)
Lemma failed_ensureIndex_deletes_the_index_witness :
  exists db',
    MemoryDBOps.ensureIndex unique_on_n twins = (db', Throw (UniqueViolated (VNum 7)))
    /\ indexes db' = indexes twins
    /\ ttlIndexes db' = [("n", 60)].
Proof.
  destruct (failed_ensureIndex_deletes_the_index
              unique_on_n "n" twins
              (mkIndex "_id" true false
                 [(VStr "1", [doc_n 1 "1" 7]); (VStr "2", [doc_n 3 "2" 7])])
              (fst (IndexOps.insert (Many [doc_n 1 "1" 7; doc_n 3 "2" 7])
                      (IndexOps.new "n" true false)))
              (UniqueViolated (VNum 7)))
    as (db' & H1 & H2 & H3).
  - reflexivity.
  - discriminate.
  - vm_compute; reflexivity.
  - reflexivity.
  - vm_compute; reflexivity.
  - vm_compute; reflexivity.
  - exists db'. split; [exact H1|]. split; [exact H2|exact H3].
Defined.

(** The witness of X12: a plain index on [n] for the three documents. *)
Lemma ensureIndex_builds_the_index_witness :
  exists idx',
    obj_get (indexes (fst (MemoryDBOps.ensureIndex plain_on_n three_docs))) "n"
    = Some idx'
    /\ fieldName idx' = "n"
    /\ content (tree idx') (VNum 1) = [doc_n 3 "2" 1].
Proof.
  destruct (ensureIndex_builds_the_index (order := spec_model_order)
              plain_on_n "n" three_docs
              (fst (MemoryDBOps.ensureIndex plain_on_n three_docs))
              (mkIndex "_id" true false
                 [(VStr "1", [doc_n 1 "1" 3]); (VStr "2", [doc_n 3 "2" 1]);
                  (VStr "3", [doc_n 5 "3" 2])]))
    as (idx' & H1 & H2 & H3 & H4 & H5 & H6).
  - reflexivity.
  - discriminate.
  - vm_compute; reflexivity.
  - reflexivity.
  - vm_compute; reflexivity.
  - intros _. unfold alias_free. simpl. settle; known_keys; settle.
  - vm_compute; reflexivity.
  - exists idx'. split; [exact H1|]. split; [exact H2|].
    rewrite H5. unfold hits, doc_keys. rewrite H2, H4. vm_compute. reflexivity.
Defined.

(** The witness of X13: no index on [n] in the store of three documents. *)
Lemma candidates_without_index_are_all_data_witness :
  MemoryDBOps.candidates_from_indexes (VObj 0 [("n", VNum 3)]) three_docs
  = MemoryDBOps.getAllData three_docs.
Proof.
  apply candidates_without_index_are_all_data.
  intros k Hk. vm_compute in Hk. destruct Hk as [<-|[]]. vm_compute. reflexivity.
Defined.

(** The witness of X14: the query [{_id: "2"}] on the same store. *)
Lemma candidates_of_a_plain_query_come_from_the_index_witness :
  MemoryDBOps.candidates_from_indexes (by_id "2") three_docs
  = (three_docs, Ok [doc_n 3 "2" 1]).
Proof.
  refine (eq_trans
            (candidates_of_a_plain_query_come_from_the_index "_id" (VStr "2") 0
               three_docs
               (mkIndex "_id" true false
                  [(VStr "1", [doc_n 1 "1" 3]); (VStr "2", [doc_n 3 "2" 1]);
                   (VStr "3", [doc_n 5 "3" 2])]) _ _) _).
  - reflexivity.
  - vm_compute; reflexivity.
  - vm_compute; reflexivity.
Defined.

(** The witness of X15: [{_id:"3", a:2, b:3}] goes into the three indexes
    of the store and out again. *)
Lemma addToIndexes_then_removeFromIndexes_witness :
  exists db2,
    MemoryDBOps.removeFromIndexes new_ab
      (fst (MemoryDBOps.addToIndexes new_ab shared_key_store))
    = (db2, Ok tt)
    /\ indexes_related same_index shared_key_store db2.
Proof.
  apply (addToIndexes_then_removeFromIndexes (order := spec_model_order)).
  - rewrite shared_key_store_run.
    unfold store_insert_ready, insert_ready, wf_tree, sorted, no_empty_node,
      refs_distinct, fresh, alias_free, new_ab. simpl.
    split; [|split].
    + vm_compute. settle.
    + settle.
    + settle; known_keys; settle.
  - vm_compute; reflexivity.
Defined.

(** The witness of X16: [{_id:"1", n:3}] prepared for a fresh store. *)
Lemma prepared_document_is_a_checked_copy_witness :
  let d' := doc_n 1 "1" 3 in
  doc_ref d' = heap empty_store
  /\ get_field d' "_id" <> VUndefined
  /\ checkObject (doc_value d') = Ok tt.
Proof.
  cbv zeta.
  destruct (prepared_document_is_a_checked_copy (doc_n 0 "1" 3) (doc_n 1 "1" 3)
              empty_store (fst (MemoryDBOps.prepareDoc (doc_n 0 "1" 3) empty_store)))
    as (H1 & _ & H3 & _ & H5).
  - vm_compute; reflexivity.
  - split; [exact H1|]. split; [exact H3|exact H5].
Defined.

(** The witness of X17: [skip(1)] and [limit(1)] on the three documents. *)
Lemma unsorted_cursor_skips_then_limits_witness :
  CursorOps.collect
    (CursorOps.limit 1 (CursorOps.skip 1 (StoreOps.find (VObj 0 []) [])))
    the_three 0 0
  = Ok [doc_n 3 "2" 1].
Proof.
  refine (eq_trans
            (unsorted_cursor_skips_then_limits
               (CursorOps.limit 1 (CursorOps.skip 1 (StoreOps.find (VObj 0 []) [])))
               (fun _ => true) the_three eq_refl _) _).
  - intros c Hc.
    repeat (destruct Hc as [<-|Hc]; [vm_compute; reflexivity|]). destruct Hc.
  - reflexivity.
Defined.

(** The witness of X20: the projection [{_id: 0, n: 1}], twice on the
    same cursor. *)
Lemma project_forgets_the_id_exclusion_witness :
  let self := CursorOps.projection [("_id", VNum 0); ("n", VNum 1)]
                (CursorOps.new (VObj 0 []) None) in
  let self' := fst (CursorOps.project the_three 10 self) in
  _projection self' = Some [("n", VNum 1)]
  /\ snd (CursorOps.project [doc_n 1 "1" 3] 10 self) = Ok ([Doc 10 [("n", VNum 3)]], 11%nat)
  /\ snd (CursorOps.project [doc_n 1 "1" 3] 10 self')
     = Ok ([Doc 10 [("n", VNum 3); ("_id", VStr "1")]], 11%nat).
Proof.
  cbv zeta.
  destruct (project_forgets_the_id_exclusion
              (CursorOps.projection [("_id", VNum 0); ("n", VNum 1)]
                 (CursorOps.new (VObj 0 []) None))
              (fst (CursorOps.project the_three 10
                      (CursorOps.projection [("_id", VNum 0); ("n", VNum 1)]
                         (CursorOps.new (VObj 0 []) None))))
              [("_id", VNum 0); ("n", VNum 1)] the_three 10
              (snd (CursorOps.project the_three 10
                      (CursorOps.projection [("_id", VNum 0); ("n", VNum 1)]
                         (CursorOps.new (VObj 0 []) None)))))
    as [H _].
  - reflexivity.
  - vm_compute. discriminate.
  - vm_compute; reflexivity.
  - split; [exact H|]. split; vm_compute; reflexivity.
Defined.

(** The witness of X21: [{$set: {v: 1}}] on the three documents without
    [multi]. *)
Lemma update_modifies_first_or_all_matches_witness :
  exists mods h',
    StoreOps.prepare_modifications false false (VObj 0 []) set_v_1 the_three 0 10
    = Ok (mods, 1%nat, h')
    /\ map oldDoc mods = [doc_n 1 "1" 3].
Proof.
  exists [Pair (doc_n 1 "1" 3) (Doc 10 [("_id", VStr "1"); ("n", VNum 3); ("v", VNum 1)])].
  exists 11%nat.
  assert (E : StoreOps.prepare_modifications false false (VObj 0 []) set_v_1 the_three 0 10
              = Ok ([Pair (doc_n 1 "1" 3)
                       (Doc 10 [("_id", VStr "1"); ("n", VNum 3); ("v", VNum 1)])],
                    1%nat, 11%nat))
    by (vm_compute; reflexivity).
  split; [exact E|].
  refine (proj1 (proj2 (update_modifies_first_or_all_matches false false (VObj 0 [])
                          set_v_1 (fun _ => true) the_three 10 11 _ 1 _ E))).
  intros c Hc.
  repeat (destruct Hc as [<-|Hc]; [vm_compute; reflexivity|]). destruct Hc.
Defined.

(** The witness of X22: no document of the store has the [_id] ["9"]. *)
Lemma update_without_match_changes_nothing_witness :
  StoreOps._update (by_id "9") set_v_1 no_options three_docs
  = (three_docs, Ok (mkUpdateResult 0 VUndefined UpdatedUndefined)).
Proof.
  refine (proj1 (update_without_match_changes_nothing (by_id "9") set_v_1 no_options
                   three_docs three_docs [] eq_refl _ _)).
  - vm_compute; reflexivity.
  - intros c [].
Defined.

(** The witness of X23: the removal of the documents with [n = 1] from
    the store of three documents. *)
Lemma remove_takes_first_or_all_matches_witness :
  exists db',
    MemoryDBOps.removeFromIndexes (doc_n 3 "2" 1) three_docs = (db', Ok tt)
    /\ MemoryDBOps._remove (VObj 0 [("n", VNum 1)]) false three_docs = (db', Ok 1%nat).
Proof.
  destruct (remove_takes_first_or_all_matches (VObj 0 [("n", VNum 1)]) false
              (fun d => match get_field d "n" with VNum 1 => true | _ => false end)
              three_docs three_docs the_three) as (db' & H1 & H2).
  - vm_compute; reflexivity.
  - intros c Hc.
    repeat (destruct Hc as [<-|Hc]; [vm_compute; reflexivity|]). destruct Hc.
  - exists db'. split.
    + refine (eq_trans _ H1). vm_compute. reflexivity.
    + exact H2.
Defined.

(** The witness of X26: the three indexes of the store of two documents. *)
Lemma resetIndexes_empties_every_index_witness :
  exists db',
    MemoryDBOps.resetIndexes None shared_key_store = (db', Ok tt)
    /\ indexes_related (fun idx0 idx => idx = IndexOps.set_tree idx0 [])
         shared_key_store db'.
Proof.
  apply resetIndexes_empties_every_index.
  vm_compute. settle.
Defined.


(** The witness of X27: a unique index on [toString] that expires. *)
Lemma ensureIndex_inherited_name_is_a_no_op_witness :
  MemoryDBOps.ensureIndex unique_on_toString twins = (twins, Ok tt)
  /\ ~ In "toString" (Object_keys (indexes (fst (MemoryDBOps.ensureIndex
                                                   unique_on_toString twins)))).
Proof.
  destruct (ensureIndex_inherited_name_is_a_no_op unique_on_toString "toString" twins)
    as [H1 H2].
  - reflexivity.
  - vm_compute. tauto.
  - split; [exact H1|]. apply H2. vm_compute. reflexivity.
Defined.

(** The witness of X28: the first identifier of the generator is taken,
    the second one is returned. *)
Lemma createNewId_returns_an_unused_id_witness :
  MemoryDBOps.createNewId first_uid_taken
  = (MemoryDBOps.set_drawn first_uid_taken 2, Ok "0000000000000001")
  /\ exists idx,
       obj_get (indexes first_uid_taken) "_id" = Some idx
       /\ IndexOps.getMatching (VStr "0000000000000001") idx = []
       /\ IndexOps.getMatching (VStr "0000000000000000") idx <> [].
Proof.
  assert (E : MemoryDBOps.createNewId first_uid_taken
              = (MemoryDBOps.set_drawn first_uid_taken 2, Ok "0000000000000001"))
    by (vm_compute; reflexivity).
  split; [exact E|].
  destruct (createNewId_returns_an_unused_id _ _ _ E)
    as (idx & H1 & _ & _ & _ & H5 & H6).
  exists idx. split; [exact H1|]. split; [exact H5|].
  apply (H6 0%nat); vm_compute; lia.
Defined.

(** Two documents without [_id] inserted in one batch get the two
    identifiers drawn for them, and the batch goes in. *)
Lemma batch_without_ids_run :
  let run := MemoryDBOps._insert
               (Many [Doc 0 [("n", VNum 1)]; Doc 0 [("n", VNum 2)]]) empty_store in
  ids_in_order "_id" (fst run)
  = Some [VStr "0000000000000000"; VStr "0000000000000001"]
  /\ drawn (fst run) = 2%nat
  /\ exists copies, snd run = Ok (Many copies).
Proof. vm_compute. split; [reflexivity|]. split; [reflexivity|]. eexists. reflexivity. Qed.
